(** * Zero-Trust API gateway: a shallow embedding of the request pipeline

    The development follows the package layout of the Go sources:
    [http] (requests, contexts and the shape of a middleware), [auth],
    [rbac], [policy], [ratelimit], [audit], and [gateway] for the
    composition done in the gateway's [main].

    Go strings are byte strings and are modelled by [string]; slices that
    are only read are lists; a nil slice and an empty slice are both [[]].
    Calls into libraries outside the repository (YAML and JSON codecs,
    SHA-256, time formatting, the JWT parser, [net.SplitHostPort],
    [strings.TrimSpace], [http.StatusText]) are section variables; the
    line scanner of [bufio], with its limit on the length of a line, is
    written out. *)

From Stdlib Require Import ZArith Floats Uint63 List Bool Lia Ascii String DecimalString.
From stdpp Require Import base option gmap strings list.
Import ListNotations.

Open Scope Z_scope.
Open Scope string_scope.

(** ** Strings *)

Module strings.

(** [strings.HasPrefix(s, prefix)]: [len(s) >= len(prefix) && s[:len(prefix)] == prefix]. *)
Fixpoint HasPrefix (s prefix : string) {struct prefix} : bool :=
  match prefix, s with
  | EmptyString, _ => true
  | String _ _, EmptyString => false
  | String c p', String d s' => if Ascii.eqb d c then HasPrefix s' p' else false
  end.

End strings.

(** ** Requests, contexts, middleware decisions *)

Module auth_types.

(** [auth.AuthType] and [auth.Identity] (context.go). *)
Inductive AuthType := AuthJWT | AuthAPIKey.

Record Identity := {
  Type_ : AuthType;
  Subject : string;
  Roles : list string;
  Issuer : string;
  Audience : string
}.

End auth_types.

Module http.

Import auth_types.

(** The context keys the repository defines: [auth.identityKey] and
    [ratelimit.UserIDKey]. Any key of another package is a [ForeignKey]. *)
Inductive CtxKey := identityKey | UserIDKey | ForeignKey (n : nat).

(** A context value with its dynamic type: a non-nil pointer to an [auth.Identity],
    a Go [string], or a value of some other type. *)
Inductive CtxValue :=
| VIdentity (id : Identity)
| VString (s : string)
| VForeign (n : nat).

#[global] Instance CtxKey_eq_dec : EqDecision CtxKey.
Proof. solve_decision. Defined.

(** [context.WithValue] chains; the newest binding of a key wins. *)
Definition Context := list (CtxKey * CtxValue).

Definition WithValue (ctx : Context) (k : CtxKey) (v : CtxValue) : Context :=
  (k, v) :: ctx.

Fixpoint Value (ctx : Context) (k : CtxKey) : option CtxValue :=
  match ctx with
  | [] => None
  | (k', v) :: parent => if decide (k = k') then Some v else Value parent k
  end.

(** The parts of an [http.Request] the pipeline reads. [HeaderGet] is
    [r.Header.Get]; [Body] is what reading [r.Body] to the end yields and
    [BodyErr] says that the underlying read fails. *)
Record Request := {
  Method : string;
  Path : string;
  HeaderGet : string -> string;
  ContentLength : Z;
  Body : string;
  BodyErr : bool;
  RemoteAddr : string;
  Ctx : Context
}.

Definition WithContext (r : Request) (ctx : Context) : Request :=
  {| Method := Method r; Path := Path r; HeaderGet := HeaderGet r;
     ContentLength := ContentLength r; Body := Body r; BodyErr := BodyErr r;
     RemoteAddr := RemoteAddr r; Ctx := ctx |}.

(** Every middleware of the secured chain either calls [next.ServeHTTP]
    once, as its last action, or answers through [http.Error]. *)
Inductive Decision :=
| Next (r : Request)
| Reply (status : Z) (msg : string).

Definition StatusOK : Z := 200.
Definition StatusFound : Z := 302.
Definition StatusBadRequest : Z := 400.
Definition StatusUnauthorized : Z := 401.
Definition StatusForbidden : Z := 403.
Definition StatusTooManyRequests : Z := 429.

End http.

(** ** internal/auth/context.go *)

Module auth.

Include auth_types.
Import http.

Definition WithIdentity (ctx : Context) (id : Identity) : Context :=
  WithValue ctx identityKey (VIdentity id).

(** [ctx.Value(identityKey)] asserted to the type pointer-to-[Identity]. *)
Definition FromContext (ctx : Context) : option Identity :=
  match Value ctx identityKey with
  | Some (VIdentity id) => Some id
  | _ => None
  end.

(** *** apikey.go *)

Record APIKey := {
  ID : string;
  Key : string;
  KeyRoles : list string
}.

(** The [APIKeyStore] interface. *)
Class APIKeyStore (S : Type) := Lookup : S -> string -> option APIKey.

(** [MapStore]: keys are the raw key strings. *)
#[global] Instance MapStore : APIKeyStore (gmap string APIKey) :=
  fun m key => m !! key.

Definition NewDemoStore : gmap string APIKey :=
  let adminKey := "deef0admin0000000000000000000000000000000000000000000000000000" in
  let userKey := "deef0us3r0000000000000000000000000000000000000000000000000000" in
  <[userKey := {| ID := "demo-user"; Key := userKey; KeyRoles := ["user"] |}]>
    (<[adminKey := {| ID := "demo-admin"; Key := adminKey; KeyRoles := ["admin"] |}]> ∅).

(** [subtle.ConstantTimeCompare]: 1 when the two byte strings are equal. *)
Definition ConstantTimeCompare (x y : string) : Z :=
  if String.eqb x y then 1 else 0.

Definition APIKeyMiddleware {S : Type} `{APIKeyStore S} (store : S) (r : Request)
  : Decision :=
  if String.eqb (Path r) "/health" then Next r
  else
    let key := HeaderGet r "X-API-Key" in
    if String.eqb key "" then Reply StatusUnauthorized "missing API key"
    else
      match Lookup store key with
      | None => Reply StatusUnauthorized "invalid API key"
      | Some record =>
          if negb (ConstantTimeCompare key (Key record) =? 1)%Z
          then Reply StatusUnauthorized "invalid API key"
          else
            let id := {| Type_ := AuthAPIKey; Subject := ID record;
                         Roles := KeyRoles record; Issuer := ""; Audience := "" |} in
            Next (WithContext r (WithIdentity (Ctx r) id))
      end.

(** *** jwt.go *)

(** A claim value as [encoding/json] decodes it into an [interface{}]. *)
#[warnings="-register-all"]
Inductive Claim :=
| CNull
| CBool (b : bool)
| CNumber (f : float)
| CString (s : string)
| CArray (items : list Claim)
| CObject (fields : list (string * Claim)).

(** What [jwt.Parse] knows of a token once its segments are decoded:
    the algorithm named in its header and its claims ([jwt.MapClaims]). *)
Record Token := {
  Alg : string;
  Claims : gmap string Claim
}.

(** [strings.SplitN(s, " ", 2)]: the parts before and after the first
    space, or the whole string when there is none. *)
Fixpoint SplitN2 (s : string) : list string :=
  match s with
  | EmptyString => [EmptyString]
  | String c rest =>
      if Ascii.eqb c " " then [EmptyString; rest]
      else match SplitN2 rest with
           | [p] => [String c p]
           | p :: more => String c p :: more
           | [] => []
           end
  end.

Fixpoint stringItems (items : list Claim) : list string :=
  match items with
  | [] => []
  | CString s :: rest => s :: stringItems rest
  | _ :: rest => stringItems rest
  end.

Definition extractRoles (claims : gmap string Claim) : list string :=
  match claims !! "roles" with
  | Some (CArray list) => stringItems list
  | _ => []
  end.

Section JWT.

Variable PublicKey : Type.

Record JWTConfig := {
  cfgIssuer : string;
  cfgAudience : string;
  cfgPublicKey : PublicKey
}.

(** The JWT library, in the order [jwt.Parse] works: the token string is
    decoded ([None]: malformed), the key function is called on the decoded
    token, the signature is verified with the method of the token's
    algorithm and the key, and the library validates the claims on its own
    at the current time. *)
Variable decodeSegments : string -> option Token.
Variable verifySignature : string -> PublicKey -> string -> bool.
Variable validateClaims : gmap string Claim -> Z -> bool.
(** The conversion [int64(f)] of a [float64]. *)
Variable int64_of_float64 : float -> Z.

(** [jwt.Parse(tokenStr, keyFunc)]; [None] is [err != nil || !token.Valid]. *)
Definition Parse (tokenStr : string) (keyFunc : Token -> option PublicKey) (now : Z)
  : option Token :=
  match decodeSegments tokenStr with
  | None => None
  | Some t =>
      match keyFunc t with
      | None => None
      | Some key =>
          if verifySignature (Alg t) key tokenStr && validateClaims (Claims t) now
          then Some t else None
      end
  end.

(** [now] is [time.Now().Unix()]. *)
Definition JWTMiddleware (cfg : JWTConfig) (r : Request) (now : Z) : Decision :=
  if String.eqb (Path r) "/health" then Next r
  else
    let authHeader := HeaderGet r "Authorization" in
    if String.eqb authHeader "" then
      Reply StatusUnauthorized "missing Authorization header"
    else
      match SplitN2 authHeader with
      | [part0; tokenStr] =>
          if negb (String.eqb part0 "Bearer") then
            Reply StatusUnauthorized "invalid Authorization header format"
          else
            let keyFunc (t : Token) :=
              if negb (String.eqb (Alg t) "RS256") then None
              else Some (cfgPublicKey cfg) in
            match Parse tokenStr keyFunc now with
            | None => Reply StatusUnauthorized "invalid token"
            | Some token =>
                let claims := Claims token in
                match claims !! "iss" with
                | Some (CString iss) =>
                    if negb (String.eqb iss (cfgIssuer cfg)) then
                      Reply StatusUnauthorized "invalid token issuer"
                    else
                      match claims !! "aud" with
                      | Some (CString aud) =>
                          if negb (String.eqb aud (cfgAudience cfg)) then
                            Reply StatusUnauthorized "invalid token audience"
                          else
                            match claims !! "exp" with
                            | Some (CNumber exp) =>
                                if (int64_of_float64 exp <? now)%Z then
                                  Reply StatusUnauthorized "token expired"
                                else
                                  match claims !! "sub" with
                                  | Some (CString sub) =>
                                      if String.eqb sub "" then
                                        Reply StatusUnauthorized "token subject missing"
                                      else
                                        let id :=
                                          {| Type_ := AuthJWT; Subject := sub;
                                             Roles := extractRoles claims;
                                             Issuer := cfgIssuer cfg;
                                             Audience := cfgAudience cfg |} in
                                        Next (WithContext r (WithIdentity (Ctx r) id))
                                  | _ => Reply StatusUnauthorized "token subject missing"
                                  end
                            | _ => Reply StatusUnauthorized "token expired"
                            end
                      | _ => Reply StatusUnauthorized "invalid token audience"
                      end
                | _ => Reply StatusUnauthorized "invalid token issuer"
                end
            end
      | _ => Reply StatusUnauthorized "invalid Authorization header format"
      end.

End JWT.

End auth.

(** ** internal/rbac *)

Module rbac.

Import http.

Record Policy := {
  Method : string;
  Path : string;
  Roles : list string
}.

Record PolicySet := { Policies : list Policy }.

Fixpoint inRoles (ur : string) (allowedRoles : list string) : bool :=
  match allowedRoles with
  | [] => false
  | ar :: rest => if String.eqb ur ar then true else inRoles ur rest
  end.

Fixpoint hasAllowedRole (userRoles allowedRoles : list string) : bool :=
  match userRoles with
  | [] => false
  | ur :: rest => if inRoles ur allowedRoles then true else hasAllowedRole rest allowedRoles
  end.

(** The [for _, p := range policies.Policies] loop: [true] when some
    iteration reaches the explicit allow. *)
Fixpoint evaluate (ps : list Policy) (r : Request) (identity : auth.Identity) : bool :=
  match ps with
  | [] => false
  | p :: rest =>
      if negb (String.eqb (http.Method r) (Method p)) then evaluate rest r identity
      else if negb (strings.HasPrefix (http.Path r) (Path p)) then evaluate rest r identity
      else if hasAllowedRole (auth.Roles identity) (Roles p) then true
      else evaluate rest r identity
  end.

Definition RBACMiddleware (policies : PolicySet) (r : Request) : Decision :=
  if String.eqb (http.Path r) "/health" then Next r
  else match auth.FromContext (Ctx r) with
       | None => Reply StatusForbidden "access denied"
       | Some identity =>
           if evaluate (Policies policies) r identity then Next r
           else Reply StatusForbidden "access denied"
       end.

(** What the specification calls an allowing rule. *)
Definition allows (p : Policy) (r : Request) (identity : auth.Identity) : Prop :=
  http.Method r = Method p /\
  (exists rest, http.Path r = Path p ++ rest) /\
  (exists role, In role (auth.Roles identity) /\ In role (Roles p)).

End rbac.

(** ** The file system as the policy engine sees it *)

Module os.

(** A file has a modification time (nanoseconds since the Unix epoch) and
    contents; [Data = None] is a file that [os.ReadFile] cannot read. *)
Record File := { ModTime : Z; Data : option string }.

Abbreviation FileSystem := (gmap string File).

(** [os.ReadFile]: [None] is a non-nil error. *)
Definition ReadFile (fs : FileSystem) (path : string) : option string :=
  match fs !! path with
  | Some f => Data f
  | None => None
  end.

(** [os.Stat] followed by [info.ModTime()]. *)
Definition Stat (fs : FileSystem) (path : string) : option Z :=
  match fs !! path with
  | Some f => Some (ModTime f)
  | None => None
  end.

End os.

(** ** internal/policy *)

Module policy.

Record Rule := {
  Method : string;
  Path : string;
  Roles : list string
}.

Record PolicyFile := { Policies : list Rule }.

(** The engine's fields under its [RWMutex]; every method below runs with
    the lock held, so it is one atomic step on this record. *)
Record Engine := {
  policies : list Rule;
  loaded : bool
}.

Inductive error :=
| ErrReadFile                 (* "failed to read policy file: ..." *)
| ErrInvalidYAML              (* "invalid YAML: ..." *)
| ErrValidation (msg : string).

Definition NewEngine : Engine := {| policies := []; loaded := false |}.

Definition GetPolicies (e : Engine) : list Rule :=
  if negb (loaded e) then [] else policies e.

Definition invalidate (e : Engine) : Engine :=
  {| policies := []; loaded := false |}.

(** [fmt.Sprintf("%d", i)] for a slice index. *)
Definition itoa (i : nat) : string :=
  NilZero.string_of_uint (Nat.to_uint i).

Definition policyError (index : nat) (msg : string) : string :=
  "policy[" ++ itoa index ++ "]: " ++ msg.

Section Load.

(** [yaml.Unmarshal(data, &pf)]: [None] is a parse error. *)
Variable yaml_Unmarshal : string -> option PolicyFile.
Variable TrimSpace : string -> string.

Fixpoint validateRoles (i : nat) (roles : list string) : option string :=
  match roles with
  | [] => None
  | r :: rest =>
      if String.eqb (TrimSpace r) "" then Some (policyError i "role names must not be empty")
      else validateRoles i rest
  end.

Definition validateRule (i : nat) (p : Rule) : option string :=
  if String.eqb (TrimSpace (Method p)) "" then Some (policyError i "method is required")
  else if String.eqb (TrimSpace (Path p)) "" then Some (policyError i "path is required")
  else if negb (strings.HasPrefix (Path p) "/") then Some (policyError i "path must start with '/'")
  else if (length (Roles p) =? 0)%nat then Some (policyError i "roles must not be empty")
  else validateRoles i (Roles p).

Fixpoint validateRules (i : nat) (ps : list Rule) : option string :=
  match ps with
  | [] => None
  | p :: rest =>
      match validateRule i p with
      | Some msg => Some msg
      | None => validateRules (S i) rest
      end
  end.

(** [None] is the nil error. *)
Definition validatePolicyFile (pf : PolicyFile) : option string :=
  if (length (Policies pf) =? 0)%nat then Some "policy file contains no policies"
  else validateRules 0 (Policies pf).

Definition LoadFromFile (e : Engine) (fs : os.FileSystem) (path : string)
  : Engine * option error :=
  match os.ReadFile fs path with
  | None => (invalidate e, Some ErrReadFile)
  | Some data =>
      match yaml_Unmarshal data with
      | None => (invalidate e, Some ErrInvalidYAML)
      | Some pf =>
          match validatePolicyFile pf with
          | Some msg => (invalidate e, Some (ErrValidation msg))
          | None => ({| policies := Policies pf; loaded := true |}, None)
          end
      end
  end.

(** The zero [time.Time] (January 1, year 1) in Unix nanoseconds. *)
Definition zeroTime : Z := -62135596800 * 1000000000.

(** One pass of the loop in the goroutine started by [Watch], on the file
    system as it is at that moment; [lastMod] is the goroutine's local. *)
Definition watchIteration (e : Engine) (lastMod : Z) (fs : os.FileSystem) (path : string)
  : Engine * Z :=
  match os.Stat fs path with
  | None => (invalidate e, lastMod)
  | Some mt =>
      if (lastMod <? mt)%Z then
        match LoadFromFile e fs path with
        | (e', Some _) => (e', lastMod)
        | (e', None) => (e', mt)
        end
      else (e, lastMod)
  end.

End Load.

End policy.

(** ** Time *)

Module time.

(** An instant is a count of nanoseconds (the monotonic reading that
    [Time.Sub] compares); a [Duration] is an [int64] of nanoseconds. *)
Definition minDuration : Z := - 2 ^ 63.
Definition maxDuration : Z := 2 ^ 63 - 1.

(** [t.Sub(u)]: the difference, saturated to the range of [Duration]. *)
Definition Sub (t u : Z) : Z :=
  let d := (t - u)%Z in
  if (d <? minDuration)%Z then minDuration
  else if (maxDuration <? d)%Z then maxDuration
  else d.

Definition Second : Z := 1000000000.

(** [float64(n)] for an integer; exact for [|n| < 2^53]. It is applied
    below to small constants and to the quotient and remainder of an
    [int64] by [Second] only. *)
Definition float64 (n : Z) : float :=
  if (n <? 0)%Z then PrimFloat.opp (PrimFloat.of_uint63 (Uint63.of_Z (- n)))
  else PrimFloat.of_uint63 (Uint63.of_Z n).

(** [Duration.Seconds]:
    [sec := d / Second; nsec := d % Second; float64(sec) + float64(nsec)/1e9],
    with Go's truncated integer division. *)
Definition Seconds (d : Z) : float :=
  (float64 (Z.quot d Second) + float64 (Z.rem d Second) / float64 1000000000)%float.

(** A wall-clock [time.Time]: an instant and the location it is shown in. *)
Inductive Location := LocUTC | LocLocal | LocFixed (offsetSeconds : Z).

Record Time := { unixNano : Z; loc : Location }.

Definition UTC (t : Time) : Time := {| unixNano := unixNano t; loc := LocUTC |}.

End time.

(** ** internal/ratelimit *)

Module ratelimit.

Import http.

Definition IPBucketCapacity : Z := 20.
Definition IPRefillPerSecond : Z := 5.
Definition UserBucketCapacity : Z := 40.
Definition UserRefillPerSecond : Z := 10.
Definition FallbackCapacity : Z := 2.
Definition FallbackRefillPS : Z := 1.

(** [tokens] and [refillPS] are [float64]: IEEE 754 binary64, every
    operation rounded on its own. *)
Record bucket := {
  capacity : Z;
  tokens : float;
  refillPS : float;
  last : Z
}.

Definition newBucket (capacity refillPS : Z) (now : Z) : bucket :=
  {| capacity := capacity;
     tokens := time.float64 capacity;
     refillPS := time.float64 refillPS;
     last := now |}.

(** [allow] mutates the bucket through its pointer: the updated bucket
    is returned with the verdict. *)
Definition allow (b : bucket) (now : Z) : bucket * bool :=
  let elapsed := time.Seconds (time.Sub now (last b)) in
  let tokens1 := (tokens b + elapsed * refillPS b)%float in
  let tokens2 :=
    if (time.float64 (capacity b) <? tokens1)%float
    then time.float64 (capacity b) else tokens1 in
  if (tokens2 <? 1)%float then
    ({| capacity := capacity b; tokens := tokens2;
        refillPS := refillPS b; last := now |}, false)
  else
    ({| capacity := capacity b; tokens := (tokens2 - 1)%float;
        refillPS := refillPS b; last := now |}, true).

(** The limiter's two maps; [None] is a nil map (reads yield nothing,
    a store panics). The mutex makes [safeAllow] one atomic step. *)
Record Limiter := {
  ipBuckets : option (gmap string bucket);
  userBuckets : option (gmap string bucket)
}.

Definition NewLimiter : Limiter :=
  {| ipBuckets := Some ∅; userBuckets := Some ∅ |}.

Definition len (m : option (gmap string bucket)) : nat :=
  match m with
  | Some m => size m
  | None => 0%nat
  end.

Definition Stats (l : Limiter) : nat * nat :=
  (len (ipBuckets l), len (userBuckets l)).

(** The package-level fallback bucket and [fallbackAllow]; [wall] is
    what [time.Now()] returns. *)
Definition newFallbackBucket (wall : Z) : bucket :=
  newBucket FallbackCapacity FallbackRefillPS wall.

Definition fallbackAllow (fallbackBucket : bucket) (wall : Z) : bucket * bool :=
  allow fallbackBucket wall.

Section Limiter.

(** [net.SplitHostPort]: [None] is a non-nil error. *)
Variable SplitHostPort : string -> option (string * string).

Definition extractIP (remoteAddr : string) : string :=
  match SplitHostPort remoteAddr with
  | Some (host, _) => host
  | None => ""
  end.

(** [safeAllow] on the limiter [l] and the package's fallback bucket;
    [now] is [l.clock.Now()] and [wall] is [time.Now()]. A panic (a store
    into a nil map) is recovered into [fallbackAllow]; what was mutated
    before the panic stays mutated. *)
Definition safeAllow (l : Limiter) (fallbackBucket : bucket) (ctx : Context)
           (remoteAddr : string) (now wall : Z) : Limiter * bucket * bool :=
  let fallback (l' : Limiter) :=
    let '(fb', ok) := fallbackAllow fallbackBucket wall in (l', fb', ok) in
  let ip := extractIP remoteAddr in
  if String.eqb ip "" then fallback l
  else
    match ipBuckets l with
    | None => fallback l
    | Some ipm =>
        let ipBucket :=
          match ipm !! ip with
          | Some b => b
          | None => newBucket IPBucketCapacity IPRefillPerSecond now
          end in
        let '(ipBucket', ipOk) := allow ipBucket now in
        let l1 := {| ipBuckets := Some (<[ip := ipBucket']> ipm);
                     userBuckets := userBuckets l |} in
        if negb ipOk then (l1, fallbackBucket, false)
        else
          match Value ctx UserIDKey with
          | Some (VString uid) =>
              if String.eqb uid "" then (l1, fallbackBucket, true)
              else
                match userBuckets l with
                | None => fallback l1
                | Some um =>
                    let userBucket :=
                      match um !! uid with
                      | Some b => b
                      | None => newBucket UserBucketCapacity UserRefillPerSecond now
                      end in
                    let '(userBucket', userOk) := allow userBucket now in
                    ({| ipBuckets := Some (<[ip := ipBucket']> ipm);
                        userBuckets := Some (<[uid := userBucket']> um) |},
                     fallbackBucket, userOk)
                end
          | _ => (l1, fallbackBucket, true)
          end
    end.

Definition Middleware (l : Limiter) (fallbackBucket : bucket) (r : Request)
           (now wall : Z) : Limiter * bucket * Decision :=
  let '(l', fb', allowed) :=
    safeAllow l fallbackBucket (Ctx r) (RemoteAddr r) now wall in
  if negb allowed then (l', fb', Reply StatusTooManyRequests "rate limit exceeded")
  else (l', fb', Next r).

End Limiter.

(** A bucket serving the requests that arrive at the instants [ts], in
    order: the final bucket and the verdicts. *)
Fixpoint serve (b : bucket) (ts : list Z) : bucket * list bool :=
  match ts with
  | [] => (b, [])
  | t :: rest =>
      let '(b1, ok) := allow b t in
      let '(b2, oks) := serve b1 rest in
      (b2, ok :: oks)
  end.

(** How many of the requests at [ts] with verdicts [oks] were allowed at
    an instant of the window [[lo, hi]]. *)
Fixpoint allowedWithin (lo hi : Z) (ts : list Z) (oks : list bool) : Z :=
  match ts, oks with
  | t :: ts', ok :: oks' =>
      ((if ok && (lo <=? t)%Z && (t <=? hi)%Z then 1 else 0)
       + allowedWithin lo hi ts' oks')%Z
  | _, _ => 0%Z
  end.

End ratelimit.

(** ** encoding/hex *)

Module hex.

Definition digit (n : N) : ascii :=
  match n with
  | 0%N => "0" | 1%N => "1" | 2%N => "2" | 3%N => "3"
  | 4%N => "4" | 5%N => "5" | 6%N => "6" | 7%N => "7"
  | 8%N => "8" | 9%N => "9" | 10%N => "a" | 11%N => "b"
  | 12%N => "c" | 13%N => "d" | 14%N => "e" | _ => "f"
  end%char.

(** [hex.EncodeToString]: two lower-case digits per byte. *)
Fixpoint EncodeToString (src : string) : string :=
  match src with
  | EmptyString => EmptyString
  | String c rest =>
      String (digit (N.div (N_of_ascii c) 16))
             (String (digit (N.modulo (N_of_ascii c) 16)) (EncodeToString rest))
  end.

End hex.

(** ** bufio: a [Scanner] that splits lines *)

Module bufio.

(** What a [Scanner] reads from an open file: the lines of the file, each
    without its newline, and whether reading ends in an error other than
    [io.EOF]; the lines are then those read before the error, the last
    one as far as it was read. *)
Record Reader := { rawLines : list string; readErr : bool }.

Definition MaxScanTokenSize : Z := 64 * 1024.

(** [dropCR]: a carriage return that ends a line is not part of the token. *)
Fixpoint dropCR (data : string) : string :=
  match data with
  | EmptyString => EmptyString
  | String c EmptyString => if Ascii.eqb c "013"%char then EmptyString else data
  | String c rest => String c (dropCR rest)
  end.

(** The buffer grows to [MaxScanTokenSize] bytes and no further: a line
    that does not fit into it together with its newline, or that fills it
    at the end of the file, is not returned. *)
Definition tooLong (line : string) : bool :=
  (MaxScanTokenSize <=? Z.of_nat (String.length line))%Z.

Inductive Error :=
| ErrTooLong        (* "bufio.Scanner: token too long" *)
| ErrRead.          (* the error of the file's Read *)

(** The tokens [Scan] yields until it returns false, and what [Err]
    returns then ([None]: nil). *)
Fixpoint scanLines (lines : list string) (readErr : bool) : list string * option Error :=
  match lines with
  | [] => ([], if readErr then Some ErrRead else None)
  | line :: rest =>
      if tooLong line then ([], Some ErrTooLong)
      else let '(tokens, err) := scanLines rest readErr in (dropCR line :: tokens, err)
  end.

Definition Scan (r : Reader) : list string * option Error :=
  scanLines (rawLines r) (readErr r).

End bufio.

(** ** internal/audit *)

Module audit.

Record Entry := {
  Timestamp : time.Time;
  Method : string;
  Path : string;
  Decision : string;
  Reason : string;
  PrevHash : string;
  Hash : string
}.

Definition withHash (e : Entry) (h : string) : Entry :=
  {| Timestamp := Timestamp e; Method := Method e; Path := Path e;
     Decision := Decision e; Reason := Reason e; PrevHash := PrevHash e;
     Hash := h |}.

(** A logger: the lines of the file its handle appends to, and
    [lastHash]. The mutex makes [Log] one atomic step. The file is taken
    as the list of its lines, each written with its newline. *)
Record Logger := {
  file : list string;
  lastHash : string
}.

(** [NewLogger(path)] when [os.OpenFile] succeeds: the file is created
    empty or, when it exists, opened for appending with its lines
    [existing]. *)
Definition NewLogger (existing : list string) : Logger :=
  {| file := existing; lastHash := "" |}.

Inductive VerifyError :=
| ErrOpen            (* the error of os.Open *)
| ErrFormat          (* "invalid log entry format" *)
| ErrPrevHash        (* "hash chain broken (prev hash mismatch)" *)
| ErrHash            (* "hash mismatch (entry tampered)" *)
| ErrScanner (err : bufio.Error).   (* what scanner.Err() returns *)

(** The file that [os.Open] opens when it has the lines [lines] and all
    of it can be read. *)
Definition readable (lines : list string) : option bufio.Reader :=
  Some {| bufio.rawLines := lines; bufio.readErr := false |}.

Section Audit.

(** [t.Format(time.RFC3339Nano)] *)
Variable Format_RFC3339Nano : time.Time -> string.
(** The digest [h.Sum(nil)] of a SHA-256 hash [h] fed the given bytes. *)
Variable sha256_Sum : string -> string.
(** [json.Marshal(entry)] ([None]: an error) and [json.Unmarshal(line, &e)]. *)
Variable json_Marshal : Entry -> option string.
Variable json_Unmarshal : string -> option Entry.

(** The bytes written to the hash, in order. *)
Definition hashed (e : Entry) : string :=
  Format_RFC3339Nano (Timestamp e) ++ Method e ++ Path e ++ Decision e
  ++ Reason e ++ PrevHash e.

Definition computeHash (e : Entry) : string :=
  hex.EncodeToString (sha256_Sum (hashed e)).

(** The entry [Log] builds at wall-clock time [now]. *)
Definition newEntry (l : Logger) (now : time.Time)
           (method path decision reason : string) : Entry :=
  let entry :=
    {| Timestamp := time.UTC now; Method := method; Path := path;
       Decision := decision; Reason := reason; PrevHash := lastHash l;
       Hash := "" |} in
  withHash entry (computeHash entry).

(** [Log]; [writeOk] says whether [l.file.Write] succeeds. *)
Definition Log (l : Logger) (now : time.Time)
           (method path decision reason : string) (writeOk : bool) : Logger :=
  let entry := newEntry l now method path decision reason in
  match json_Marshal entry with
  | None => l
  | Some data =>
      if writeOk then {| file := file l ++ [data]; lastHash := Hash entry |}
      else l
  end.

(** The loop of [VerifyLogIntegrity] over the lines that the scanner
    yields; [None]: no iteration returns an error. *)
Fixpoint verifyLines (prevHash : string) (lines : list string) : option VerifyError :=
  match lines with
  | [] => None
  | line :: rest =>
      match json_Unmarshal line with
      | None => Some ErrFormat
      | Some e =>
          if negb (String.eqb (PrevHash e) prevHash) then Some ErrPrevHash
          else if negb (String.eqb (Hash e) (computeHash e)) then Some ErrHash
          else verifyLines (Hash e) rest
      end
  end.

(** [VerifyLogIntegrity(path)] on what [os.Open(path)] finds ([None]: a
    file that cannot be opened): the loop runs as long as [Scan] yields a
    line, and [scanner.Err()] is returned when the loop ends without an
    error of its own. The result [None] is the nil error. *)
Definition VerifyLogIntegrity (f : option bufio.Reader) : option VerifyError :=
  match f with
  | None => Some ErrOpen
  | Some r =>
      let '(tokens, err) := bufio.Scan r in
      match verifyLines "" tokens with
      | Some e => Some e
      | None => option_map ErrScanner err
      end
  end.

End Audit.

End audit.

(** ** internal/middleware/validate.go *)

Module middleware.

Import http.

Definition MaxRequestBodyBytes : Z := Z.shiftl 1 20.

Definition AllowedContentTypes : list string := ["application/json"; "text/plain"].

Definition RequiredHeaders : list string := ["User-Agent"].

Definition isAllowedContentType (ct : string) : bool :=
  if String.eqb ct "" then false
  else existsb (fun allowed => strings.HasPrefix ct allowed) AllowedContentTypes.

Section Validate.

Variable TrimSpace : string -> string.

(** The first required header that is missing or blank. *)
Fixpoint missingHeader (r : Request) (required : list string) : option string :=
  match required with
  | [] => None
  | h :: rest =>
      if String.eqb (TrimSpace (HeaderGet r h)) "" then Some h
      else missingHeader r rest
  end.

(** Reading through [http.MaxBytesReader] fails when the body is longer
    than the cap or the underlying read fails; otherwise the body is
    buffered and handed on unchanged. *)
Definition ValidateRequestMiddleware (r : Request) : Decision :=
  match missingHeader r RequiredHeaders with
  | Some h => Reply StatusBadRequest ("missing required header: " ++ h)
  | None =>
      if (0 <? ContentLength r)%Z
         && negb (isAllowedContentType (HeaderGet r "Content-Type"))
      then Reply StatusBadRequest "invalid Content-Type"
      else if BodyErr r || (MaxRequestBodyBytes <? Z.of_nat (String.length (Body r)))%Z
      then Reply StatusBadRequest "failed to read request body"
      else Next r
  end.

End Validate.

End middleware.

(** ** internal/dashboard: the stats collector *)

Module dashboard.

(** [atomic.Int64.Add] wraps around. *)
Definition wrap64 (z : Z) : Z := ((z + 2 ^ 63) mod 2 ^ 64 - 2 ^ 63)%Z.

Record StatsCollector := {
  allowCount : Z;
  denyCount : Z;
  startedAt : Z
}.

Definition NewStatsCollector (wall : Z) : StatsCollector :=
  {| allowCount := 0; denyCount := 0; startedAt := wall |}.

Definition IncrementAllow (s : StatsCollector) : StatsCollector :=
  {| allowCount := wrap64 (allowCount s + 1); denyCount := denyCount s;
     startedAt := startedAt s |}.

Definition IncrementDeny (s : StatsCollector) : StatsCollector :=
  {| allowCount := allowCount s; denyCount := wrap64 (denyCount s + 1);
     startedAt := startedAt s |}.

End dashboard.

(** ** The gateway's [main]: wiring, audit wrapper, root handler *)

Module gateway.

Import http.

Definition policyPath : string := "./policies/policies.yaml".

Definition convertPolicyRulesToRBACPolicies (rules : list policy.Rule) : list rbac.Policy :=
  map (fun rule => {| rbac.Method := policy.Method rule;
                      rbac.Path := policy.Path rule;
                      rbac.Roles := policy.Roles rule |}) rules.

(** Everything [main] creates that outlives a request. [rbacPolicies] is
    the value captured by the closure that [rbac.RBACMiddleware] returns;
    [watcherLastMod] is the local of the watcher goroutine. The demo key
    store never changes and is not part of the state. *)
Record Gateway := {
  rbacPolicies : rbac.PolicySet;
  policyEngine : policy.Engine;
  watcherLastMod : Z;
  limiter : ratelimit.Limiter;
  fallbackBucket : ratelimit.bucket;
  stats : dashboard.StatsCollector;
  auditLogger : audit.Logger
}.

(** What the world outside the process contributes while one request is
    served: the limiter's clock reading, [time.Now()] as the fallback
    bucket and the audit logger read it, the [WriteHeader] calls the
    reverse proxy makes when the request reaches it, and whether the write
    to the audit file succeeds. *)
Record Env := {
  clockNow : Z;
  wallNow : Z;
  logTime : time.Time;
  proxyWrites : list Z;
  auditWriteOk : bool
}.

(** [responseRecorder]: [status] starts at 200 and every [WriteHeader]
    overwrites it. *)
Definition recorded (writes : list Z) : Z := fold_left (fun _ code => code) writes StatusOK.

Inductive APIResponse :=
| MethodNotAllowed
| StatsView (allow deny : Z)
| AuditView
| PoliciesView (rules : list policy.Rule)
| StatusView (ip_buckets user_buckets : nat)
| NotFound.

Inductive Response :=
| Redirected (location : string) (code : Z)
| DashboardFile
| DashboardAPI (v : APIResponse)
| Served (writes : list Z).

Section Main.

Variable TrimSpace : string -> string.
Variable yaml_Unmarshal : string -> option policy.PolicyFile.
Variable SplitHostPort : string -> option (string * string).
(** [http.StatusText] *)
Variable StatusText : Z -> string.
Variable Format_RFC3339Nano : time.Time -> string.
Variable sha256_Sum : string -> string.
Variable json_Marshal : audit.Entry -> option string.

Definition withLimiter (g : Gateway) (l : ratelimit.Limiter) (fb : ratelimit.bucket)
  : Gateway :=
  {| rbacPolicies := rbacPolicies g; policyEngine := policyEngine g;
     watcherLastMod := watcherLastMod g; limiter := l; fallbackBucket := fb;
     stats := stats g; auditLogger := auditLogger g |}.

(** [securedChain]: validate, authenticate, authorize, rate-limit, proxy.
    The result is the [WriteHeader] calls made on the response writer. *)
Definition securedChain (g : Gateway) (r : Request) (env : Env) : Gateway * list Z :=
  match middleware.ValidateRequestMiddleware TrimSpace r with
  | Reply status _ => (g, [status])
  | Next r1 =>
      match auth.APIKeyMiddleware auth.NewDemoStore r1 with
      | Reply status _ => (g, [status])
      | Next r2 =>
          match rbac.RBACMiddleware (rbacPolicies g) r2 with
          | Reply status _ => (g, [status])
          | Next r3 =>
              let '(l, fb, d) :=
                ratelimit.Middleware SplitHostPort (limiter g) (fallbackBucket g) r3
                                     (clockNow env) (wallNow env) in
              match d with
              | Reply status _ => (withLimiter g l fb, [status])
              | Next _ => (withLimiter g l fb, proxyWrites env)
              end
          end
      end
  end.

(** [auditMiddleware(securedChain)] *)
Definition finalHandler (g : Gateway) (r : Request) (env : Env) : Gateway * list Z :=
  let '(g1, writes) := securedChain g r env in
  let status := recorded writes in
  let decision := if (400 <=? status)%Z then "DENY" else "ALLOW" in
  let reason := if (400 <=? status)%Z then StatusText status else "all checks passed" in
  let stats1 :=
    if String.eqb decision "ALLOW" then dashboard.IncrementAllow (stats g1)
    else dashboard.IncrementDeny (stats g1) in
  let logger1 :=
    audit.Log Format_RFC3339Nano sha256_Sum json_Marshal (auditLogger g1) (logTime env)
              (Method r) (Path r) decision reason (auditWriteOk env) in
  ({| rbacPolicies := rbacPolicies g1; policyEngine := policyEngine g1;
      watcherLastMod := watcherLastMod g1; limiter := limiter g1;
      fallbackBucket := fallbackBucket g1; stats := stats1; auditLogger := logger1 |},
   writes).

(** [dashboard.Handlers.ServeAPI]; the audit view's contents are not
    modelled. *)
Definition ServeAPI (g : Gateway) (r : Request) : APIResponse :=
  if negb (String.eqb (Method r) "GET") then MethodNotAllowed
  else if String.eqb (Path r) "/api/dashboard/stats"
  then StatsView (dashboard.allowCount (stats g)) (dashboard.denyCount (stats g))
  else if String.eqb (Path r) "/api/dashboard/audit" then AuditView
  else if String.eqb (Path r) "/api/dashboard/policies"
  then PoliciesView (policy.GetPolicies (policyEngine g))
  else if String.eqb (Path r) "/api/dashboard/status"
  then StatusView (fst (ratelimit.Stats (limiter g))) (snd (ratelimit.Stats (limiter g)))
  else NotFound.

Definition rootHandler (g : Gateway) (r : Request) (env : Env) : Gateway * Response :=
  let p := Path r in
  if String.eqb p "/dashboard" then (g, Redirected "/dashboard/" StatusFound)
  else if strings.HasPrefix p "/dashboard/" then (g, DashboardFile)
  else if strings.HasPrefix p "/api/dashboard" then (g, DashboardAPI (ServeAPI g r))
  else let '(g1, writes) := finalHandler g r env in (g1, Served writes).

(** One pass of the watcher goroutine over the file system [fs]. *)
Definition tick (g : Gateway) (fs : os.FileSystem) : Gateway :=
  let '(e, lastMod) :=
    policy.watchIteration yaml_Unmarshal TrimSpace (policyEngine g) (watcherLastMod g)
                          fs policyPath in
  {| rbacPolicies := rbacPolicies g; policyEngine := e; watcherLastMod := lastMod;
     limiter := limiter g; fallbackBucket := fallbackBucket g; stats := stats g;
     auditLogger := auditLogger g |}.

(** The watcher's passes, as far as they go over the file systems [fss]. *)
Definition watch (e : policy.Engine) (lastMod : Z) (fss : list os.FileSystem)
  : policy.Engine * Z :=
  fold_left (fun s fs => policy.watchIteration yaml_Unmarshal TrimSpace (fst s) (snd s)
                                               fs policyPath)
            fss (e, lastMod).

(** [main] up to [ListenAndServe]. The audit log is opened on its
    existing lines; the policy file is loaded from the file system
    [fs]; [Watch] starts the goroutine, which may already have made the
    passes [early] when [main] goes on to take [GetPolicies()] for the RBAC
    middleware. [wall] is [time.Now()] at start. *)
Definition start (auditLines : list string) (fs : os.FileSystem)
           (early : list os.FileSystem) (wall : Z) : Gateway :=
  let loaded := fst (policy.LoadFromFile yaml_Unmarshal TrimSpace policy.NewEngine fs
                                         policyPath) in
  let '(e, lastMod) := watch loaded policy.zeroTime early in
  {| rbacPolicies :=
       {| rbac.Policies := convertPolicyRulesToRBACPolicies (policy.GetPolicies e) |};
     policyEngine := e;
     watcherLastMod := lastMod;
     limiter := ratelimit.NewLimiter;
     fallbackBucket := ratelimit.newFallbackBucket wall;
     stats := dashboard.NewStatsCollector wall;
     auditLogger := audit.NewLogger auditLines |}.

(** What happens once the server listens: passes of the watcher and
    requests, in any order. *)
Inductive Event :=
| Tick (fs : os.FileSystem)
| Serve (r : Request) (env : Env).

Definition step (g : Gateway) (ev : Event) : Gateway :=
  match ev with
  | Tick fs => tick g fs
  | Serve r env => fst (rootHandler g r env)
  end.

Definition run (g : Gateway) (events : list Event) : Gateway := fold_left step events g.

End Main.

End gateway.

(** ** internal/auth: test keys (apikey.go) *)

Module testkeys.

Import auth.

(** [GenerateTestAPIKey]; [randomBytes] is what [rand.Read] stored in the
    32-byte slice, [None] when it returned an error. *)
Definition GenerateTestAPIKey (randomBytes : option string) (id : string)
           (roles : list string) : option (APIKey * string) :=
  match randomBytes with
  | None => None
  | Some bytes =>
      let keyString := hex.EncodeToString bytes in
      Some ({| ID := id; Key := keyString; KeyRoles := roles |}, keyString)
  end.

Definition GenerateTestAPIKeySimple (randomBytes : option string) : option string :=
  match GenerateTestAPIKey randomBytes "test-key-001" ["read"; "write"] with
  | None => None
  | Some (_, keyString) => Some keyString
  end.

End testkeys.

(** ** internal/audit: reading the log back *)

Module auditlog.

Import audit.

(** What a call of [ReadLastEntries] comes to: entries with a nil error,
    nil with the scanner's error, or the run-time panic of the slice
    expression [entries[len(entries)-n:]]. *)
Inductive ReadResult :=
| Entries (entries : list Entry)
| ScanError (err : bufio.Error)
| SliceBoundsOutOfRange.

Section Read.

Variable json_Unmarshal : string -> option Entry.

(** The loop over the lines that the scanner yields: a line that does
    not decode is skipped. *)
Fixpoint decodeLines (lines : list string) : list Entry :=
  match lines with
  | [] => []
  | line :: rest =>
      match json_Unmarshal line with
      | None => decodeLines rest
      | Some e => e :: decodeLines rest
      end
  end.

(** [ReadLastEntries(path, n)] on what [os.Open(path)] finds ([None]: the
    file cannot be opened). *)
Definition ReadLastEntries (f : option bufio.Reader) (n : Z) : ReadResult :=
  match f with
  | None => Entries []
  | Some r =>
      let '(lines, err) := bufio.Scan r in
      let entries := decodeLines lines in
      match err with
      | Some e => ScanError e
      | None =>
          if (Z.of_nat (length entries) <=? n)%Z then Entries entries
          else if (n <? 0)%Z then SliceBoundsOutOfRange
          else Entries (drop (length entries - Z.to_nat n) entries)
      end
  end.

End Read.

End auditlog.

(** ** internal/dashboard: the audit view *)

Module dashboard_audit.

Import audit.

Record entryDTO := {
  dtoTimestamp : string;
  dtoMethod : string;
  dtoPath : string;
  dtoDecision : string;
  dtoReason : string
}.

(** What [serveAudit] writes: the entries with status 200, the error 500
    "failed to read audit log", or nothing when the handler panics. *)
Inductive AuditResponse :=
| AuditEntries (entries : list entryDTO)
| AuditReadFailed
| AuditPanic.

Section ServeAudit.

(** [strconv.Atoi] ([None]: an error) and [t.Format] with the layout
    ["2006-01-02T15:04:05Z07:00"]. *)
Variable Atoi : string -> option Z.
Variable Format_RFC3339 : time.Time -> string.
Variable json_Unmarshal : string -> option Entry.

(** The [limit] that [serveAudit] takes from the query parameter of that
    name, [s] (empty when the request has none). *)
Definition limitOf (s : string) : Z :=
  if negb (String.eqb s "") then
    match Atoi s with
    | Some n => if (0 <? n)%Z && (n <=? 200)%Z then n else 50
    | None => 50
    end
  else 50.

Definition toDTO (e : Entry) : entryDTO :=
  {| dtoTimestamp := Format_RFC3339 (Timestamp e);
     dtoMethod := Method e; dtoPath := Path e;
     dtoDecision := Decision e; dtoReason := Reason e |}.

Definition serveAudit (auditFile : option bufio.Reader) (limitParam : string)
  : AuditResponse :=
  match auditlog.ReadLastEntries json_Unmarshal auditFile (limitOf limitParam) with
  | auditlog.Entries entries => AuditEntries (map toDTO entries)
  | auditlog.ScanError _ => AuditReadFailed
  | auditlog.SliceBoundsOutOfRange => AuditPanic
  end.

End ServeAudit.

End dashboard_audit.

(** * Properties *)

(** ** RBAC evaluator *)

Module rbac_facts.

Import http.

Lemma HasPrefix_spec (s prefix : string) :
  strings.HasPrefix s prefix = true <-> exists rest, s = prefix ++ rest.
Proof.
  revert s. induction prefix as [|c p IH]; intros s; simpl.
  - split; [intros _; exists s; reflexivity | reflexivity].
  - destruct s as [|d s'].
    + split; [discriminate | intros [rest H]; discriminate H].
    + destruct (Ascii.eqb d c) eqn:E.
      * apply Ascii.eqb_eq in E. subst d. rewrite IH.
        split; intros [rest H]; exists rest; [now rewrite H | now inversion H].
      * apply Ascii.eqb_neq in E.
        split; [discriminate | intros [rest H]; inversion H; congruence].
Qed.

Lemma inRoles_In (ur : string) (allowedRoles : list string) :
  rbac.inRoles ur allowedRoles = true <-> In ur allowedRoles.
Proof.
  induction allowedRoles as [|ar rest IH]; simpl.
  - split; [discriminate | tauto].
  - destruct (String.eqb ur ar) eqn:E.
    + apply String.eqb_eq in E. split; auto.
    + apply String.eqb_neq in E. rewrite IH.
      split; [auto | intros [H|H]; [congruence | exact H]].
Qed.

Lemma hasAllowedRole_spec (userRoles allowedRoles : list string) :
  rbac.hasAllowedRole userRoles allowedRoles = true <->
  exists role, In role userRoles /\ In role allowedRoles.
Proof.
  induction userRoles as [|ur rest IH]; simpl.
  - split; [discriminate | intros (role & [] & _)].
  - destruct (rbac.inRoles ur allowedRoles) eqn:E.
    + apply inRoles_In in E. split; [intros _; exists ur; auto | reflexivity].
    + rewrite IH. split.
      * intros (role & H1 & H2). exists role; auto.
      * intros (role & [H1|H1] & H2).
        -- subst role. apply inRoles_In in H2. congruence.
        -- exists role; auto.
Qed.

Lemma evaluate_spec (ps : list rbac.Policy) (r : Request) (identity : auth.Identity) :
  rbac.evaluate ps r identity = true <->
  exists p, In p ps /\ rbac.allows p r identity.
Proof.
  induction ps as [|p rest IH]; simpl.
  - split; [discriminate | intros (p & [] & _)].
  - assert (Hp : rbac.allows p r identity <->
                 (String.eqb (Method r) (rbac.Method p) = true /\
                  strings.HasPrefix (Path r) (rbac.Path p) = true /\
                  rbac.hasAllowedRole (auth.Roles identity) (rbac.Roles p) = true)).
    { unfold rbac.allows. rewrite String.eqb_eq, HasPrefix_spec, hasAllowedRole_spec.
      reflexivity. }
    destruct (String.eqb (Method r) (rbac.Method p)) eqn:Em; simpl;
      [destruct (strings.HasPrefix (Path r) (rbac.Path p)) eqn:Ep; simpl;
        [destruct (rbac.hasAllowedRole (auth.Roles identity) (rbac.Roles p)) eqn:Er|]|].
    1: { split; [intros _; exists p; split; [now left | apply Hp; auto] | reflexivity]. }
    all: rewrite IH; split;
      [ intros (q & Hq & Ha); exists q; split; [now right | exact Ha]
      | intros (q & [Hq|Hq] & Ha);
        [ subst q; apply Hp in Ha; destruct Ha as (H1 & H2 & H3); congruence
        | exists q; split; assumption ] ].
Qed.

(** A rule that matches the request but shares no role with the caller
    does not end the loop: the remaining rules decide. *)
Lemma evaluate_skips_denying_rule (p : rbac.Policy) (rest : list rbac.Policy)
      (r : Request) (identity : auth.Identity) :
  rbac.hasAllowedRole (auth.Roles identity) (rbac.Roles p) = false ->
  rbac.evaluate (p :: rest) r identity = rbac.evaluate rest r identity.
Proof.
  intros H. simpl. rewrite H.
  destruct (String.eqb (Method r) (rbac.Method p)); simpl; [|reflexivity].
  destruct (strings.HasPrefix (Path r) (rbac.Path p)); reflexivity.
Qed.

(** C1. For a request whose path is not "/health": without an identity in
    the context the RBAC middleware answers 403; with one, it calls the
    next handler exactly when some rule of the configured list has the
    request's method, a path that is a prefix of the request's path and a
    role in common with the identity (whatever the rules before it said),
    and answers 403 when there is no such rule. *)
Theorem C1_rbac_decision (policies : rbac.PolicySet) (r : Request) :
  Path r <> "/health" ->
  (auth.FromContext (Ctx r) = None ->
   rbac.RBACMiddleware policies r = Reply 403 "access denied") /\
  (forall identity, auth.FromContext (Ctx r) = Some identity ->
   (rbac.RBACMiddleware policies r = Next r <->
    exists p, In p (rbac.Policies policies) /\ rbac.allows p r identity) /\
   ((~ exists p, In p (rbac.Policies policies) /\ rbac.allows p r identity) ->
    rbac.RBACMiddleware policies r = Reply 403 "access denied")).
Proof.
  intros Hpath. apply String.eqb_neq in Hpath.
  unfold rbac.RBACMiddleware. rewrite Hpath. split.
  - intros ->. reflexivity.
  - intros identity ->.
    destruct (rbac.evaluate (rbac.Policies policies) r identity) eqn:E.
    + apply evaluate_spec in E. split; [tauto | intros H; contradiction].
    + split.
      * split; [discriminate | intros H; apply evaluate_spec in H; congruence].
      * reflexivity.
Qed.

Definition sample_policies : rbac.PolicySet :=
  {| rbac.Policies :=
       [ {| rbac.Method := "GET"; rbac.Path := "/api"; rbac.Roles := ["auditor"] |};
         {| rbac.Method := "GET"; rbac.Path := "/api/public"; rbac.Roles := ["user"; "admin"] |};
         {| rbac.Method := "POST"; rbac.Path := "/api/admin"; rbac.Roles := ["admin"] |} ] |}.

Definition sample_identity : auth.Identity :=
  {| auth.Type_ := auth.AuthAPIKey; auth.Subject := "demo-user";
     auth.Roles := ["user"]; auth.Issuer := ""; auth.Audience := "" |}.

Definition rbac_request (method path : string) (ctx : Context) : Request :=
  {| Method := method; Path := path; HeaderGet := fun _ => "";
     ContentLength := 0; Body := ""; BodyErr := false;
     RemoteAddr := "10.0.0.1:4000"; Ctx := ctx |}.

(** The first rule matches the request and denies; the second allows. *)
Lemma C1_rbac_decision_witness :
  let r := rbac_request "GET" "/api/public/items"
             (auth.WithIdentity [] sample_identity) in
  rbac.RBACMiddleware sample_policies r = Next r /\
  exists p, In p (rbac.Policies sample_policies) /\ rbac.allows p r sample_identity.
Proof.
  intros r.
  assert (Hne : Path r <> "/health") by discriminate.
  destruct (C1_rbac_decision sample_policies r Hne) as [_ H].
  destruct (H sample_identity eq_refl) as [[H1 _] _].
  split; [reflexivity | apply H1; reflexivity].
Defined.

End rbac_facts.

(** ** Policy engine *)

Module policy_facts.

Import policy.

(** An ASCII-only [strings.TrimSpace], used to run the engine on samples. *)
Definition isAsciiSpace (c : ascii) : bool :=
  match c with
  | " "%char | "009"%char | "010"%char | "011"%char | "012"%char | "013"%char => true
  | _ => false
  end.

Fixpoint trimLeft (s : string) : string :=
  match s with
  | EmptyString => EmptyString
  | String c s' => if isAsciiSpace c then trimLeft s' else s
  end.

Fixpoint trimRight (s : string) : string :=
  match s with
  | EmptyString => EmptyString
  | String c s' =>
      match trimRight s' with
      | EmptyString => if isAsciiSpace c then EmptyString else String c EmptyString
      | t => String c t
      end
  end.

Definition asciiTrimSpace (s : string) : string := trimRight (trimLeft s).

(** A stand-in for the YAML parser on three sample documents. *)
Definition sample_rule : Rule :=
  {| Method := "GET"; Path := "/api"; Roles := ["admin"] |}.

Definition sample_yaml_Unmarshal (data : string) : option PolicyFile :=
  if String.eqb data "policies: [{method: GET, path: /api, roles: [admin]}]"
  then Some {| Policies := [sample_rule] |}
  else if String.eqb data "policies: [{method: '', path: api, roles: []}]"
  then Some {| Policies := [ {| Method := ""; Path := "api"; Roles := [] |} ] |}
  else None.

Definition sample_policy_fs (mtime : Z) (data : string) : os.FileSystem :=
  {[ "./policies/policies.yaml" := {| os.ModTime := mtime; os.Data := Some data |} ]}.

Section Engine.

Variable yaml_Unmarshal : string -> option PolicyFile.
Variable TrimSpace : string -> string.

Local Abbreviation Load := (LoadFromFile yaml_Unmarshal TrimSpace).

(** The invariants of a policy rule (specification, section 3), with
    emptiness taken after trimming as the validator does. *)
Definition valid_rule (p : Rule) : Prop :=
  TrimSpace (Method p) <> "" /\
  TrimSpace (Path p) <> "" /\
  (exists rest, Path p = "/" ++ rest) /\
  Roles p <> [] /\
  Forall (fun r => TrimSpace r <> "") (Roles p).

Lemma GetPolicies_invalidate (e : Engine) : GetPolicies (invalidate e) = [].
Proof. reflexivity. Qed.

Lemma validateRoles_spec (i : nat) (roles : list string) :
  validateRoles TrimSpace i roles = None <-> Forall (fun r => TrimSpace r <> "") roles.
Proof.
  induction roles as [|r rest IH]; simpl.
  - split; [constructor | reflexivity].
  - destruct (String.eqb (TrimSpace r) "") eqn:E.
    + apply String.eqb_eq in E. split; [discriminate | intros H; inversion H; congruence].
    + apply String.eqb_neq in E. rewrite IH.
      split; [intros H; constructor; assumption | intros H; inversion H; assumption].
Qed.

Lemma validateRule_spec (i : nat) (p : Rule) :
  validateRule TrimSpace i p = None <-> valid_rule p.
Proof.
  unfold validateRule, valid_rule.
  destruct (String.eqb (TrimSpace (Method p)) "") eqn:Em.
  { apply String.eqb_eq in Em. split; [discriminate | tauto]. }
  apply String.eqb_neq in Em.
  destruct (String.eqb (TrimSpace (Path p)) "") eqn:Ep.
  { apply String.eqb_eq in Ep. split; [discriminate | tauto]. }
  apply String.eqb_neq in Ep.
  destruct (strings.HasPrefix (Path p) "/") eqn:Eh; simpl.
  2: { split; [discriminate|]. intros (_ & _ & Hh & _).
       apply rbac_facts.HasPrefix_spec in Hh. congruence. }
  apply rbac_facts.HasPrefix_spec in Eh.
  destruct (length (Roles p) =? 0)%nat eqn:El.
  { apply Nat.eqb_eq in El. destruct (Roles p); [|discriminate El].
    split; [discriminate | tauto]. }
  apply Nat.eqb_neq in El. rewrite validateRoles_spec.
  split; [|tauto]. intros H. repeat split; auto.
  intros Hn. rewrite Hn in El. apply El. reflexivity.
Qed.

Lemma validateRules_spec (i : nat) (ps : list Rule) :
  validateRules TrimSpace i ps = None <-> Forall valid_rule ps.
Proof.
  revert i. induction ps as [|p rest IH]; intros i; simpl.
  - split; [constructor | reflexivity].
  - destruct (validateRule TrimSpace i p) eqn:E.
    + split; [discriminate|]. intros H. inversion H as [|? ? Hp _]; subst.
      apply (validateRule_spec i) in Hp. congruence.
    + apply validateRule_spec in E. rewrite IH.
      split; [intros H; constructor; assumption | intros H; inversion H; assumption].
Qed.

Lemma validatePolicyFile_spec (pf : PolicyFile) :
  validatePolicyFile TrimSpace pf = None <->
  Policies pf <> [] /\ Forall valid_rule (Policies pf).
Proof.
  unfold validatePolicyFile.
  destruct (length (Policies pf) =? 0)%nat eqn:El.
  - apply Nat.eqb_eq in El. destruct (Policies pf); [|discriminate El].
    split; [discriminate | tauto].
  - apply Nat.eqb_neq in El. rewrite validateRules_spec.
    split; [|tauto]. intros H. split; [|exact H].
    intros Hn. rewrite Hn in El. apply El. reflexivity.
Qed.

(** The three ways a load fails, and the only way it succeeds. *)
Lemma LoadFromFile_succeeds_iff (e : Engine) (fs : os.FileSystem) (path : string) :
  snd (Load e fs path) = None <->
  exists data pf, os.ReadFile fs path = Some data /\ yaml_Unmarshal data = Some pf /\
                  Policies pf <> [] /\ Forall valid_rule (Policies pf).
Proof.
  unfold LoadFromFile.
  destruct (os.ReadFile fs path) as [data|] eqn:Er; simpl.
  2: { split; [discriminate | intros (d & pf & H & _); discriminate]. }
  destruct (yaml_Unmarshal data) as [pf|] eqn:Ey; simpl.
  2: { split; [discriminate | intros (d & pf & H & H' & _); congruence]. }
  destruct (validatePolicyFile TrimSpace pf) as [msg|] eqn:Ev; simpl.
  - split; [discriminate|]. intros (d & pf' & H & H' & Hv).
    apply validatePolicyFile_spec in Hv. congruence.
  - apply validatePolicyFile_spec in Ev. split; [intros _; eauto | reflexivity].
Qed.

(** C2. Whenever [LoadFromFile] returns an error, whatever the engine held
    before, [GetPolicies] is empty right after; when it returns nil, the
    file was read and parsed and [GetPolicies] is exactly the rule sequence
    of the parsed file; in particular a successful load followed by a
    failed one leaves the snapshot empty. *)
Theorem C2_load_fail_closed (e : Engine) (fs : os.FileSystem) (path : string) :
  (snd (Load e fs path) <> None -> GetPolicies (fst (Load e fs path)) = []) /\
  (snd (Load e fs path) = None ->
   exists data pf, os.ReadFile fs path = Some data /\ yaml_Unmarshal data = Some pf /\
                   GetPolicies (fst (Load e fs path)) = Policies pf) /\
  (forall fs' : os.FileSystem,
     snd (Load e fs path) = None ->
     snd (Load (fst (Load e fs path)) fs' path) <> None ->
     GetPolicies (fst (Load (fst (Load e fs path)) fs' path)) = []).
Proof.
  assert (Hfail : forall e0 (fs0 : os.FileSystem),
             snd (Load e0 fs0 path) <> None -> GetPolicies (fst (Load e0 fs0 path)) = []).
  { intros e0 fs0. unfold LoadFromFile.
    destruct (os.ReadFile fs0 path) as [data|]; [|reflexivity].
    destruct (yaml_Unmarshal data) as [pf|]; [|reflexivity].
    destruct (validatePolicyFile TrimSpace pf); [reflexivity|].
    simpl. congruence. }
  split; [apply Hfail|]. split.
  - unfold LoadFromFile.
    destruct (os.ReadFile fs path) as [data|]; [|discriminate].
    destruct (yaml_Unmarshal data) as [pf|] eqn:Ey; [|discriminate].
    destruct (validatePolicyFile TrimSpace pf); [discriminate|].
    intros _. exists data, pf. auto.
  - intros fs' _. apply Hfail.
Qed.

End Engine.

(** A valid file loads; replacing it by an invalid one empties the snapshot. *)
Lemma C2_load_fail_closed_witness :
  let load := LoadFromFile sample_yaml_Unmarshal asciiTrimSpace in
  let path := "./policies/policies.yaml" in
  let good := sample_policy_fs 10 "policies: [{method: GET, path: /api, roles: [admin]}]" in
  let bad := sample_policy_fs 20 "policies: [{method: '', path: api, roles: []}]" in
  GetPolicies (fst (load NewEngine good path)) = [sample_rule] /\
  snd (load (fst (load NewEngine good path)) bad path)
    = Some (ErrValidation "policy[0]: method is required") /\
  GetPolicies (fst (load (fst (load NewEngine good path)) bad path)) = [].
Proof.
  intros load path good bad.
  destruct (C2_load_fail_closed sample_yaml_Unmarshal asciiTrimSpace NewEngine good path)
    as (_ & Hok & Hthen).
  split; [|split].
  - destruct (Hok eq_refl) as (data & pf & Hr & Hu & Hg).
    vm_compute in Hr. injection Hr as <-. vm_compute in Hu. injection Hu as <-.
    exact Hg.
  - vm_compute. reflexivity.
  - apply (Hthen bad); [reflexivity | discriminate].
Defined.

End policy_facts.

(** ** Token bucket *)

Module ratelimit_facts.

Import ratelimit.

(** [min] as the code takes it: the second argument unless it exceeds the first. *)
Definition fmin (a b : float) : float := if (a <? b)%float then a else b.

(** The refilled token count of the specification's step 2,
    [min(capacity, tokens + elapsed * refill-per-second)], in [float64]. *)
Definition refilled (b : bucket) (now : Z) : float :=
  fmin (time.float64 (capacity b))
       (tokens b + time.Seconds (time.Sub now (last b)) * refillPS b)%float.

Example Seconds_1500ms : time.Seconds 1500000000 = 1.5%float.
Proof. vm_compute. reflexivity. Qed.

(** Scenario 6 of the specification: 21 requests at one instant. *)
Example burst_of_21 :
  snd (serve (newBucket IPBucketCapacity IPRefillPerSecond 0) (repeat 0 21))
  = (repeat true 20 ++ [false])%list.
Proof. vm_compute. reflexivity. Qed.



(** *** Accumulated rounding over a long run *)

(** [n] instants [start, start + step, ...]. *)
Fixpoint every (start step : Z) (n : nat) : list Z :=
  match n with
  | O => []
  | S k => start :: every (start + step) step k
  end.

Fixpoint nondecreasing (ts : list Z) : Prop :=
  match ts with
  | t :: (u :: _) as rest => (t <= u)%Z /\ nondecreasing rest
  | _ => True
  end.

(** The token count after one allowed request that comes [d] nanoseconds
    after the previous one; [None] once a request is denied. *)
Definition spaced (inc cap : float) (s : option float) : option float :=
  match s with
  | None => None
  | Some t =>
      let t1 := (t + inc)%float in
      let t2 := if (cap <? t1)%float then cap else t1 in
      if (t2 <? 1)%float then None else Some (t2 - 1)%float
  end.

Lemma serve_app (b : bucket) (l1 l2 : list Z) :
  serve b (l1 ++ l2)%list =
  (fst (serve (fst (serve b l1)) l2),
   (snd (serve b l1) ++ snd (serve (fst (serve b l1)) l2))%list).
Proof.
  revert b. induction l1 as [|t l1 IH]; intros b; simpl.
  - destruct (serve b l2); reflexivity.
  - destruct (allow b t) as [b1 ok]. rewrite IH.
    destruct (serve b1 l1) as [b2 oks]. simpl. reflexivity.
Qed.

Lemma Sub_spaced (t d : Z) :
  (time.minDuration <= d <= time.maxDuration)%Z -> time.Sub (t + d) t = d.
Proof.
  intros [H1 H2]. unfold time.Sub.
  replace (t + d - t)%Z with d by lia.
  destruct (Z.ltb_spec d time.minDuration); [lia|].
  destruct (Z.ltb_spec time.maxDuration d); [lia|]. reflexivity.
Qed.

Lemma iter_spaced_None (inc cap : float) (n : nat) :
  Nat.iter n (spaced inc cap) None = None.
Proof. induction n as [|n IH]; simpl; [|rewrite IH]; reflexivity. Qed.

(** Requests [d] apart, starting [d] after the bucket's last update: when
    the iteration of [spaced] ends on a token count, every one of them was
    allowed and that count is the bucket's. *)
Lemma serve_every (d : Z) (n : nat) (b : bucket) (t' : float) :
  (time.minDuration <= d <= time.maxDuration)%Z ->
  Nat.iter n (spaced (time.Seconds d * refillPS b)%float (time.float64 (capacity b)))
           (Some (tokens b)) = Some t' ->
  serve b (every (last b + d) d n) =
  ({| capacity := capacity b; tokens := t'; refillPS := refillPS b;
      last := (last b + Z.of_nat n * d)%Z |}, repeat true n).
Proof.
  intros Hd. revert b. induction n as [|n IH]; intros b Hit.
  - simpl in *. injection Hit as <-. destruct b; simpl. do 2 f_equal. lia.
  - rewrite Nat.iter_succ_r in Hit.
    cbn [every serve]. unfold allow. rewrite (Sub_spaced _ _ Hd).
    remember (spaced _ _ (Some (tokens b))) as s eqn:Hs.
    unfold spaced in Hs.
    destruct (_ <? 1)%float eqn:E.
    + subst s. rewrite iter_spaced_None in Hit. discriminate.
    + subst s.
      match goal with |- context [serve ?b1 _] => specialize (IH b1) end.
      cbn [capacity tokens refillPS last] in IH. rewrite (IH Hit).
      cbn [repeat]. do 2 f_equal. lia.
Qed.

Lemma allowedWithin_all (lo hi : Z) (ts : list Z) :
  Forall (fun t => lo <= t <= hi)%Z ts ->
  allowedWithin lo hi ts (repeat true (length ts)) = Z.of_nat (length ts).
Proof.
  induction 1 as [|t ts [H1 H2] _ IH]; [reflexivity|].
  cbn [length repeat allowedWithin]. rewrite IH.
  destruct (Z.leb_spec lo t); [|lia]. destruct (Z.leb_spec t hi); [|lia].
  cbn [andb]. lia.
Qed.

Lemma every_length (start step : Z) (n : nat) : length (every start step n) = n.
Proof. revert start. induction n as [|n IH]; intros; simpl; [|rewrite IH]; reflexivity. Qed.

Lemma every_bounds (start step : Z) (n : nat) :
  (0 <= step)%Z ->
  Forall (fun t => start <= t /\ t + step <= start + Z.of_nat n * step)%Z
         (every start step n).
Proof.
  intros Hs. revert start. induction n as [|n IH]; intros start; simpl every; constructor.
  - nia.
  - eapply Forall_impl; [apply (IH (start + step)%Z)|].
    simpl. intros t [H1 H2]. nia.
Qed.

Lemma Forall_repeat_same {A : Type} (P : A -> Prop) (x : A) (n : nat) :
  P x -> Forall P (repeat x n).
Proof. intros H. induction n; simpl; constructor; assumption. Qed.

Lemma nondecreasing_app (l1 l2 : list Z) (m : Z) :
  nondecreasing l1 -> nondecreasing l2 ->
  Forall (fun t => t <= m)%Z l1 -> Forall (fun t => m <= t)%Z l2 ->
  nondecreasing (l1 ++ l2)%list.
Proof.
  intros H1 H2 F1 F2. induction l1 as [|a l1 IH]; [exact H2|].
  inversion F1 as [|? ? Ha F1']; subst.
  destruct l1 as [|a' l1].
  - simpl. destruct l2 as [|c l2]; [exact I|].
    inversion F2; subst. split; [lia | exact H2].
  - destruct H1 as [Haa H1]. simpl. split; [exact Haa|]. apply IH; assumption.
Qed.

Lemma nondecreasing_every (start step : Z) (n : nat) :
  (0 <= step)%Z -> nondecreasing (every start step n).
Proof.
  intros Hs. revert start. induction n as [|n IH]; intros start; [exact I|].
  simpl every. destruct n as [|n]; [exact I|].
  split; [simpl; lia | apply (IH (start + step)%Z)].
Qed.

Lemma nondecreasing_repeat (t : Z) (n : nat) : nondecreasing (repeat t n).
Proof.
  induction n as [|n IH]; [exact I|]. simpl. destruct n; [exact I|].
  split; [simpl; lia | exact IH].
Qed.

(** The run: four requests at instant 0 on a new IP bucket, one
    321,999,998 ns later, six million more 200,000,013 ns apart, then
    seventeen at the instant of the last one. *)
Definition drift_count : positive := 6000000.
Definition drift_gap : Z := 200000013.
Definition drift_first : Z := 321999998.
Definition drift_end : Z := (drift_first + Z.pos drift_count * drift_gap)%Z.

Definition drift_schedule : list Z :=
  (repeat 0%Z 4 ++ [drift_first]
   ++ every (drift_first + drift_gap) drift_gap (Pos.to_nat drift_count)
   ++ repeat drift_end 17)%list.

Definition drift_bucket0 : bucket := newBucket IPBucketCapacity IPRefillPerSecond 0.

(** The bucket after the first five requests. *)
Definition drift_start : bucket :=
  Eval vm_compute in fst (serve drift_bucket0 (repeat 0%Z 4 ++ [drift_first])%list).

Definition drift_step : option float -> option float :=
  spaced (time.Seconds drift_gap * refillPS drift_start)%float
         (time.float64 (capacity drift_start)).

(** The token count after the six million spaced requests. *)
Definition drift_final : float :=
  Eval vm_compute in
    match Pos.iter drift_step (Some (tokens drift_start)) drift_count with
    | Some t => t
    | None => nan
    end.

Definition bucket_with (t : float) (at_ : Z) : bucket :=
  {| capacity := capacity drift_start; tokens := t;
     refillPS := refillPS drift_start; last := at_ |}.

Definition all_true (oks : list bool) : bool := forallb (fun ok => ok) oks.

Lemma drift_final_eval :
  Pos.iter drift_step (Some (tokens drift_start)) drift_count = Some drift_final /\
  all_true (snd (serve (bucket_with drift_final drift_end) (repeat drift_end 17))) = true.
Proof. split; vm_compute; reflexivity. Qed.

Lemma iter_pos_nat {A : Type} (p : positive) (f : A -> A) (x : A) :
  Nat.iter (Pos.to_nat p) f x = Pos.iter f x p.
Proof. symmetry. apply Pos2Nat.inj_iter. Qed.

Lemma serve_length (b : bucket) (ts : list Z) : length (snd (serve b ts)) = length ts.
Proof.
  revert b. induction ts as [|t ts IH]; intros b; simpl; [reflexivity|].
  destruct (allow b t) as [b1 ok]. specialize (IH b1).
  destruct (serve b1 ts) as [b2 oks]. simpl in *. now rewrite IH.
Qed.

Lemma all_true_repeat (oks : list bool) :
  all_true oks = true -> oks = repeat true (length oks).
Proof.
  induction oks as [|ok oks IH]; simpl; [reflexivity|].
  destruct ok; simpl; [|discriminate]. intros H. now rewrite <- IH.
Qed.

(** The run with [n] spaced requests ending at instant [e]. *)
Definition run_schedule (n : nat) (e : Z) : list Z :=
  (repeat 0%Z 4 ++ [drift_first]
   ++ every (drift_first + drift_gap) drift_gap n
   ++ repeat e 17)%list.

Lemma serve_run (n : nat) (e : Z) (t' : float) :
  e = (drift_first + Z.of_nat n * drift_gap)%Z ->
  Nat.iter n drift_step (Some (tokens drift_start)) = Some t' ->
  all_true (snd (serve (bucket_with t' e) (repeat e 17))) = true ->
  snd (serve drift_bucket0 (run_schedule n e)) = repeat true (length (run_schedule n e)).
Proof.
  intros He Hit Htail.
  assert (Hd : (time.minDuration <= drift_gap <= time.maxDuration)%Z)
    by (vm_compute; split; discriminate).
  pose proof (serve_every drift_gap n drift_start t' Hd Hit) as Hmid.
  change (last drift_start) with drift_first in Hmid. rewrite <- He in Hmid.
  assert (Hpre : serve drift_bucket0 (repeat 0%Z 4 ++ [drift_first])%list
                 = (drift_start, repeat true 5)) by (vm_compute; reflexivity).
  unfold run_schedule.
  rewrite (app_assoc (repeat 0%Z 4) [drift_first]).
  rewrite !length_app, every_length.
  rewrite serve_app, Hpre. cbn [fst snd].
  rewrite serve_app, Hmid. cbn [fst snd].
  apply all_true_repeat in Htail. rewrite serve_length in Htail.
  unfold bucket_with in Htail. rewrite Htail.
  rewrite <- !repeat_app. reflexivity.
Qed.

Lemma drift_schedule_eq : drift_schedule = run_schedule (Pos.to_nat drift_count) drift_end.
Proof. reflexivity. Qed.

Lemma drift_schedule_length : Z.of_nat (length drift_schedule) = 6000022%Z.
Proof.
  unfold drift_schedule.
  rewrite !length_app, !repeat_length, every_length. cbn [length].
  rewrite !Nat2Z.inj_add, positive_nat_Z. reflexivity.
Qed.

Lemma drift_all_allowed :
  snd (serve drift_bucket0 drift_schedule) = repeat true (length drift_schedule).
Proof.
  destruct drift_final_eval as [Et Htail].
  rewrite drift_schedule_eq.
  apply (serve_run (Pos.to_nat drift_count) drift_end drift_final).
  - rewrite positive_nat_Z. reflexivity.
  - rewrite iter_pos_nat. exact Et.
  - exact Htail.
Qed.

(** C7, at the run above: the timestamps never decrease, every one of
    the 6,000,022 requests is allowed, all of them fall in the window from
    the first to the last instant, and that is more than
    [capacity + refill-per-second * W] allows for this window, even with
    [W] taken one nanosecond longer (both sides scaled by 10^9, [W] in
    nanoseconds). In exact arithmetic the bucket would hold 17 - 10^-8
    tokens before the last seventeen requests; in [float64] it holds 17. *)
Theorem C7_float_drift_exceeds_window_bound :
  nondecreasing drift_schedule /\
  allowedWithin 0 drift_end drift_schedule
    (snd (serve (newBucket IPBucketCapacity IPRefillPerSecond 0) drift_schedule))
  = 6000022%Z /\
  (IPBucketCapacity * 10 ^ 9 + IPRefillPerSecond * (drift_end - 0 + 1)
   < 6000022 * 10 ^ 9)%Z.
Proof.
  assert (Hend : drift_end = 1200000399999998%Z) by (vm_compute; reflexivity).
  split; [|split].
  - unfold drift_schedule.
    apply (nondecreasing_app _ _ 0%Z).
    { apply nondecreasing_repeat. }
    2: { apply Forall_repeat_same. lia. }
    2: { constructor; [vm_compute; discriminate|].
         apply Forall_app. split.
         - eapply Forall_impl; [apply every_bounds; vm_compute; discriminate|].
           simpl. intros t [H _]. unfold drift_first, drift_gap in H. lia.
         - apply Forall_repeat_same. lia. }
    apply (nondecreasing_app [drift_first] _ drift_first).
    { exact I. }
    2: { constructor; [lia | constructor]. }
    2: { apply Forall_app. split.
         - eapply Forall_impl; [apply every_bounds; vm_compute; discriminate|].
           simpl. intros t [H _]. unfold drift_gap in H. lia.
         - apply Forall_repeat_same. unfold drift_first. lia. }
    apply (nondecreasing_app _ _ drift_end).
    { apply nondecreasing_every. vm_compute; discriminate. }
    { apply nondecreasing_repeat. }
    { eapply Forall_impl; [apply every_bounds; vm_compute; discriminate|].
      simpl. intros t [_ H]. rewrite positive_nat_Z in H.
      unfold drift_end, drift_first, drift_gap, drift_count in *. lia. }
    { apply Forall_repeat_same. lia. }
  - fold drift_bucket0. rewrite drift_all_allowed, allowedWithin_all.
    + apply drift_schedule_length.
    + unfold drift_schedule. repeat (apply Forall_app; split).
      * apply Forall_repeat_same. lia.
      * constructor; [unfold drift_first; lia | constructor].
      * eapply Forall_impl; [apply every_bounds; vm_compute; discriminate|].
        simpl. intros t [H1 H2]. rewrite positive_nat_Z in H2.
        unfold drift_end, drift_first, drift_gap, drift_count in *. lia.
      * apply Forall_repeat_same. lia.
  - vm_compute. reflexivity.
Qed.

End ratelimit_facts.

(** ** Audit log *)

Module audit_facts.

Import audit.

#[local] Arguments String.append !_ _ / : simpl nomatch.

(** *** Byte strings *)

Lemma append_assoc (a b c : string) : (a ++ b) ++ c = a ++ (b ++ c).
Proof. induction a as [|x a IH]; simpl; [|rewrite IH]; reflexivity. Qed.

Lemma length_append (a b : string) :
  String.length (a ++ b) = (String.length a + String.length b)%nat.
Proof. induction a as [|x a IH]; simpl; [|rewrite IH]; reflexivity. Qed.

Lemma append_inv_head (a x y : string) : a ++ x = a ++ y -> x = y.
Proof. induction a as [|c a IH]; simpl; [auto | intros H; inversion H; auto]. Qed.

Lemma append_inv_tail (x y b : string) : x ++ b = y ++ b -> x = y.
Proof.
  revert y. induction x as [|c x IH]; intros y H.
  - destruct y as [|d y]; [reflexivity|].
    apply (f_equal String.length) in H. simpl in H. rewrite length_append in H. lia.
  - destruct y as [|d y].
    + apply (f_equal String.length) in H. simpl in H. rewrite length_append in H. lia.
    + simpl in H. inversion H. f_equal. auto.
Qed.

(** Changing the middle of a concatenation changes the concatenation. *)
Lemma append_middle_inj (a x y b : string) : a ++ x ++ b = a ++ y ++ b -> x = y.
Proof. intros H. apply append_inv_head in H. now apply append_inv_tail in H. Qed.

(** *** Hex encoding is injective *)

Definition undigit (c : ascii) : N :=
  match c with
  | "0" => 0 | "1" => 1 | "2" => 2 | "3" => 3 | "4" => 4 | "5" => 5 | "6" => 6
  | "7" => 7 | "8" => 8 | "9" => 9 | "a" => 10 | "b" => 11 | "c" => 12
  | "d" => 13 | "e" => 14 | _ => 15
  end%char%N.

Lemma undigit_digit (n : N) : (n < 16)%N -> undigit (hex.digit n) = n.
Proof.
  intros H. destruct n as [|p]; [reflexivity|].
  do 4 (destruct p as [p|p|]; try reflexivity);
    exfalso; revert H; clear; destruct p; intros H; discriminate H.
Qed.

Lemma N_of_ascii_lt (c : ascii) : (N_of_ascii c < 256)%N.
Proof. destruct c as [[] [] [] [] [] [] [] []]; reflexivity. Qed.

Lemma EncodeToString_inj (a b : string) :
  hex.EncodeToString a = hex.EncodeToString b -> a = b.
Proof.
  revert b. induction a as [|c a IH]; intros [|d b] H; simpl in H;
    try reflexivity; try discriminate.
  injection H as Hhi Hlo Hrest.
  pose proof (N_of_ascii_lt c) as Hc. pose proof (N_of_ascii_lt d) as Hd.
  apply (f_equal undigit) in Hhi, Hlo.
  rewrite !undigit_digit in Hhi by (apply N.Div0.div_lt_upper_bound; lia).
  rewrite !undigit_digit in Hlo by (apply N.mod_lt; lia).
  assert (Hcd : N_of_ascii c = N_of_ascii d).
  { rewrite (N.div_mod (N_of_ascii c) 16), (N.div_mod (N_of_ascii d) 16) by lia.
    rewrite Hhi, Hlo. reflexivity. }
  f_equal; [|auto].
  rewrite <- (ascii_N_embedding c), <- (ascii_N_embedding d). now rewrite Hcd.
Qed.

(** *** Sessions of a logger *)

(** One call of [Log]: its arguments, the clock reading and whether the
    write to the file succeeds. *)
Record Call := {
  at_ : time.Time;
  method : string;
  path : string;
  decision : string;
  reason : string;
  writeOk : bool
}.

Section Chain.

Variable Format_RFC3339Nano : time.Time -> string.
Variable sha256_Sum : string -> string.
Variable json_Marshal : Entry -> option string.
Variable json_Unmarshal : string -> option Entry.

Local Abbreviation hashed := (audit.hashed Format_RFC3339Nano).
Local Abbreviation computeHash := (audit.computeHash Format_RFC3339Nano sha256_Sum).
Local Abbreviation newEntry := (audit.newEntry Format_RFC3339Nano sha256_Sum).
Local Abbreviation Log := (audit.Log Format_RFC3339Nano sha256_Sum json_Marshal).
Local Abbreviation verifyLines :=
  (audit.verifyLines Format_RFC3339Nano sha256_Sum json_Unmarshal).
Local Abbreviation VerifyLogIntegrity :=
  (audit.VerifyLogIntegrity Format_RFC3339Nano sha256_Sum json_Unmarshal).

Definition entryOf (l : Logger) (c : Call) : Entry :=
  newEntry l (at_ c) (method c) (path c) (decision c) (reason c).

Definition logCall (l : Logger) (c : Call) : Logger :=
  Log l (at_ c) (method c) (path c) (decision c) (reason c) (writeOk c).

(** Whether the call appends its entry to the file. *)
Definition written (l : Logger) (c : Call) : bool :=
  match json_Marshal (entryOf l c) with
  | Some _ => writeOk c
  | None => false
  end.

(** The entries a logger builds over a sequence of calls, each with
    whether it was written. *)
Fixpoint session (l : Logger) (calls : list Call) : list (Entry * bool) :=
  match calls with
  | [] => []
  | c :: rest => (entryOf l c, written l c) :: session (logCall l c) rest
  end.

Definition logAll (l : Logger) (calls : list Call) : Logger :=
  fold_left logCall calls l.

(** The hash of the last written entry of a trace, [h] when there is none. *)
Fixpoint lastWritten (h : string) (tr : list (Entry * bool)) : string :=
  match tr with
  | [] => h
  | (e, w) :: rest => lastWritten (if w then Hash e else h) rest
  end.

Lemma lastHash_logCall (l : Logger) (c : Call) :
  lastHash (logCall l c) = if written l c then Hash (entryOf l c) else lastHash l.
Proof.
  unfold logCall, written, audit.Log, entryOf.
  destruct (json_Marshal _); [|reflexivity]. destruct (writeOk c); reflexivity.
Qed.

(** Within one logger, every entry carries the SHA-256 of its fields in
    the order timestamp, method, path, decision, reason, prev_hash, with
    the timestamp in UTC, and its prev_hash is the hash of the last entry
    this logger wrote before it (the logger's initial [lastHash] when
    there is none). *)
Lemma session_chain (calls : list Call) (l : Logger) (i : nat) (e : Entry) (w : bool) :
  session l calls !! i = Some (e, w) ->
  Hash e = hex.EncodeToString
             (sha256_Sum (Format_RFC3339Nano (Timestamp e) ++ Method e ++ Path e
                          ++ Decision e ++ Reason e ++ PrevHash e)) /\
  time.loc (Timestamp e) = time.LocUTC /\
  PrevHash e = lastWritten (lastHash l) (take i (session l calls)).
Proof.
  revert l i. induction calls as [|c rest IH]; intros l i H; [discriminate|].
  destruct i as [|i]; simpl in H.
  - injection H as <- <-. repeat split.
  - apply IH in H. destruct H as (H1 & H2 & H3). repeat split; [exact H1 | exact H2 |].
    rewrite H3. simpl. rewrite lastHash_logCall. reflexivity.
Qed.

(** *** The verifier *)

Definition decodes (line : string) (e : Entry) : Prop := json_Unmarshal line = Some e.

(** The scanner returns the line of the file, and what it returns
    decodes to [e]. *)
Definition scanned (line : string) (e : Entry) : Prop :=
  bufio.tooLong line = false /\ decodes (bufio.dropCR line) e.

(** A sequence of entries that the scan loop accepts from [prev] on. *)
Fixpoint chained (prev : string) (es : list Entry) : Prop :=
  match es with
  | [] => True
  | e :: rest => PrevHash e = prev /\ Hash e = computeHash e /\ chained (Hash e) rest
  end.

(** The loop's [prevHash] after the entries [es]. *)
Definition lastOf (prev : string) (es : list Entry) : string :=
  fold_left (fun _ e => Hash e) es prev.

(** The hash of the entry before position [p], empty at the start. *)
Definition hashBefore (es : list Entry) (p : nat) : string :=
  match p with
  | O => ""
  | S q => match es !! q with Some e => Hash e | None => "" end
  end.

Lemma verifyLines_app (prev : string) (lines rest : list string) (es : list Entry) :
  Forall2 decodes lines es -> chained prev es ->
  verifyLines prev (lines ++ rest)%list = verifyLines (lastOf prev es) rest.
Proof.
  intros HF. revert prev. induction HF as [|line e lines es Hd _ IH]; intros prev Hc.
  - reflexivity.
  - destruct Hc as (Hp & Hh & Hc). simpl. rewrite Hd.
    apply String.eqb_eq in Hp. apply String.eqb_eq in Hh. rewrite Hp, Hh. simpl.
    apply IH, Hc.
Qed.

Lemma verifyLines_chained (prev : string) (lines : list string) (es : list Entry) :
  Forall2 decodes lines es -> chained prev es -> verifyLines prev lines = None.
Proof.
  intros HF Hc. rewrite <- (app_nil_r lines). rewrite (verifyLines_app _ _ _ _ HF Hc).
  reflexivity.
Qed.

Lemma verifyLines_bad_head (prev line : string) (rest : list string) :
  (forall e, decodes line e -> PrevHash e <> prev \/ Hash e <> computeHash e) ->
  verifyLines prev (line :: rest) <> None.
Proof.
  intros H. simpl. destruct (json_Unmarshal line) as [e|] eqn:Hd; [|discriminate].
  destruct (H e Hd) as [Hne|Hne]; apply String.eqb_neq in Hne; rewrite Hne; simpl.
  - discriminate.
  - destruct (negb _); discriminate.
Qed.

Lemma chained_take (prev : string) (es : list Entry) (k : nat) :
  chained prev es -> chained prev (take k es).
Proof.
  revert prev k. induction es as [|e es IH]; intros prev [|k] H; simpl; auto.
  destruct H as (H1 & H2 & H3). auto.
Qed.

Lemma chained_lookup (prev : string) (es : list Entry) (k : nat) (e : Entry) :
  chained prev es -> es !! k = Some e ->
  PrevHash e = lastOf prev (take k es) /\ Hash e = computeHash e.
Proof.
  revert prev k. induction es as [|e0 es IH]; intros prev k Hc Hk; [discriminate|].
  destruct Hc as (H1 & H2 & H3). destruct k as [|k]; simpl in Hk.
  - injection Hk as <-. auto.
  - apply (IH _ _ H3 Hk).
Qed.

Lemma lastOf_lookup (prev : string) (es : list Entry) (k : nat) :
  (k <= length es)%nat ->
  (prev :: map Hash es) !! k = Some (lastOf prev (take k es)).
Proof.
  revert prev k. induction es as [|e es IH]; intros prev [|k] Hk; simpl in *;
    try reflexivity; try lia.
  apply IH. lia.
Qed.

Lemma lastOf_hashBefore (es : list Entry) (p : nat) :
  (p <= length es)%nat -> lastOf "" (take p es) = hashBefore es p.
Proof.
  intros Hp. pose proof (lastOf_lookup "" es p Hp) as H.
  destruct p as [|q]; [reflexivity|]. simpl in H. unfold hashBefore.
  rewrite list_lookup_fmap in H. destruct (es !! q); simpl in H; [congruence | discriminate].
Qed.

(** *** Files written by healthy sessions *)

(** Every call marshals its entry to a line of less than 64 KiB that
    decodes back to it, and its write succeeds. *)
Fixpoint healthy (l : Logger) (calls : list Call) : Prop :=
  match calls with
  | [] => True
  | c :: rest =>
      (exists data, json_Marshal (entryOf l c) = Some data /\ scanned data (entryOf l c)) /\
      writeOk c = true /\
      healthy (logCall l c) rest
  end.

Definition entriesOf (l : Logger) (calls : list Call) : list Entry :=
  map fst (session l calls).

Lemma healthy_file (calls : list Call) (l : Logger) :
  healthy l calls ->
  exists lines, file (logAll l calls) = (file l ++ lines)%list /\
                Forall2 scanned lines (entriesOf l calls) /\
                chained (lastHash l) (entriesOf l calls).
Proof.
  revert l. induction calls as [|c rest IH]; intros l H.
  - exists []. simpl. rewrite app_nil_r. repeat split. constructor.
  - destruct H as ((data & Hm & Hd) & Hw & Hrest).
    destruct (IH _ Hrest) as (lines & Hf & HF & Hc).
    assert (Hl : logCall l c = {| file := file l ++ [data]; lastHash := Hash (entryOf l c) |}).
    { unfold logCall, audit.Log. fold (entryOf l c). rewrite Hm, Hw. reflexivity. }
    assert (Hfile : file (logCall l c) = (file l ++ [data])%list) by now rewrite Hl.
    assert (Hlast : lastHash (logCall l c) = Hash (entryOf l c)) by now rewrite Hl.
    exists (data :: lines). unfold logAll in *. simpl fold_left.
    rewrite Hf, Hfile, <- app_assoc. split; [reflexivity|]. split.
    + constructor; assumption.
    + rewrite Hlast in Hc. unfold entriesOf in *. cbn [session map fst chained].
      split; [reflexivity|]. split; [reflexivity | exact Hc].
Qed.

(** *** From the lines of a file to what the scanner yields *)

Definition tokens (lines : list string) : list string := bufio.dropCR <$> lines.

Definition short (line : string) : Prop := bufio.tooLong line = false.

Lemma scanLines_short (lines : list string) (readErr : bool) :
  Forall short lines ->
  bufio.scanLines lines readErr
  = (tokens lines, if readErr then Some bufio.ErrRead else None).
Proof.
  induction 1 as [|line lines Hl _ IH]; [reflexivity|].
  cbn [bufio.scanLines]. rewrite Hl, IH. reflexivity.
Qed.

Lemma scanned_tokens (lines : list string) (es : list Entry) :
  Forall2 scanned lines es -> Forall short lines /\ Forall2 decodes (tokens lines) es.
Proof.
  induction 1 as [|line e lines es [Hs Hd] _ [IH1 IH2]]; split; constructor; assumption.
Qed.

(** The verifier on the lines [lines], the loop entered with [prev]. *)
Definition verifyFrom (prev : string) (lines : list string) (readErr : bool)
  : option VerifyError :=
  let '(toks, err) := bufio.scanLines lines readErr in
  match verifyLines prev toks with
  | Some e => Some e
  | None => option_map ErrScanner err
  end.

Lemma VerifyLogIntegrity_verifyFrom (r : bufio.Reader) :
  VerifyLogIntegrity (Some r) = verifyFrom "" (bufio.rawLines r) (bufio.readErr r).
Proof. reflexivity. Qed.

Lemma verifyFrom_short (prev : string) (lines : list string) :
  Forall short lines -> verifyFrom prev lines false = verifyLines prev (tokens lines).
Proof.
  intros H. unfold verifyFrom. rewrite (scanLines_short _ _ H).
  destruct (verifyLines prev (tokens lines)); reflexivity.
Qed.

(** What the loop refuses on the tokens of all the lines, the verifier
    refuses, however far the scanner gets. *)
Lemma verifyFrom_rejects (lines : list string) (readErr : bool) (prev : string) :
  verifyLines prev (tokens lines) <> None -> verifyFrom prev lines readErr <> None.
Proof.
  revert prev. induction lines as [|line lines IH]; intros prev H.
  - contradiction H. reflexivity.
  - unfold verifyFrom. cbn [bufio.scanLines].
    destruct (bufio.tooLong line); [discriminate|].
    change (tokens (line :: lines)) with (bufio.dropCR line :: tokens lines) in H.
    cbn [audit.verifyLines] in H.
    destruct (json_Unmarshal (bufio.dropCR line)) as [e|] eqn:Ed.
    2: { destruct (bufio.scanLines lines readErr) as [toks err].
         cbn [audit.verifyLines]. rewrite Ed. discriminate. }
    destruct (negb (String.eqb (PrevHash e) prev)) eqn:E1.
    { destruct (bufio.scanLines lines readErr) as [toks err].
      cbn [audit.verifyLines]. rewrite Ed, E1. discriminate. }
    destruct (negb (String.eqb (Hash e) (computeHash e))) eqn:E2.
    { destruct (bufio.scanLines lines readErr) as [toks err].
      cbn [audit.verifyLines]. rewrite Ed, E1, E2. discriminate. }
    specialize (IH (Hash e) H). unfold verifyFrom in IH.
    destruct (bufio.scanLines lines readErr) as [toks err].
    cbn [audit.verifyLines]. rewrite Ed, E1, E2. exact IH.
Qed.

(** The scanner gives up at the first line of 64 KiB or more, and at a
    failed read: when the loop found nothing wrong until then, the
    verifier returns the scanner's error. *)
Lemma verifyFrom_scanner_error (pre : list string) (es : list Entry) (prev : string)
      (rest : list string) (readErr : bool) :
  Forall2 scanned pre es -> chained prev es ->
  (match rest with
   | [] => readErr = true
   | x :: _ => bufio.tooLong x = true
   end) ->
  verifyFrom prev (pre ++ rest)%list readErr
  = Some (ErrScanner (match rest with [] => bufio.ErrRead | _ => bufio.ErrTooLong end)).
Proof.
  intros HF. revert prev. induction HF as [|line e pre es [Hs Hd] _ IH]; intros prev Hc Hrest.
  - unfold verifyFrom. destruct rest as [|x rest]; cbn [app bufio.scanLines].
    + rewrite Hrest. reflexivity.
    + rewrite Hrest. reflexivity.
  - destruct Hc as (Hp & Hh & Hc). specialize (IH _ Hc Hrest).
    unfold verifyFrom in *. cbn [app bufio.scanLines]. rewrite Hs.
    destruct (bufio.scanLines (pre ++ rest) readErr) as [toks err].
    cbn [audit.verifyLines]. unfold decodes in Hd. rewrite Hd.
    apply String.eqb_eq in Hp. apply String.eqb_eq in Hh. rewrite Hp, Hh. exact IH.
Qed.

(** *** Tampering *)

Inductive Field :=
| FTimestamp | FMethod | FPath | FDecision | FReason | FPrevHash | FHash.

(** [e'] is [e] with the one field [f] changed; a timestamp counts as
    changed when its rendering is. *)
Definition changed (f : Field) (e e' : Entry) : Prop :=
  match f with
  | FTimestamp => Format_RFC3339Nano (Timestamp e') <> Format_RFC3339Nano (Timestamp e)
  | _ => Timestamp e' = Timestamp e
  end /\
  match f with FMethod => Method e' <> Method e | _ => Method e' = Method e end /\
  match f with FPath => Path e' <> Path e | _ => Path e' = Path e end /\
  match f with FDecision => Decision e' <> Decision e | _ => Decision e' = Decision e end /\
  match f with FReason => Reason e' <> Reason e | _ => Reason e' = Reason e end /\
  match f with FPrevHash => PrevHash e' <> PrevHash e | _ => PrevHash e' = PrevHash e end /\
  match f with FHash => Hash e' <> Hash e | _ => Hash e' = Hash e end.

Definition collision_free : Prop :=
  forall x y : string, sha256_Sum x = sha256_Sum y -> x = y.

Lemma changed_breaks_entry (f : Field) (e e' : Entry) :
  collision_free -> Hash e = computeHash e -> changed f e e' ->
  PrevHash e' <> PrevHash e \/ Hash e' <> computeHash e'.
Proof.
  intros Hcf Hh Hch.
  assert (Hinj : forall e1 e2, computeHash e1 = computeHash e2 -> hashed e1 = hashed e2).
  { intros e1 e2 H. apply Hcf, EncodeToString_inj, H. }
  destruct e as [t m p d r v h], e' as [t' m' p' d' r' v' h'].
  unfold audit.computeHash in Hh. simpl in Hh.
  destruct f; destruct Hch as (H1 & H2 & H3 & H4 & H5 & H6 & H7); simpl in *; subst;
    try (left; assumption); right; intros Heq.
  - rewrite Heq in Hh. apply Hinj in Hh. unfold audit.hashed in Hh. simpl in Hh.
    apply append_inv_tail in Hh. congruence.
  - rewrite Heq in Hh. apply Hinj in Hh. unfold audit.hashed in Hh. simpl in Hh.
    apply append_inv_head, append_inv_tail in Hh. congruence.
  - rewrite Heq in Hh. apply Hinj in Hh. unfold audit.hashed in Hh. simpl in Hh.
    do 2 apply append_inv_head in Hh. apply append_inv_tail in Hh. congruence.
  - rewrite Heq in Hh. apply Hinj in Hh. unfold audit.hashed in Hh. simpl in Hh.
    do 3 apply append_inv_head in Hh. apply append_inv_tail in Hh. congruence.
  - rewrite Heq in Hh. apply Hinj in Hh. unfold audit.hashed in Hh. simpl in Hh.
    do 4 apply append_inv_head in Hh. apply append_inv_tail in Hh. congruence.
  - apply H7. etransitivity; [exact Heq|]. symmetry. exact Hh.
Qed.

Lemma verify_prefix_then_bad (lines : list string) (es : list Entry) (k : nat)
      (line : string) (rest : list string) :
  Forall2 decodes lines es -> chained "" es ->
  (forall e, decodes line e ->
             PrevHash e <> lastOf "" (take k es) \/ Hash e <> computeHash e) ->
  verifyLines "" (take k lines ++ line :: rest)%list <> None.
Proof.
  intros HF Hc Hbad.
  rewrite (verifyLines_app _ _ _ (take k es)).
  - apply verifyLines_bad_head, Hbad.
  - apply Forall2_take, HF.
  - apply chained_take, Hc.
Qed.

Lemma verify_changed_field (lines : list string) (es : list Entry) (k : nat)
      (f : Field) (e e' : Entry) (line' : string) :
  collision_free -> Forall2 decodes lines es -> chained "" es ->
  es !! k = Some e -> changed f e e' -> decodes line' e' ->
  verifyLines "" (<[k := line']> lines) <> None.
Proof.
  intros Hcf HF Hc Hk Hch Hd.
  assert (Hlen : (k < length lines)%nat).
  { rewrite (Forall2_length _ _ _ HF). apply lookup_lt_Some in Hk. exact Hk. }
  rewrite insert_take_drop by exact Hlen.
  apply (verify_prefix_then_bad _ es); [exact HF | exact Hc |].
  intros e'' Hd'. unfold decodes in *. assert (e'' = e') by congruence. subst e''.
  destruct (chained_lookup _ _ _ _ Hc Hk) as [Hp Hh]. rewrite <- Hp.
  apply (changed_breaks_entry f e e' Hcf Hh Hch).
Qed.

Lemma verify_swapped (lines : list string) (es : list Entry) (i j : nat) (li lj : string) :
  Forall2 decodes lines es -> chained "" es -> NoDup ("" :: map Hash es) ->
  (i < j)%nat -> lines !! i = Some li -> lines !! j = Some lj ->
  verifyLines "" (<[i := lj]> (<[j := li]> lines)) <> None.
Proof.
  intros HF Hc Hnd Hij Hi Hj.
  pose proof (lookup_lt_Some _ _ _ Hj) as Hjlen.
  rewrite insert_take_drop by (rewrite length_insert; lia).
  rewrite take_insert_ge by lia.
  apply (verify_prefix_then_bad _ es); [exact HF | exact Hc |].
  intros e Hd.
  destruct (Forall2_lookup_l _ _ _ _ _ HF Hj) as (ej & Hej & Hdj).
  unfold decodes in *. assert (e = ej) by congruence. subst e.
  destruct (chained_lookup _ _ _ _ Hc Hej) as [Hp _]. left. rewrite Hp. intros Heq.
  assert (Hjes : (j <= length es)%nat) by (apply lookup_lt_Some in Hej; lia).
  pose proof (lastOf_lookup "" es j Hjes) as Lj.
  pose proof (lastOf_lookup "" es i ltac:(lia)) as Li.
  rewrite Heq in Lj. pose proof (NoDup_lookup _ _ _ _ Hnd Li Lj). lia.
Qed.

Lemma verify_inserted (lines : list string) (es : list Entry) (p : nat) (x : string) :
  Forall2 decodes lines es -> chained "" es -> (p <= length lines)%nat ->
  ~ (exists e, decodes x e /\ PrevHash e = hashBefore es p /\ Hash e = computeHash e) ->
  verifyLines "" (take p lines ++ x :: drop p lines)%list <> None.
Proof.
  intros HF Hc Hp Hno.
  apply (verify_prefix_then_bad _ es); [exact HF | exact Hc |].
  intros e Hd. rewrite lastOf_hashBefore by (rewrite <- (Forall2_length _ _ _ HF); exact Hp).
  destruct (decide (PrevHash e = hashBefore es p)) as [H1|H1]; [|left; exact H1].
  destruct (decide (Hash e = computeHash e)) as [H2|H2]; [|right; exact H2].
  exfalso. apply Hno. exists e. auto.
Qed.

(** *** The verifier on the lines of a file *)

Lemma verify_healthy (lines : list string) (es : list Entry) :
  Forall2 scanned lines es -> chained "" es ->
  VerifyLogIntegrity (readable lines) = None.
Proof.
  intros HF Hc. destruct (scanned_tokens _ _ HF) as [Hs Hd].
  unfold readable. rewrite VerifyLogIntegrity_verifyFrom. cbn [bufio.rawLines bufio.readErr].
  rewrite (verifyFrom_short _ _ Hs). apply (verifyLines_chained _ _ _ Hd Hc).
Qed.

Lemma verify_rejects (lines : list string) :
  verifyLines "" (tokens lines) <> None -> VerifyLogIntegrity (readable lines) <> None.
Proof.
  intros H. unfold readable. rewrite VerifyLogIntegrity_verifyFrom.
  apply verifyFrom_rejects, H.
Qed.

(** A line appended to an accepted file is accepted as soon as the
    scanner returns it and it decodes to an entry chained to the last hash
    with the hash of its own fields: nothing in it needs a secret. *)
Lemma verify_forged_append (lines : list string) (es : list Entry) (x : string) (e : Entry) :
  Forall2 scanned lines es -> chained "" es ->
  scanned x e -> PrevHash e = lastOf "" es -> Hash e = computeHash e ->
  VerifyLogIntegrity (readable (lines ++ [x])%list) = None.
Proof.
  intros HF Hc Hx Hp Hh.
  apply (verify_healthy _ (es ++ [e])%list).
  - apply Forall2_app; [exact HF | constructor; [exact Hx | constructor]].
  - clear HF. revert Hc Hp. generalize "" as prev.
    induction es as [|e0 es IH]; intros prev Hc Hp; simpl in *.
    + auto.
    + destruct Hc as (H1 & H2 & H3). auto.
Qed.

(** C5, amended. A file written from empty by one logger, every call of
    which marshalled its entry to a line of less than 64 KiB that decodes
    back to it and wrote it, verifies when it is read without error. Such
    a file no longer verifies after any one field of any entry is changed,
    SHA-256 being taken as collision-free; nor after any two entries are
    swapped, the hashes of its entries being pairwise distinct and not
    empty; nor after a line is inserted anywhere, unless the scanner
    returns that line and it decodes to an entry whose prev_hash is the
    hash of the entry before it and whose hash is that of its own fields. *)
Theorem C5_verifier_on_session_log (calls : list Call) :
  healthy (NewLogger []) calls ->
  VerifyLogIntegrity (readable (file (logAll (NewLogger []) calls))) = None /\
  (collision_free ->
   forall (k : nat) (f : Field) (e e' : Entry) (line' : string),
     entriesOf (NewLogger []) calls !! k = Some e -> changed f e e' ->
     decodes (bufio.dropCR line') e' ->
     VerifyLogIntegrity
       (readable (<[k := line']> (file (logAll (NewLogger []) calls)))) <> None) /\
  (NoDup ("" :: map Hash (entriesOf (NewLogger []) calls)) ->
   forall (i j : nat) (li lj : string),
     (i < j)%nat ->
     file (logAll (NewLogger []) calls) !! i = Some li ->
     file (logAll (NewLogger []) calls) !! j = Some lj ->
     VerifyLogIntegrity
       (readable (<[i := lj]> (<[j := li]> (file (logAll (NewLogger []) calls))))) <> None) /\
  (forall (p : nat) (x : string),
     (p <= length (file (logAll (NewLogger []) calls)))%nat ->
     ~ (exists e, scanned x e /\
                  PrevHash e = hashBefore (entriesOf (NewLogger []) calls) p /\
                  Hash e = computeHash e) ->
     VerifyLogIntegrity
       (readable (take p (file (logAll (NewLogger []) calls)) ++ x
                  :: drop p (file (logAll (NewLogger []) calls)))%list) <> None).
Proof.
  intros Hh.
  destruct (healthy_file calls (NewLogger []) Hh) as (lines & Hf & HF & Hc).
  simpl in Hf, Hc. rewrite Hf.
  destruct (scanned_tokens _ _ HF) as [Hs Hd].
  split; [|split; [|split]].
  - apply (verify_healthy _ _ HF Hc).
  - intros Hcf k f e e' line' Hk Hch Hd'. apply verify_rejects.
    unfold tokens. rewrite list_fmap_insert.
    apply (verify_changed_field _ _ k f e e' _ Hcf Hd Hc Hk Hch Hd').
  - intros Hnd i j li lj Hij Hi Hj. apply verify_rejects.
    unfold tokens. rewrite !list_fmap_insert.
    apply (verify_swapped _ _ i j (bufio.dropCR li) (bufio.dropCR lj) Hd Hc Hnd Hij).
    + fold (tokens lines). unfold tokens. rewrite list_lookup_fmap, Hi. reflexivity.
    + fold (tokens lines). unfold tokens. rewrite list_lookup_fmap, Hj. reflexivity.
  - intros p x Hp Hno. destruct (bufio.tooLong x) eqn:Ex.
    + unfold readable. rewrite VerifyLogIntegrity_verifyFrom.
      cbn [bufio.rawLines bufio.readErr].
      rewrite (verifyFrom_scanner_error (take p lines) (take p (entriesOf (NewLogger []) calls))
                 "" (x :: drop p lines) false).
      * discriminate.
      * apply Forall2_take, HF.
      * apply chained_take, Hc.
      * exact Ex.
    + apply verify_rejects. unfold tokens. rewrite fmap_app, fmap_take, fmap_cons, fmap_drop.
      apply (verify_inserted _ _ _ _ Hd Hc).
      * apply (Nat.le_trans _ _ _ Hp).
        rewrite (Forall2_length _ _ _ HF), <- (Forall2_length _ _ _ Hd). apply Nat.le_refl.
      * intros (e & He & Hpe & Hhe). apply Hno. exists e. repeat split; assumption.
Qed.

(** C4, when the gateway restarts on its log. A first logger writes one
    entry to a new file and a second logger is opened on that file. The
    entry the second logger builds has an empty prev_hash, not the hash of
    the entry that precedes it in the file, and once it is written the
    verifier rejects the file: for a broken chain, when the scanner
    returns both lines. *)
Theorem C4_restart_resets_chain (c1 c2 : Call) (data1 data2 : string) :
  let first := NewLogger [] in
  let second := NewLogger (file (logCall first c1)) in
  json_Marshal (entryOf first c1) = Some data1 -> writeOk c1 = true ->
  json_Marshal (entryOf second c2) = Some data2 -> writeOk c2 = true ->
  decodes (bufio.dropCR data1) (entryOf first c1) ->
  decodes (bufio.dropCR data2) (entryOf second c2) ->
  sha256_Sum (hashed (entryOf first c1)) <> "" ->
  file second = [data1] /\
  Hash (entryOf first c1) = computeHash (entryOf first c1) /\
  PrevHash (entryOf second c2) = "" /\
  PrevHash (entryOf second c2) <> Hash (entryOf first c1) /\
  file (logCall second c2) = [data1; data2] /\
  VerifyLogIntegrity (readable (file (logCall second c2))) <> None /\
  (bufio.tooLong data1 = false -> bufio.tooLong data2 = false ->
   VerifyLogIntegrity (readable (file (logCall second c2))) = Some ErrPrevHash).
Proof.
  intros first second Hm1 Hw1 Hm2 Hw2 Hd1 Hd2 Hne.
  assert (Hfile : file second = [data1]).
  { unfold second, logCall, audit.Log. fold (entryOf first c1). rewrite Hm1, Hw1. reflexivity. }
  assert (Hprev : PrevHash (entryOf second c2) = "") by reflexivity.
  clearbody second.
  assert (Hh1 : Hash (entryOf first c1) <> "").
  { change (Hash (entryOf first c1)) with (computeHash (entryOf first c1)).
    unfold audit.computeHash. fold (hashed (entryOf first c1)).
    destruct (sha256_Sum (hashed (entryOf first c1))); [congruence | discriminate]. }
  assert (Hfile2 : file (logCall second c2) = [data1; data2]).
  { unfold logCall, audit.Log. fold (entryOf second c2). rewrite Hm2, Hw2.
    cbn [file]. rewrite Hfile. reflexivity. }
  assert (Hloop : verifyLines "" (tokens [data1; data2]) = Some ErrPrevHash).
  { unfold decodes in *. cbn [tokens fmap list_fmap audit.verifyLines]. rewrite Hd1.
    change (PrevHash (entryOf first c1)) with "".
    change (Hash (entryOf first c1)) with (computeHash (entryOf first c1)).
    rewrite !String.eqb_refl. cbn [negb]. rewrite Hd2, Hprev.
    apply not_eq_sym in Hh1. apply String.eqb_neq in Hh1.
    change (Hash (entryOf first c1)) with (computeHash (entryOf first c1)) in Hh1.
    rewrite Hh1. reflexivity. }
  split; [exact Hfile|]. split; [reflexivity|]. split; [exact Hprev|].
  split; [rewrite Hprev; intros H; apply Hh1; rewrite <- H; reflexivity|].
  split; [exact Hfile2|]. rewrite Hfile2. split.
  - apply verify_rejects. rewrite Hloop. discriminate.
  - intros Hs1 Hs2. unfold readable. rewrite VerifyLogIntegrity_verifyFrom.
    cbn [bufio.rawLines bufio.readErr].
    rewrite verifyFrom_short by (repeat constructor; assumption).
    exact Hloop.
Qed.

(** *** What the scanner does not return *)

Lemma verifyFrom_unscanned (lines : list string) (readErr : bool) (prev : string) :
  readErr = true \/ Exists (fun line => bufio.tooLong line = true) lines ->
  verifyFrom prev lines readErr <> None.
Proof.
  revert prev. induction lines as [|line lines IH]; intros prev H.
  - destruct H as [-> | H]; [discriminate | inversion H].
  - unfold verifyFrom. cbn [bufio.scanLines].
    destruct (bufio.tooLong line) eqn:El; [discriminate|].
    assert (H' : readErr = true \/ Exists (fun line => bufio.tooLong line = true) lines).
    { destruct H as [H|H]; [now left | right].
      inversion H as [? ? Hl | ? ? Hr]; subst; [congruence | exact Hr]. }
    destruct (json_Unmarshal (bufio.dropCR line)) as [e|] eqn:Ed.
    2: { destruct (bufio.scanLines lines readErr) as [toks err].
         cbn [audit.verifyLines]. rewrite Ed. discriminate. }
    specialize (IH (Hash e) H'). unfold verifyFrom in IH.
    destruct (bufio.scanLines lines readErr) as [toks err].
    cbn [audit.verifyLines]. rewrite Ed.
    destruct (negb (String.eqb (PrevHash e) prev)); [discriminate|].
    destruct (negb (String.eqb (Hash e) (computeHash e))); [discriminate|].
    exact IH.
Qed.

(** The verifier never reports a file intact that it has not scanned to
    the end: when the file holds a line of 64 KiB or more, or reading it
    fails, the result is an error, whatever the lines hold. *)
Theorem verifier_refuses_unscanned_file (r : bufio.Reader) :
  bufio.readErr r = true \/
  Exists (fun line => bufio.tooLong line = true) (bufio.rawLines r) ->
  VerifyLogIntegrity (Some r) <> None.
Proof.
  intros H. rewrite VerifyLogIntegrity_verifyFrom. apply verifyFrom_unscanned, H.
Qed.

(** After a session whose log verifies, one more successful call of [Log]
    whose entry marshals to 64 KiB or more (a long request path is
    enough) is appended like every other, and from then on the verifier
    refuses the log with the scanner's [ErrTooLong]. *)
Theorem long_entry_makes_log_unverifiable (calls : list Call) (c : Call) (data : string) :
  healthy (NewLogger []) calls ->
  json_Marshal (entryOf (logAll (NewLogger []) calls) c) = Some data ->
  writeOk c = true ->
  bufio.tooLong data = true ->
  file (logCall (logAll (NewLogger []) calls) c)
  = (file (logAll (NewLogger []) calls) ++ [data])%list /\
  lastHash (logCall (logAll (NewLogger []) calls) c)
  = Hash (entryOf (logAll (NewLogger []) calls) c) /\
  VerifyLogIntegrity (readable (file (logAll (NewLogger []) calls))) = None /\
  VerifyLogIntegrity (readable (file (logCall (logAll (NewLogger []) calls) c)))
  = Some (ErrScanner bufio.ErrTooLong).
Proof.
  intros Hh Hm Hw Hlong.
  destruct (healthy_file calls (NewLogger []) Hh) as (lines & Hf & HF & Hc).
  simpl in Hf, Hc.
  assert (Hl : logCall (logAll (NewLogger []) calls) c
               = {| file := file (logAll (NewLogger []) calls) ++ [data];
                    lastHash := Hash (entryOf (logAll (NewLogger []) calls) c) |}).
  { unfold logCall, audit.Log. fold (entryOf (logAll (NewLogger []) calls) c).
    rewrite Hm, Hw. reflexivity. }
  rewrite Hl. cbn [file lastHash]. rewrite Hf.
  split; [reflexivity|]. split; [reflexivity|]. split.
  - apply (verify_healthy _ _ HF Hc).
  - unfold readable. rewrite VerifyLogIntegrity_verifyFrom.
    cbn [bufio.rawLines bufio.readErr].
    apply (verifyFrom_scanner_error lines _ "" [data] false HF Hc Hlong).
Qed.

End Chain.

(** *** A sample log *)

(** Stand-ins for the library calls, enough to run the logger and the
    verifier: the timestamp is rendered as its count of nanoseconds, the
    digest of a byte string is the string itself (so it is collision-free),
    a line joins the fields with bars, and decoding looks the line up among
    the entries [known]. *)
Definition sample_Format (t : time.Time) : string :=
  NilZero.string_of_int (Z.to_int (time.unixNano t)).

Definition sample_digest (data : string) : string := data.

Definition sample_line (e : Entry) : string :=
  sample_Format (Timestamp e) ++ "|" ++ Method e ++ "|" ++ Path e ++ "|"
  ++ Decision e ++ "|" ++ Reason e ++ "|" ++ PrevHash e ++ "|" ++ Hash e.

Definition sample_json_Marshal (e : Entry) : option string := Some (sample_line e).

Definition sample_json_Unmarshal (known : list Entry) (line : string) : option Entry :=
  find (fun e => String.eqb (sample_line e) line) known.

Definition sample_at (n : Z) : time.Time :=
  {| time.unixNano := n; time.loc := time.LocLocal |}.

Definition sample_calls : list Call :=
  [ {| at_ := sample_at 1000; method := "GET"; path := "/api/public";
       decision := "ALLOW"; reason := "all checks passed"; writeOk := true |};
    {| at_ := sample_at 2000; method := "POST"; path := "/api/admin";
       decision := "DENY"; reason := "Forbidden"; writeOk := true |};
    {| at_ := sample_at 3000; method := "GET"; path := "/api/public";
       decision := "DENY"; reason := "Too Many Requests"; writeOk := true |} ].

Definition sample_entryOf := entryOf sample_Format sample_digest.
Definition sample_logAll := logAll sample_Format sample_digest sample_json_Marshal.

Definition sample_entries : list Entry :=
  entriesOf sample_Format sample_digest sample_json_Marshal (NewLogger []) sample_calls.

Definition sample_file : list string := file (sample_logAll (NewLogger []) sample_calls).

(** What anyone who can read the file can append: an entry chained to
    the last hash. *)
Definition sample_forged : Entry :=
  sample_entryOf (sample_logAll (NewLogger []) sample_calls)
    {| at_ := sample_at 4000; method := "DELETE"; path := "/api/admin";
       decision := "ALLOW"; reason := "all checks passed"; writeOk := true |}.

(** The entry a logger reopened on the one-line file builds. *)
Definition sample_restart_call : Call :=
  {| at_ := sample_at 5000; method := "GET"; path := "/health";
     decision := "ALLOW"; reason := "all checks passed"; writeOk := true |}.

Definition sample_restarted : Entry :=
  sample_entryOf (NewLogger (take 1 sample_file)) sample_restart_call.

(** The second entry of the sample session with its method changed. *)
Definition sample_second : Entry := nth 1 sample_entries sample_forged.

Definition sample_tampered : Entry :=
  {| Timestamp := Timestamp sample_second; Method := "GET";
     Path := Path sample_second; Decision := Decision sample_second;
     Reason := Reason sample_second; PrevHash := PrevHash sample_second;
     Hash := Hash sample_second |}.

Definition sample_known : list Entry :=
  (sample_entries ++ [sample_forged; sample_restarted; sample_tampered])%list.

(** The verifier on a file with the given lines, read to its end. *)
Definition sample_Verify (lines : list string) : option VerifyError :=
  VerifyLogIntegrity sample_Format sample_digest (sample_json_Unmarshal sample_known)
                     (readable lines).

Example sample_file_verifies : sample_Verify sample_file = None.
Proof. vm_compute. reflexivity. Qed.

(** C5 as stated fails: the three-line file of the sample session still
    verifies after the forged line is inserted at its end. *)
Lemma C5_forged_line_is_accepted :
  sample_Verify sample_file = None /\
  length (sample_file ++ [sample_line sample_forged])%list = S (length sample_file) /\
  sample_Verify (sample_file ++ [sample_line sample_forged])%list = None.
Proof. vm_compute. repeat split. Qed.

Lemma sample_healthy :
  healthy sample_Format sample_digest sample_json_Marshal (sample_json_Unmarshal sample_known)
          (NewLogger []) sample_calls.
Proof.
  simpl. repeat split;
    (eexists; split; [reflexivity | split; vm_compute; reflexivity]).
Qed.

Lemma sample_hashes_distinct : NoDup ("" :: map Hash sample_entries).
Proof.
  apply NoDup_ListNoDup. vm_compute.
  repeat (constructor; [simpl; intuition discriminate|]). constructor.
Qed.

(** The sample file verifies, and no longer does once the method of its
    second entry is changed, its first and third lines are swapped, or a
    line that does not decode is inserted after the first one. *)
Lemma C5_verifier_on_session_log_witness :
  sample_Verify sample_file = None /\
  sample_Verify (<[1%nat := sample_line sample_tampered]> sample_file) <> None /\
  (forall l0 l2 : string,
     sample_file !! 0%nat = Some l0 -> sample_file !! 2%nat = Some l2 ->
     sample_Verify (<[0%nat := l2]> (<[2%nat := l0]> sample_file)) <> None) /\
  sample_Verify (take 1 sample_file ++ "{}" :: drop 1 sample_file)%list <> None.
Proof.
  destruct (C5_verifier_on_session_log sample_Format sample_digest sample_json_Marshal
              (sample_json_Unmarshal sample_known) sample_calls sample_healthy)
    as (Hok & Hfield & Hswap & Hins).
  split; [exact Hok|]. split; [|split].
  - apply (Hfield (fun x y H => H) 1%nat FMethod sample_second sample_tampered).
    + reflexivity.
    + vm_compute. repeat split. discriminate.
    + vm_compute. reflexivity.
  - intros l0 l2 H0 H2.
    apply (Hswap sample_hashes_distinct 0%nat 2%nat l0 l2); [lia | exact H0 | exact H2].
  - apply (Hins 1%nat "{}").
    + vm_compute. lia.
    + intros (e & [_ He] & _). vm_compute in He. discriminate He.
Defined.

(** A restart of the gateway on the sample log's first line. *)
Lemma C4_restart_resets_chain_witness :
  PrevHash sample_restarted = "" /\
  sample_Verify (take 1 sample_file ++ [sample_line sample_restarted])%list
  = Some ErrPrevHash.
Proof.
  pose proof (C4_restart_resets_chain sample_Format sample_digest sample_json_Marshal
                (sample_json_Unmarshal sample_known)
                (nth 0 sample_calls sample_restart_call) sample_restart_call
                (nth 0 sample_file "") (sample_line sample_restarted)) as H.
  cbv zeta in H.
  destruct H as (_ & _ & Hprev & _ & Hfile & _ & Hverify);
    try (vm_compute; reflexivity); try (vm_compute; discriminate).
  split; [exact Hprev|]. rewrite Hfile in Hverify.
  apply Hverify; vm_compute; reflexivity.
Defined.

(** The third entry of the sample session: hashed over its fields, in
    UTC, and chained to the second. *)
Lemma session_chain_witness :
  exists e,
    session sample_Format sample_digest sample_json_Marshal (NewLogger []) sample_calls
      !! 2%nat = Some (e, true) /\
    time.loc (Timestamp e) = time.LocUTC /\
    Some (PrevHash e) = option_map Hash (sample_entries !! 1%nat).
Proof.
  eexists. split; [reflexivity|].
  match goal with
  | |- time.loc (Timestamp ?e) = _ /\ _ =>
      destruct (session_chain sample_Format sample_digest sample_json_Marshal
                  sample_calls (NewLogger []) 2 e true eq_refl) as (_ & Hutc & Hprev)
  end.
  split; [exact Hutc|]. rewrite Hprev. vm_compute. reflexivity.
Defined.

(** The sample log, when reading it fails after its last line. *)
Lemma verifier_refuses_unscanned_file_witness :
  sample_Verify sample_file = None /\
  VerifyLogIntegrity sample_Format sample_digest (sample_json_Unmarshal sample_known)
    (Some {| bufio.rawLines := sample_file; bufio.readErr := true |}) <> None.
Proof.
  split; [vm_compute; reflexivity|].
  apply (verifier_refuses_unscanned_file sample_Format sample_digest
           (sample_json_Unmarshal sample_known)
           {| bufio.rawLines := sample_file; bufio.readErr := true |}).
  left. reflexivity.
Defined.

(** A request whose path has 65536 characters, logged after the sample
    session. *)
Definition sample_long_call : Call :=
  {| at_ := sample_at 6000; method := "GET";
     path := String "/" (Pos.iter (String "a"%char) EmptyString 65535);
     decision := "DENY"; reason := "Unauthorized"; writeOk := true |}.

Lemma long_entry_makes_log_unverifiable_witness :
  let l := sample_logAll (NewLogger []) sample_calls in
  let l' := logCall sample_Format sample_digest sample_json_Marshal l sample_long_call in
  length (file l') = 4%nat /\
  sample_Verify (file l) = None /\
  sample_Verify (file l') = Some (ErrScanner bufio.ErrTooLong).
Proof.
  intros l l'.
  destruct (long_entry_makes_log_unverifiable
              sample_Format sample_digest sample_json_Marshal
              (sample_json_Unmarshal sample_known) sample_calls sample_long_call
              (sample_line (sample_entryOf l sample_long_call)) sample_healthy)
    as (Hfile & _ & Hok & Hlong).
  - reflexivity.
  - reflexivity.
  - vm_compute. reflexivity.
  - split; [|split; [exact Hok | exact Hlong]].
    etransitivity; [exact (f_equal length Hfile)|].
    rewrite length_app. reflexivity.
Defined.

End audit_facts.

(** ** Bearer-token authenticator *)

Module jwt_facts.

Import http auth.

#[local] Arguments String.append !_ _ / : simpl nomatch.

Lemma SplitN2_two (s part0 rest : string) :
  SplitN2 s = [part0; rest] -> s = part0 ++ " " ++ rest.
Proof.
  revert part0. induction s as [|c s IH]; intros part0 H; simpl in H; [discriminate|].
  destruct (Ascii.eqb c " ") eqn:E.
  - apply Ascii.eqb_eq in E. subst c. injection H as <- <-. reflexivity.
  - destruct (SplitN2 s) as [|p [|q more]] eqn:Es; try discriminate.
    injection H as H1 H2 H3. subst. simpl. f_equal. apply IH. reflexivity.
Qed.

Lemma stringItems_spec (items : list Claim) (s : string) :
  In s (stringItems items) <-> In (CString s) items.
Proof.
  induction items as [|c items IH]; simpl; [tauto|].
  destruct c; simpl; rewrite IH; split; intros H;
    try (right; exact H); try (destruct H as [H|H]; [discriminate H | exact H]).
  - destruct H as [H|H]; [left; now subst | right; exact H].
  - destruct H as [H|H]; [left; now injection H | right; exact H].
Qed.

Section Middleware.

Variable PublicKey : Type.
Variable decodeSegments : string -> option Token.
Variable verifySignature : string -> PublicKey -> string -> bool.
Variable validateClaims : gmap string Claim -> Z -> bool.
Variable int64_of_float64 : float -> Z.

Local Abbreviation JWTMiddleware :=
  (auth.JWTMiddleware PublicKey decodeSegments verifySignature validateClaims
                      int64_of_float64).

(** The conditions under which the middleware lets a request through:
    the header is "Bearer " followed by a token that decodes, names RS256,
    passes the RS256 signature check under the configured key and the
    library's validation, and carries the configured issuer and audience
    as strings, a numeric expiry that is not before the current second,
    and a non-empty string subject. *)
Definition accepted (cfg : JWTConfig PublicKey) (r : Request) (now : Z)
           (tokenStr : string) (token : Token) (sub : string) (exp : float) : Prop :=
  HeaderGet r "Authorization" = "Bearer " ++ tokenStr /\
  decodeSegments tokenStr = Some token /\
  Alg token = "RS256" /\
  verifySignature "RS256" (cfgPublicKey _ cfg) tokenStr = true /\
  validateClaims (Claims token) now = true /\
  Claims token !! "iss" = Some (CString (cfgIssuer _ cfg)) /\
  Claims token !! "aud" = Some (CString (cfgAudience _ cfg)) /\
  Claims token !! "exp" = Some (CNumber exp) /\
  (now <= int64_of_float64 exp)%Z /\
  Claims token !! "sub" = Some (CString sub) /\
  sub <> "".

(** The identity attached on success. *)
Definition identityOf (cfg : JWTConfig PublicKey) (token : Token) (sub : string) : Identity :=
  {| Type_ := AuthJWT; Subject := sub; Roles := extractRoles (Claims token);
     Issuer := cfgIssuer _ cfg; Audience := cfgAudience _ cfg |}.

Lemma accepted_passes (cfg : JWTConfig PublicKey) (r : Request) (now : Z)
      (tokenStr : string) (token : Token) (sub : string) (exp : float) :
  Path r <> "/health" ->
  accepted cfg r now tokenStr token sub exp ->
  JWTMiddleware cfg r now
  = Next (WithContext r (WithIdentity (Ctx r) (identityOf cfg token sub))).
Proof.
  intros Hp (Hh & Hd & Ha & Hv & Hc & Hi & Hau & He & Hn & Hs & Hne).
  apply String.eqb_neq in Hp. unfold auth.JWTMiddleware. rewrite Hp, Hh. simpl.
  unfold Parse. rewrite Hd, Ha. simpl. rewrite Hv, Hc. simpl.
  rewrite Hi, String.eqb_refl. simpl. rewrite Hau, String.eqb_refl. simpl.
  rewrite He. destruct (Z.ltb_spec (int64_of_float64 exp) now); [lia|].
  rewrite Hs. apply String.eqb_neq in Hne. rewrite Hne. reflexivity.
Qed.


End Middleware.

(** *** A sample token *)

(** Stand-ins for the JWT library on two token strings: one signed with
    RS256, one that names the algorithm "none". *)
Definition sample_claims : gmap string Claim :=
  <["iss" := CString "https://issuer.example"]>
  (<["aud" := CString "gateway"]>
  (<["exp" := CNumber 1900000000%float]>
  (<["sub" := CString "alice"]>
  (<["roles" := CArray [CString "admin"; CNumber 7%float; CString "user"]]> ∅)))).

Definition sample_decode (tokenStr : string) : option Token :=
  if String.eqb tokenStr "rs256.claims.signature"
  then Some {| Alg := "RS256"; Claims := sample_claims |}
  else if String.eqb tokenStr "none.claims."
  then Some {| Alg := "none"; Claims := sample_claims |}
  else None.

Definition sample_verify (alg : string) (key : unit) (tokenStr : string) : bool :=
  if String.eqb alg "none" then true
  else String.eqb alg "RS256" && String.eqb tokenStr "rs256.claims.signature".

Definition sample_validate (claims : gmap string Claim) (now : Z) : bool := true.

(** Truncation of a finite [float64] towards zero. *)
Definition truncate (f : float) : Z :=
  match Prim2SF f with
  | S754_finite sign m e =>
      let v := if (0 <=? e)%Z then (Z.pos m * 2 ^ e)%Z else (Z.pos m / 2 ^ (- e))%Z in
      if sign then (- v)%Z else v
  | _ => 0%Z
  end.

Definition sample_cfg : JWTConfig unit :=
  {| cfgIssuer := "https://issuer.example"; cfgAudience := "gateway"; cfgPublicKey := tt |}.

Definition sample_bearer (authorization : string) : Request :=
  {| Method := "GET"; Path := "/api/public";
     HeaderGet := fun h => if String.eqb h "Authorization" then authorization else "";
     ContentLength := 0; Body := ""; BodyErr := false;
     RemoteAddr := "10.0.0.1:4000"; Ctx := [] |}.

Definition sample_JWTMiddleware :=
  auth.JWTMiddleware unit sample_decode sample_verify sample_validate truncate sample_cfg.

(** A token whose header names "none" is refused although the stand-in
    verifier would pass it. *)
Example alg_none_rejected :
  sample_JWTMiddleware (sample_bearer "Bearer none.claims.") 1800000000
  = Reply 401 "invalid token".
Proof. vm_compute. reflexivity. Qed.


End jwt_facts.

(** ** The assembled gateway *)

Module gateway_facts.

Import http gateway.

(** *** Stand-ins to run the gateway on samples *)

Fixpoint hasColon (s : string) : bool :=
  match s with
  | EmptyString => false
  | String c rest => if Ascii.eqb c ":" then true else hasColon rest
  end.

(** "host:port" with exactly one colon. *)
Fixpoint sample_SplitHostPort (hostport : string) : option (string * string) :=
  match hostport with
  | EmptyString => None
  | String c rest =>
      if Ascii.eqb c ":" then
        if hasColon rest then None else Some (EmptyString, rest)
      else
        match sample_SplitHostPort rest with
        | Some (host, port) => Some (String c host, port)
        | None => None
        end
  end.

(** A two-byte checksum in place of SHA-256, to keep sample hashes short. *)
Fixpoint byteSum (data : string) : N :=
  match data with
  | EmptyString => 0%N
  | String c rest => (N_of_ascii c + byteSum rest)%N
  end.

Definition sample_checksum (data : string) : string :=
  let n := (byteSum data mod 65536)%N in
  String (ascii_of_N (n / 256)) (String (ascii_of_N (n mod 256)) EmptyString).

Definition sample_StatusText (code : Z) : string :=
  if (code =? 400)%Z then "Bad Request"
  else if (code =? 401)%Z then "Unauthorized"
  else if (code =? 403)%Z then "Forbidden"
  else if (code =? 429)%Z then "Too Many Requests"
  else if (code =? 502)%Z then "Bad Gateway"
  else "".

(** The policy file of the specification's section 6. *)
Definition sample_yaml : string :=
  "policies: [{GET /api/public [user, admin]}, {POST /api/admin [admin]}]".

Definition gateway_yaml_Unmarshal (data : string) : option policy.PolicyFile :=
  if String.eqb data sample_yaml then
    Some {| policy.Policies :=
              [ {| policy.Method := "GET"; policy.Path := "/api/public";
                   policy.Roles := ["user"; "admin"] |};
                {| policy.Method := "POST"; policy.Path := "/api/admin";
                   policy.Roles := ["admin"] |} ] |}
  else None.

Definition gateway_fs : os.FileSystem :=
  {[ policyPath := {| os.ModTime := 100; os.Data := Some sample_yaml |} ]}.

Definition K_USER : string := "deef0us3r0000000000000000000000000000000000000000000000000000".
Definition K_ADMIN : string := "deef0admin0000000000000000000000000000000000000000000000000000".

Definition sample_request (method path key contentType body : string) : Request :=
  {| Method := method; Path := path;
     HeaderGet := fun h =>
       if String.eqb h "User-Agent" then "t"
       else if String.eqb h "X-API-Key" then key
       else if String.eqb h "Content-Type" then contentType
       else "";
     ContentLength := Z.of_nat (String.length body); Body := body; BodyErr := false;
     RemoteAddr := "192.0.2.7:51000"; Ctx := [] |}.

Definition sample_env (now : Z) : Env :=
  {| clockNow := now; wallNow := now; logTime := audit_facts.sample_at now;
     proxyWrites := [200%Z]; auditWriteOk := true |}.

Definition sample_start (early : list os.FileSystem) : Gateway :=
  start policy_facts.asciiTrimSpace gateway_yaml_Unmarshal [] gateway_fs early 0.

Definition sample_rootHandler :=
  rootHandler policy_facts.asciiTrimSpace sample_SplitHostPort sample_StatusText
              audit_facts.sample_Format sample_checksum
              audit_facts.sample_json_Marshal.

Definition sample_run :=
  run policy_facts.asciiTrimSpace gateway_yaml_Unmarshal sample_SplitHostPort sample_StatusText
      audit_facts.sample_Format sample_checksum audit_facts.sample_json_Marshal.

(** The end-to-end scenarios 1 to 5 of the specification. *)
Example scenarios_1_to_5 :
  let g := sample_start [] in
  map (fun r => snd (sample_rootHandler g r (sample_env 0)))
      [ sample_request "GET" "/health" "" "" "";
        sample_request "GET" "/api/public" "" "" "";
        sample_request "GET" "/api/public" K_USER "" "";
        sample_request "POST" "/api/admin" K_USER "application/json" "{}";
        sample_request "POST" "/api/admin" K_ADMIN "application/json" "{}" ]
  = [Served [200]; Served [401]; Served [200]; Served [403]; Served [200]]%Z.
Proof. vm_compute. reflexivity. Qed.

Section Wiring.

Variable TrimSpace : string -> string.
Variable yaml_Unmarshal : string -> option policy.PolicyFile.
Variable SplitHostPort : string -> option (string * string).
Variable StatusText : Z -> string.
Variable Format_RFC3339Nano : time.Time -> string.
Variable sha256_Sum : string -> string.
Variable json_Marshal : audit.Entry -> option string.

Local Abbreviation securedChain := (gateway.securedChain TrimSpace SplitHostPort).
Local Abbreviation finalHandler :=
  (gateway.finalHandler TrimSpace SplitHostPort StatusText Format_RFC3339Nano
                        sha256_Sum json_Marshal).
Local Abbreviation rootHandler :=
  (gateway.rootHandler TrimSpace SplitHostPort StatusText Format_RFC3339Nano
                       sha256_Sum json_Marshal).
Local Abbreviation tick := (gateway.tick TrimSpace yaml_Unmarshal).
Local Abbreviation watch := (gateway.watch TrimSpace yaml_Unmarshal).
Local Abbreviation start := (gateway.start TrimSpace yaml_Unmarshal).
Local Abbreviation step :=
  (gateway.step TrimSpace yaml_Unmarshal SplitHostPort StatusText Format_RFC3339Nano
                sha256_Sum json_Marshal).
Local Abbreviation run :=
  (gateway.run TrimSpace yaml_Unmarshal SplitHostPort StatusText Format_RFC3339Nano
               sha256_Sum json_Marshal).
Local Abbreviation safeAllow := (ratelimit.safeAllow SplitHostPort).

(** The secured chain touches nothing but the limiter and the fallback bucket. *)
Lemma securedChain_frame (g : Gateway) (r : Request) (env : Env) :
  exists l fb, fst (securedChain g r env) = withLimiter g l fb.
Proof.
  assert (Hid : g = withLimiter g (limiter g) (fallbackBucket g)) by (destruct g; reflexivity).
  unfold gateway.securedChain.
  destruct (middleware.ValidateRequestMiddleware TrimSpace r) as [r1|]; [|eauto].
  destruct (auth.APIKeyMiddleware auth.NewDemoStore r1) as [r2|]; [|eauto].
  destruct (rbac.RBACMiddleware (rbacPolicies g) r2) as [r3|]; [|eauto].
  destruct (ratelimit.Middleware _ _ _ _ _ _) as [[l fb] [r4|]]; simpl; eauto.
Qed.

(** *** The audit wrapper *)

(** C8. The audit wrapper, around whatever the secured chain did for the
    request: the decision is ALLOW when the recorded status is below 400
    and DENY otherwise, with reason "all checks passed" or the status
    text; exactly the allow counter, or exactly the deny counter, goes up
    by one accordingly; and when the entry marshals and the write
    succeeds, the audit file grows by exactly the line of the entry built
    from the request's method and path, that decision and that reason. The
    writes seen by the client are those of the chain. *)
Theorem C8_audit_wrapper (g : Gateway) (r : Request) (env : Env) :
  let status := recorded (snd (securedChain g r env)) in
  let decision := if (status <? 400)%Z then "ALLOW" else "DENY" in
  let reason := if (status <? 400)%Z then "all checks passed" else StatusText status in
  let entry := audit.newEntry Format_RFC3339Nano sha256_Sum (auditLogger g) (logTime env)
                              (Method r) (Path r) decision reason in
  let g' := fst (finalHandler g r env) in
  snd (finalHandler g r env) = snd (securedChain g r env) /\
  audit.Decision entry = decision /\ audit.Reason entry = reason /\
  ((status < 400)%Z ->
   dashboard.allowCount (stats g') = dashboard.wrap64 (dashboard.allowCount (stats g) + 1) /\
   dashboard.denyCount (stats g') = dashboard.denyCount (stats g)) /\
  ((400 <= status)%Z ->
   dashboard.denyCount (stats g') = dashboard.wrap64 (dashboard.denyCount (stats g) + 1) /\
   dashboard.allowCount (stats g') = dashboard.allowCount (stats g)) /\
  (forall data, json_Marshal entry = Some data -> auditWriteOk env = true ->
     audit.file (auditLogger g') = (audit.file (auditLogger g) ++ [data])%list /\
     audit.lastHash (auditLogger g') = audit.Hash entry).
Proof.
  cbv zeta. unfold gateway.finalHandler.
  destruct (securedChain_frame g r env) as (l & fb & Hg).
  destruct (securedChain g r env) as [g1 writes] eqn:Hc. simpl in Hg. subst g1.
  cbn [fst snd stats auditLogger withLimiter].
  destruct (Z.ltb_spec (recorded writes) 400) as [Hlt|Hge].
  - destruct (Z.leb_spec 400 (recorded writes)) as [|_]; [lia|].
    change (String.eqb "ALLOW" "ALLOW") with true.
    split; [reflexivity|]. split; [reflexivity|]. split; [reflexivity|].
    split; [intros _; split; reflexivity|]. split; [intros; lia|].
    intros data Hm Hw. unfold audit.Log. rewrite Hm, Hw. split; reflexivity.
  - destruct (Z.leb_spec 400 (recorded writes)) as [_|]; [|lia].
    change (String.eqb "DENY" "ALLOW") with false.
    split; [reflexivity|]. split; [reflexivity|]. split; [reflexivity|].
    split; [intros; lia|]. split; [intros _; split; reflexivity|].
    intros data Hm Hw. unfold audit.Log. rewrite Hm, Hw. split; reflexivity.
Qed.

(** *** The rules RBAC consults *)

Lemma finalHandler_rbacPolicies (g : Gateway) (r : Request) (env : Env) :
  rbacPolicies (fst (finalHandler g r env)) = rbacPolicies g.
Proof.
  unfold gateway.finalHandler.
  destruct (securedChain_frame g r env) as (l & fb & Hg).
  destruct (securedChain g r env) as [g1 writes]. simpl in Hg. subst g1. reflexivity.
Qed.

Lemma step_rbacPolicies (g : Gateway) (ev : Event) : rbacPolicies (step g ev) = rbacPolicies g.
Proof.
  destruct ev as [fs|r env]; simpl.
  - unfold gateway.tick. destruct (policy.watchIteration _ _ _ _ _ _). reflexivity.
  - unfold gateway.rootHandler.
    destruct (String.eqb (Path r) "/dashboard"); [reflexivity|].
    destruct (strings.HasPrefix (Path r) "/dashboard/"); [reflexivity|].
    destruct (strings.HasPrefix (Path r) "/api/dashboard"); [reflexivity|].
    pose proof (finalHandler_rbacPolicies g r env) as H.
    destruct (finalHandler g r env). exact H.
Qed.

Lemma run_rbacPolicies (events : list Event) (g : Gateway) :
  rbacPolicies (run g events) = rbacPolicies g.
Proof.
  revert g. induction events as [|ev events IH]; intros g; [reflexivity|].
  unfold gateway.run in *. simpl. rewrite IH. apply step_rbacPolicies.
Qed.

(** C3, amended. [main] takes [GetPolicies()] for the RBAC middleware once,
    after the initial load and after it has started the watcher: the rule
    set RBAC consults is that of the engine as the load and the watcher's
    passes made by then left it. From then on no pass of the watcher and no
    request changes it, so the decision RBAC makes for a request is the one
    it makes under that rule set. *)
Theorem C3_rbac_rules_fixed_after_snapshot
        (auditLines : list string) (fs : os.FileSystem) (early : list os.FileSystem)
        (wall : Z) (events : list Event) :
  let loaded :=
    fst (policy.LoadFromFile yaml_Unmarshal TrimSpace policy.NewEngine fs policyPath) in
  let g0 := start auditLines fs early wall in
  rbac.Policies (rbacPolicies g0)
  = convertPolicyRulesToRBACPolicies
      (policy.GetPolicies (fst (watch loaded policy.zeroTime early))) /\
  rbacPolicies (run g0 events) = rbacPolicies g0 /\
  (forall r : Request,
     rbac.RBACMiddleware (rbacPolicies (run g0 events)) r
     = rbac.RBACMiddleware (rbacPolicies g0) r).
Proof.
  cbv zeta. split; [|split].
  - unfold gateway.start. destruct (gateway.watch _ _ _ _ _). reflexivity.
  - apply run_rbacPolicies.
  - intros r. rewrite run_rbacPolicies. reflexivity.
Qed.

(** *** The limiter's user buckets *)

(** The limiter's decision from the IP bucket or the fallback bucket alone. *)
Definition ipAllow (l : ratelimit.Limiter) (fallbackBucket : ratelimit.bucket)
           (remoteAddr : string) (now wall : Z)
  : ratelimit.Limiter * ratelimit.bucket * bool :=
  let fallback :=
    let '(fb', ok) := ratelimit.fallbackAllow fallbackBucket wall in (l, fb', ok) in
  let ip := ratelimit.extractIP SplitHostPort remoteAddr in
  if String.eqb ip "" then fallback
  else
    match ratelimit.ipBuckets l with
    | None => fallback
    | Some ipm =>
        let ipBucket :=
          match ipm !! ip with
          | Some b => b
          | None => ratelimit.newBucket ratelimit.IPBucketCapacity
                                        ratelimit.IPRefillPerSecond now
          end in
        let '(ipBucket', ipOk) := ratelimit.allow ipBucket now in
        ({| ratelimit.ipBuckets := Some (<[ip := ipBucket']> ipm);
            ratelimit.userBuckets := ratelimit.userBuckets l |}, fallbackBucket, ipOk)
    end.

Definition noUserID (r : Request) : Prop := Value (Ctx r) UserIDKey = None.

Definition servesNoUserID (ev : Event) : Prop :=
  match ev with
  | Tick _ => True
  | Serve r _ => noUserID r
  end.

Lemma safeAllow_noUserID (l : ratelimit.Limiter) (fb : ratelimit.bucket) (ctx : Context)
      (remoteAddr : string) (now wall : Z) :
  Value ctx UserIDKey = None ->
  safeAllow l fb ctx remoteAddr now wall = ipAllow l fb remoteAddr now wall.
Proof.
  intros H. unfold ratelimit.safeAllow, ipAllow. rewrite H.
  destruct (String.eqb _ ""); [reflexivity|].
  destruct (ratelimit.ipBuckets l); [|reflexivity].
  destruct (ratelimit.allow _ now) as [b ok]. destruct ok; reflexivity.
Qed.

Lemma ipAllow_userBuckets (l : ratelimit.Limiter) (fb : ratelimit.bucket)
      (remoteAddr : string) (now wall : Z) :
  ratelimit.userBuckets (fst (fst (ipAllow l fb remoteAddr now wall)))
  = ratelimit.userBuckets l.
Proof.
  unfold ipAllow. destruct (ratelimit.fallbackAllow fb wall).
  destruct (String.eqb _ ""); [reflexivity|].
  destruct (ratelimit.ipBuckets l); [|reflexivity].
  destruct (ratelimit.allow _ now). reflexivity.
Qed.

(** No stage before the limiter binds [UserIDKey]. *)
Lemma reaches_limiter_noUserID (g : Gateway) (r r1 r2 r3 : Request) :
  noUserID r ->
  middleware.ValidateRequestMiddleware TrimSpace r = Next r1 ->
  auth.APIKeyMiddleware auth.NewDemoStore r1 = Next r2 ->
  rbac.RBACMiddleware (rbacPolicies g) r2 = Next r3 ->
  noUserID r3.
Proof.
  unfold noUserID. intros H Hv Ha Hr.
  assert (r1 = r).
  { unfold middleware.ValidateRequestMiddleware in Hv.
    destruct (middleware.missingHeader _ _ _); [discriminate|].
    destruct (_ && _); [discriminate|]. destruct (_ || _); [discriminate|]. congruence. }
  subst r1.
  assert (H2 : Value (Ctx r2) UserIDKey = None).
  { unfold auth.APIKeyMiddleware in Ha.
    destruct (String.eqb (Path r) "/health"); [congruence|].
    destruct (String.eqb _ ""); [discriminate|].
    destruct (auth.Lookup _ _); [|discriminate].
    destruct (negb _); [discriminate|]. injection Ha as <-. simpl. exact H. }
  assert (r3 = r2).
  { unfold rbac.RBACMiddleware in Hr.
    destruct (String.eqb (Path r2) "/health"); [congruence|].
    destruct (auth.FromContext _); [|discriminate].
    destruct (rbac.evaluate _ _ _); [congruence | discriminate]. }
  subst r3. exact H2.
Qed.

Lemma securedChain_userBuckets (g : Gateway) (r : Request) (env : Env) :
  noUserID r ->
  ratelimit.userBuckets (limiter (fst (securedChain g r env)))
  = ratelimit.userBuckets (limiter g).
Proof.
  intros H. unfold gateway.securedChain.
  destruct (middleware.ValidateRequestMiddleware TrimSpace r) as [r1|] eqn:Hv; [|reflexivity].
  destruct (auth.APIKeyMiddleware auth.NewDemoStore r1) as [r2|] eqn:Ha; [|reflexivity].
  destruct (rbac.RBACMiddleware (rbacPolicies g) r2) as [r3|] eqn:Hr; [|reflexivity].
  pose proof (reaches_limiter_noUserID g r r1 r2 r3 H Hv Ha Hr) as H3.
  unfold ratelimit.Middleware. rewrite (safeAllow_noUserID _ _ _ _ _ _ H3).
  pose proof (ipAllow_userBuckets (limiter g) (fallbackBucket g) (RemoteAddr r3)
                                  (clockNow env) (wallNow env)) as Hu.
  destruct (ipAllow _ _ _ _ _) as [[l fb] ok]. simpl in Hu.
  destruct ok; simpl; exact Hu.
Qed.

Lemma step_userBuckets (g : Gateway) (ev : Event) :
  servesNoUserID ev ->
  ratelimit.userBuckets (limiter (step g ev)) = ratelimit.userBuckets (limiter g).
Proof.
  destruct ev as [fs|r env]; simpl; intros H.
  - unfold gateway.tick. destruct (policy.watchIteration _ _ _ _ _ _). reflexivity.
  - unfold gateway.rootHandler.
    destruct (String.eqb (Path r) "/dashboard"); [reflexivity|].
    destruct (strings.HasPrefix (Path r) "/dashboard/"); [reflexivity|].
    destruct (strings.HasPrefix (Path r) "/api/dashboard"); [reflexivity|].
    unfold gateway.finalHandler.
    pose proof (securedChain_userBuckets g r env H) as Hu.
    destruct (securedChain g r env) as [g1 writes]. exact Hu.
Qed.

Lemma run_userBuckets (events : list Event) (g : Gateway) :
  Forall servesNoUserID events ->
  ratelimit.userBuckets (limiter (run g events)) = ratelimit.userBuckets (limiter g).
Proof.
  intros HF. revert g. induction HF as [|ev events Hev _ IH]; intros g; [reflexivity|].
  unfold gateway.run in *. simpl. rewrite IH. apply step_userBuckets, Hev.
Qed.

(** C10. In the gateway as [main] assembles it, over any passes of the
    watcher and any requests whose incoming context binds no value to the
    limiter's [UserIDKey]: the limiter's user-bucket map stays empty, its
    stats and the dashboard's status view report 0 user buckets, and for a
    request that reaches the limiter the verdict and the new limiter state
    are those of the IP bucket (or of the fallback bucket) alone. *)
Theorem C10_user_bucket_never_consulted
        (auditLines : list string) (fs : os.FileSystem) (early : list os.FileSystem)
        (wall : Z) (events : list Event) :
  Forall servesNoUserID events ->
  let g := run (start auditLines fs early wall) events in
  ratelimit.userBuckets (limiter g) = Some ∅ /\
  snd (ratelimit.Stats (limiter g)) = 0%nat /\
  (forall r : Request,
     Method r = "GET" -> Path r = "/api/dashboard/status" ->
     ServeAPI g r = StatusView (fst (ratelimit.Stats (limiter g))) 0) /\
  (forall (r r1 r2 r3 : Request) (env : Env),
     noUserID r ->
     middleware.ValidateRequestMiddleware TrimSpace r = Next r1 ->
     auth.APIKeyMiddleware auth.NewDemoStore r1 = Next r2 ->
     rbac.RBACMiddleware (rbacPolicies g) r2 = Next r3 ->
     safeAllow (limiter g) (fallbackBucket g) (Ctx r3) (RemoteAddr r3)
               (clockNow env) (wallNow env)
     = ipAllow (limiter g) (fallbackBucket g) (RemoteAddr r3)
               (clockNow env) (wallNow env)).
Proof.
  intros HF. cbv zeta.
  assert (Hu : ratelimit.userBuckets
                 (limiter (run (start auditLines fs early wall) events)) = Some ∅).
  { rewrite (run_userBuckets _ _ HF). unfold gateway.start.
    destruct (gateway.watch _ _ _ _ _). reflexivity. }
  assert (Hs : snd (ratelimit.Stats (limiter (run (start auditLines fs early wall) events)))
               = 0%nat).
  { unfold ratelimit.Stats. simpl. rewrite Hu. reflexivity. }
  split; [exact Hu|]. split; [exact Hs|]. split.
  - intros r Hm Hp. unfold ServeAPI. rewrite Hm, Hp, Hs. reflexivity.
  - intros r r1 r2 r3 env H Hv Ha Hr. apply safeAllow_noUserID.
    apply (reaches_limiter_noUserID _ r r1 r2 r3 H Hv Ha Hr).
Qed.

End Wiring.

(** *** The sample gateway *)

Definition public_get : Request := sample_request "GET" "/api/public" K_USER "" "".

(** Scenario 6 of the specification: after twenty requests from one
    address at one instant the twenty-first is answered 429, and the
    counters stand at 20 allowed and 1 denied. *)
Example scenario_6 :
  let g20 := sample_run (sample_start []) (repeat (Serve public_get (sample_env 0)) 20) in
  let '(g21, response) := sample_rootHandler g20 public_get (sample_env 0) in
  response = Served [429%Z] /\
  dashboard.allowCount (stats g21) = 20%Z /\ dashboard.denyCount (stats g21) = 1%Z /\
  length (audit.file (auditLogger g21)) = 21%nat.
Proof. vm_compute. repeat split. Qed.

(** With a user id in the context, as in the limiter's own test, the user
    bucket is created and charged. *)
Example user_bucket_used_when_key_present :
  ratelimit.Stats
    (fst (fst (ratelimit.safeAllow sample_SplitHostPort ratelimit.NewLimiter
                 (ratelimit.newFallbackBucket 0) [(UserIDKey, VString "user-1")]
                 "9.9.9.9:123" 0 0)))
  = (1%nat, 1%nat).
Proof. vm_compute. reflexivity. Qed.

(** C3 as stated fails. The policy file is valid when [main] loads it and
    is gone when the watcher, already started, makes its first pass before
    [main] takes the snapshot: the rule set RBAC consults is then empty,
    not the rules [GetPolicies()] returned before the watcher started, and
    a request those rules allow is answered 403. *)
Lemma C3_snapshot_sees_early_watcher_pass :
  let before :=
    fst (policy.LoadFromFile gateway_yaml_Unmarshal policy_facts.asciiTrimSpace
                             policy.NewEngine gateway_fs policyPath) in
  let g0 := sample_start [∅] in
  length (convertPolicyRulesToRBACPolicies (policy.GetPolicies before)) = 2%nat /\
  rbac.RBACMiddleware
    {| rbac.Policies := convertPolicyRulesToRBACPolicies (policy.GetPolicies before) |}
    (WithContext public_get
       (auth.WithIdentity [] {| auth.Type_ := auth.AuthAPIKey; auth.Subject := "demo-user";
                                auth.Roles := ["user"]; auth.Issuer := "";
                                auth.Audience := "" |}))
  = Next (WithContext public_get
            (auth.WithIdentity [] {| auth.Type_ := auth.AuthAPIKey;
                                     auth.Subject := "demo-user"; auth.Roles := ["user"];
                                     auth.Issuer := ""; auth.Audience := "" |})) /\
  rbac.Policies (rbacPolicies g0) = [] /\
  snd (sample_rootHandler g0 public_get (sample_env 0)) = Served [403%Z].
Proof. vm_compute. repeat split. Qed.

(** After the snapshot the watcher finds the file gone: the engine is
    emptied, the rules RBAC consults are not, and the request is served. *)
Lemma C3_rbac_rules_fixed_after_snapshot_witness :
  let g0 := sample_start [] in
  let g1 := sample_run g0 [Tick ∅] in
  policy.GetPolicies (policyEngine g1) = [] /\
  rbacPolicies g1 = rbacPolicies g0 /\
  length (rbac.Policies (rbacPolicies g1)) = 2%nat /\
  snd (sample_rootHandler g1 public_get (sample_env 0)) = Served [200%Z].
Proof.
  destruct (C3_rbac_rules_fixed_after_snapshot policy_facts.asciiTrimSpace gateway_yaml_Unmarshal
              sample_SplitHostPort sample_StatusText audit_facts.sample_Format
              sample_checksum audit_facts.sample_json_Marshal
              [] gateway_fs [] 0 [Tick ∅]) as (_ & Hfixed & _).
  split; [vm_compute; reflexivity|]. split; [exact Hfixed|].
  split; vm_compute; reflexivity.
Defined.

(** A request without an API key: one DENY entry with reason
    "Unauthorized" is appended and the deny counter goes up. *)
Lemma C8_audit_wrapper_witness :
  let g := sample_start [] in
  let r := sample_request "GET" "/api/public" "" "" "" in
  let g' := fst (gateway.finalHandler policy_facts.asciiTrimSpace sample_SplitHostPort
                   sample_StatusText audit_facts.sample_Format sample_checksum
                   audit_facts.sample_json_Marshal g r (sample_env 7)) in
  dashboard.denyCount (stats g') = 1%Z /\ dashboard.allowCount (stats g') = 0%Z /\
  map (fun line => strings.HasPrefix line "7|GET|/api/public|DENY|Unauthorized||")
      (audit.file (auditLogger g')) = [true].
Proof.
  intros g r g'.
  destruct (C8_audit_wrapper policy_facts.asciiTrimSpace sample_SplitHostPort
              sample_StatusText audit_facts.sample_Format sample_checksum
              audit_facts.sample_json_Marshal g r (sample_env 7))
    as (_ & _ & _ & _ & Hdeny & Hlog).
  destruct Hdeny as [Hd Ha]; [vm_compute; discriminate|].
  split; [exact Hd|]. split; [exact Ha|].
  destruct (Hlog _ eq_refl eq_refl) as [Hfile _].
  fold g' in Hfile. rewrite Hfile. vm_compute. reflexivity.
Defined.

Lemma C10_user_bucket_never_consulted_witness :
  let g := sample_run (sample_start [])
             [ Serve public_get (sample_env 0); Tick gateway_fs;
               Serve (sample_request "POST" "/api/admin" K_ADMIN "application/json" "{}")
                     (sample_env 5) ] in
  ratelimit.userBuckets (limiter g) = Some ∅ /\
  ratelimit.Stats (limiter g) = (1%nat, 0%nat).
Proof.
  intros g.
  destruct (C10_user_bucket_never_consulted policy_facts.asciiTrimSpace gateway_yaml_Unmarshal
              sample_SplitHostPort sample_StatusText audit_facts.sample_Format
              sample_checksum audit_facts.sample_json_Marshal
              [] gateway_fs [] 0
              [ Serve public_get (sample_env 0); Tick gateway_fs;
                Serve (sample_request "POST" "/api/admin" K_ADMIN "application/json" "{}")
                      (sample_env 5) ]) as (Hu & _).
  { repeat constructor. }
  split; [exact Hu|]. vm_compute. reflexivity.
Defined.

End gateway_facts.

(** ** Policy validation and the watcher *)

Module policy_watch.

Import policy.

(** What the engine goes through: loads asked for by a caller and passes
    of a watcher goroutine, each on the file system as it is then. *)
Inductive Op :=
| OpLoad (fs : os.FileSystem) (path : string)
| OpPass (lastMod : Z) (fs : os.FileSystem) (path : string).

Definition opFile (op : Op) : os.FileSystem * string :=
  match op with
  | OpLoad fs path => (fs, path)
  | OpPass _ fs path => (fs, path)
  end.

Section Validator.

Variable yaml_Unmarshal : string -> option PolicyFile.
Variable TrimSpace : string -> string.

Local Abbreviation valid_rule := (policy_facts.valid_rule TrimSpace).
Local Abbreviation Load := (LoadFromFile yaml_Unmarshal TrimSpace).
Local Abbreviation pass := (watchIteration yaml_Unmarshal TrimSpace).

(** The check a rule fails first, in the validator's order, with the
    words of its error. *)
Definition firstViolation (p : Rule) (reason : string) : Prop :=
  (TrimSpace (Method p) = "" /\ reason = "method is required") \/
  (TrimSpace (Method p) <> "" /\ TrimSpace (Path p) = "" /\ reason = "path is required") \/
  (TrimSpace (Method p) <> "" /\ TrimSpace (Path p) <> "" /\
   strings.HasPrefix (Path p) "/" = false /\ reason = "path must start with '/'") \/
  (TrimSpace (Method p) <> "" /\ TrimSpace (Path p) <> "" /\
   strings.HasPrefix (Path p) "/" = true /\ Roles p = [] /\
   reason = "roles must not be empty") \/
  (TrimSpace (Method p) <> "" /\ TrimSpace (Path p) <> "" /\
   strings.HasPrefix (Path p) "/" = true /\ Roles p <> [] /\
   Exists (fun r => TrimSpace r = "") (Roles p) /\
   reason = "role names must not be empty").

Lemma validateRoles_error (i : nat) (roles : list string) (msg : string) :
  validateRoles TrimSpace i roles = Some msg ->
  Exists (fun r => TrimSpace r = "") roles /\
  msg = policyError i "role names must not be empty".
Proof.
  induction roles as [|r rest IH]; simpl; [discriminate|].
  destruct (String.eqb (TrimSpace r) "") eqn:E.
  - apply String.eqb_eq in E. intros H. injection H as <-. split; [now left | reflexivity].
  - intros H. destruct (IH H) as [H1 H2]. split; [now right | exact H2].
Qed.

Lemma validateRule_error (i : nat) (p : Rule) (msg : string) :
  validateRule TrimSpace i p = Some msg ->
  exists reason, firstViolation p reason /\ msg = policyError i reason.
Proof.
  unfold validateRule, firstViolation.
  destruct (String.eqb (TrimSpace (Method p)) "") eqn:Em.
  { apply String.eqb_eq in Em. intros H. injection H as <-. eexists. split; [left; eauto | reflexivity]. }
  apply String.eqb_neq in Em.
  destruct (String.eqb (TrimSpace (Path p)) "") eqn:Ep.
  { apply String.eqb_eq in Ep. intros H. injection H as <-.
    eexists. split; [right; left; eauto | reflexivity]. }
  apply String.eqb_neq in Ep.
  destruct (strings.HasPrefix (Path p) "/") eqn:Eh; simpl.
  2: { intros H. injection H as <-. eexists. split; [do 2 right; left; eauto | reflexivity]. }
  destruct (length (Roles p) =? 0)%nat eqn:El.
  { apply Nat.eqb_eq in El. intros H. injection H as <-.
    eexists. split; [do 3 right; left; repeat split; auto | reflexivity].
    destruct (Roles p); [reflexivity | discriminate El]. }
  apply Nat.eqb_neq in El. intros H. apply validateRoles_error in H. destruct H as [Hex ->].
  eexists. split; [do 4 right; repeat split; auto | reflexivity].
  intros Hn. rewrite Hn in El. apply El. reflexivity.
Qed.

Lemma validateRules_error (ps : list Rule) (i : nat) (msg : string) :
  validateRules TrimSpace i ps = Some msg ->
  exists k p reason,
    ps !! k = Some p /\ Forall valid_rule (take k ps) /\
    firstViolation p reason /\ msg = policyError (i + k) reason.
Proof.
  revert i. induction ps as [|p rest IH]; intros i; simpl; [discriminate|].
  destruct (validateRule TrimSpace i p) as [m|] eqn:E.
  - intros H. injection H as <-. apply validateRule_error in E.
    destruct E as (reason & Hv & ->). exists 0%nat, p, reason.
    rewrite Nat.add_0_r. repeat split; auto.
  - intros H. apply IH in H. destruct H as (k & q & reason & Hk & Hpre & Hv & ->).
    exists (S k), q, reason. rewrite Nat.add_succ_r. repeat split; auto.
    simpl. constructor; [|exact Hpre]. apply (policy_facts.validateRule_spec TrimSpace i), E.
Qed.

(** The validator accepts a policy file exactly when it has a rule and
    all its rules are valid. When it refuses a file that has rules, the
    error names the position of the first rule that is not valid and the
    first check this rule fails. *)
Theorem validatePolicyFile_reports_first_invalid_rule (pf : PolicyFile) :
  (validatePolicyFile TrimSpace pf = None <->
   Policies pf <> [] /\ Forall valid_rule (Policies pf)) /\
  (forall msg, validatePolicyFile TrimSpace pf = Some msg ->
     (Policies pf = [] /\ msg = "policy file contains no policies") \/
     (exists k p reason,
        Policies pf !! k = Some p /\
        Forall valid_rule (take k (Policies pf)) /\
        ~ valid_rule p /\
        firstViolation p reason /\
        msg = "policy[" ++ itoa k ++ "]: " ++ reason)).
Proof.
  split; [apply policy_facts.validatePolicyFile_spec|].
  intros msg. unfold validatePolicyFile.
  destruct (length (Policies pf) =? 0)%nat eqn:El.
  - apply Nat.eqb_eq in El. intros H. injection H as <-. left.
    destruct (Policies pf); [auto | discriminate El].
  - intros H. right. apply validateRules_error in H.
    destruct H as (k & p & reason & Hk & Hpre & Hv & ->).
    exists k, p, reason. repeat split; auto.
    intros Hvalid. apply (policy_facts.validateRule_spec TrimSpace 0) in Hvalid.
    unfold validateRule in Hvalid.
    destruct Hv as [[H _]|[(_ & H & _)|[(_ & _ & H & _)|[(_ & _ & _ & H & _)|(Hm & Hp & Hh & Hr & Hex & _)]]]].
    + apply String.eqb_eq in H. rewrite H in Hvalid. discriminate.
    + apply String.eqb_eq in H. rewrite H in Hvalid.
      destruct (String.eqb (TrimSpace (Method p)) ""); discriminate.
    + rewrite H in Hvalid.
      destruct (String.eqb (TrimSpace (Method p)) ""); [discriminate|].
      destruct (String.eqb (TrimSpace (Path p)) ""); discriminate.
    + rewrite H in Hvalid.
      destruct (String.eqb (TrimSpace (Method p)) ""); [discriminate|].
      destruct (String.eqb (TrimSpace (Path p)) ""); [discriminate|].
      destruct (negb (strings.HasPrefix (Path p) "/")); discriminate.
    + apply String.eqb_neq in Hm, Hp. rewrite Hm, Hp, Hh in Hvalid. simpl in Hvalid.
      destruct (length (Roles p) =? 0)%nat; [discriminate|].
      apply policy_facts.validateRoles_spec in Hvalid.
      apply Exists_exists in Hex. destruct Hex as (r & Hin & Hr0).
      rewrite Forall_forall in Hvalid. apply (Hvalid r); assumption.
Qed.

(** *** The engine over its life *)

Definition apply (e : Engine) (op : Op) : Engine :=
  match op with
  | OpLoad fs path => fst (Load e fs path)
  | OpPass lastMod fs path => fst (pass e lastMod fs path)
  end.

(** What an engine holds is nothing, or the rules of a file that one of
    the operations read, parsed and found valid. *)
Definition installedBy (ops : list Op) (e : Engine) : Prop :=
  (loaded e = false /\ policies e = []) \/
  (loaded e = true /\
   exists op data pf,
     In op ops /\ os.ReadFile (fst (opFile op)) (snd (opFile op)) = Some data /\
     yaml_Unmarshal data = Some pf /\
     Policies pf <> [] /\ Forall valid_rule (Policies pf) /\
     policies e = Policies pf).

Lemma installedBy_more (ops : list Op) (op : Op) (e : Engine) :
  installedBy ops e -> installedBy (ops ++ [op]) e.
Proof.
  intros [H|(Hl & o & data & pf & Hin & H)]; [left; exact H|].
  right. split; [exact Hl|]. exists o, data, pf. split; [|exact H].
  apply in_or_app. now left.
Qed.

Lemma Load_installs (ops : list Op) (op : Op) (e : Engine) :
  installedBy (ops ++ [op]) (fst (Load e (fst (opFile op)) (snd (opFile op)))).
Proof.
  unfold LoadFromFile.
  destruct (os.ReadFile _ _) as [data|] eqn:Er; [|left; auto].
  destruct (yaml_Unmarshal data) as [pf|] eqn:Ey; [|left; auto].
  destruct (validatePolicyFile TrimSpace pf) as [msg|] eqn:Ev; [left; auto|].
  apply policy_facts.validatePolicyFile_spec in Ev. destruct Ev as [Hne Hall].
  right. split; [reflexivity|]. exists op, data, pf. repeat split; auto.
  apply in_or_app. right. now left.
Qed.

Lemma apply_installedBy (ops : list Op) (op : Op) (e : Engine) :
  installedBy ops e -> installedBy (ops ++ [op]) (apply e op).
Proof.
  intros H. destruct op as [fs path|lastMod fs path]; simpl.
  - apply (Load_installs ops (OpLoad fs path)).
  - unfold watchIteration. destruct (os.Stat fs path) as [mt|]; [|left; auto].
    destruct (lastMod <? mt)%Z; [|apply installedBy_more, H].
    pose proof (Load_installs ops (OpPass lastMod fs path) e) as HL. simpl in HL.
    destruct (Load e fs path) as [e' [err|]]; exact HL.
Qed.

(** Whatever loads and watcher passes a new engine goes through, on
    whatever files: [GetPolicies] returns nothing, or all the rules of one
    file that one of these operations read, and every rule it returns is
    valid. It returns nothing exactly when the engine is not loaded. *)
Theorem engine_serves_only_validated_files (ops : list Op) :
  let e := fold_left apply ops NewEngine in
  Forall valid_rule (GetPolicies e) /\
  (GetPolicies e = [] <-> loaded e = false) /\
  (GetPolicies e = [] \/
   exists op data pf,
     In op ops /\ os.ReadFile (fst (opFile op)) (snd (opFile op)) = Some data /\
     yaml_Unmarshal data = Some pf /\ GetPolicies e = Policies pf).
Proof.
  cbv zeta.
  assert (H : installedBy ops (fold_left apply ops NewEngine)).
  { induction ops as [|op ops IH] using rev_ind; [left; auto|].
    rewrite fold_left_app. simpl. apply apply_installedBy, IH. }
  unfold GetPolicies.
  destruct H as [[Hl Hp]|(Hl & op & data & pf & Hin & Hr & Hy & Hne & Hall & Hp)];
    rewrite Hl; simpl.
  - split; [constructor|]. split; [tauto | now left].
  - rewrite Hp. split; [exact Hall|]. split; [split; [tauto | discriminate]|].
    right. exists op, data, pf. auto.
Qed.

(** *** Passes of the watcher *)

(** The watcher's passes over the file systems [fss], from the engine
    [e] and the goroutine's [lastMod]. *)
Definition passes (e : Engine) (lastMod : Z) (path : string) (fss : list os.FileSystem)
  : Engine * Z :=
  fold_left (fun s fs => pass (fst s) (snd s) fs path) fss (e, lastMod).

Lemma Load_any_engine (e e' : Engine) (fs : os.FileSystem) (path : string) :
  Load e fs path = Load e' fs path.
Proof.
  unfold LoadFromFile.
  destruct (os.ReadFile fs path) as [data|]; [|reflexivity].
  destruct (yaml_Unmarshal data) as [pf|]; [|reflexivity].
  destruct (validatePolicyFile TrimSpace pf); reflexivity.
Qed.

(** A second pass over a file system that has not changed since the
    first one changes neither the engine nor [lastMod]: a file that
    loaded is not loaded again, and a file that is missing or does not
    load leaves the engine without rules as the first pass did. *)
Theorem watcher_pass_is_idempotent (e : Engine) (lastMod : Z) (fs : os.FileSystem)
        (path : string) :
  let s := pass e lastMod fs path in
  pass (fst s) (snd s) fs path = s.
Proof.
  cbv zeta. unfold watchIteration.
  destruct (os.Stat fs path) as [mt|] eqn:Es; simpl; [|reflexivity].
  destruct (lastMod <? mt)%Z eqn:Elt.
  - destruct (Load e fs path) as [e' [err|]] eqn:El; simpl.
    + rewrite Elt, (Load_any_engine e' e), El. reflexivity.
    + rewrite Z.ltb_irrefl. reflexivity.
  - simpl. rewrite Elt. reflexivity.
Qed.

Lemma passes_unloaded (path : string) (fss : list os.FileSystem) (e : Engine) (lastMod : Z) :
  loaded e = false ->
  Forall (fun fs => forall mt, os.Stat fs path = Some mt -> mt <= lastMod) fss ->
  loaded (fst (passes e lastMod path fss)) = false /\
  snd (passes e lastMod path fss) = lastMod.
Proof.
  intros Hl HF. revert e Hl. induction HF as [|fs fss Hfs _ IH]; intros e Hl; [auto|].
  unfold passes in *. simpl.
  assert (H1 : pass e lastMod fs path = (e, lastMod) \/
               pass e lastMod fs path = (invalidate e, lastMod)).
  { unfold watchIteration. destruct (os.Stat fs path) as [mt|] eqn:Es; [|now right].
    specialize (Hfs mt eq_refl). destruct (Z.ltb_spec lastMod mt) as [|_]; [lia | now left]. }
  destruct H1 as [-> | ->]; simpl; apply IH; auto.
Qed.

(** Once a pass has found the file missing, the engine serves no rule
    until a pass sees a modification time after [lastMod]: putting the
    file back with the modification time it had, or an older one, brings
    no rule back, however valid the file is. *)
Theorem watcher_stays_deny_all_until_newer_file
        (e : Engine) (lastMod : Z) (path : string)
        (gone : os.FileSystem) (fss : list os.FileSystem) :
  os.Stat gone path = None ->
  Forall (fun fs => forall mt, os.Stat fs path = Some mt -> mt <= lastMod) fss ->
  GetPolicies (fst (passes e lastMod path (gone :: fss))) = [] /\
  snd (passes e lastMod path (gone :: fss)) = lastMod.
Proof.
  intros Hgone HF.
  assert (H1 : pass e lastMod gone path = (invalidate e, lastMod)).
  { unfold watchIteration. rewrite Hgone. reflexivity. }
  destruct (passes_unloaded path fss (invalidate e) lastMod eq_refl HF) as [Hl Hm].
  unfold passes in *. cbn [fold_left fst snd]. rewrite H1.
  split; [|exact Hm]. unfold GetPolicies. rewrite Hl. reflexivity.
Qed.

End Validator.

(** A file whose second rule has a path without a leading slash. *)
Lemma validatePolicyFile_reports_first_invalid_rule_witness :
  let pf := {| Policies := [ policy_facts.sample_rule;
                             {| Method := "GET"; Path := "api"; Roles := ["admin"] |} ] |} in
  validatePolicyFile policy_facts.asciiTrimSpace pf
  = Some "policy[1]: path must start with '/'" /\
  exists k p reason,
    Policies pf !! k = Some p /\
    firstViolation policy_facts.asciiTrimSpace p reason /\
    "policy[1]: path must start with '/'" = "policy[" ++ itoa k ++ "]: " ++ reason.
Proof.
  intros pf.
  assert (H : validatePolicyFile policy_facts.asciiTrimSpace pf
              = Some "policy[1]: path must start with '/'") by reflexivity.
  split; [exact H|].
  destruct (validatePolicyFile_reports_first_invalid_rule policy_facts.asciiTrimSpace pf)
    as [_ Hmsg].
  destruct (Hmsg _ H) as [[Hn _] | (k & p & reason & Hk & _ & _ & Hv & Hm)];
    [discriminate Hn|].
  exists k, p, reason. auto.
Defined.

(** The gateway's policy file is loaded, disappears for one pass and is
    back, unchanged, at the next: the engine keeps serving no rule. *)
Lemma watcher_stays_deny_all_until_newer_file_witness :
  let load := LoadFromFile gateway_facts.gateway_yaml_Unmarshal policy_facts.asciiTrimSpace in
  let e := fst (load NewEngine gateway_facts.gateway_fs gateway.policyPath) in
  length (GetPolicies e) = 2%nat /\
  snd (load (invalidate e) gateway_facts.gateway_fs gateway.policyPath) = None /\
  GetPolicies
    (fst (passes gateway_facts.gateway_yaml_Unmarshal policy_facts.asciiTrimSpace
                 e 100 gateway.policyPath [∅; gateway_facts.gateway_fs])) = [].
Proof.
  intros load e.
  split; [vm_compute; reflexivity|]. split; [vm_compute; reflexivity|].
  apply (watcher_stays_deny_all_until_newer_file
           gateway_facts.gateway_yaml_Unmarshal policy_facts.asciiTrimSpace
           e 100 gateway.policyPath ∅ [gateway_facts.gateway_fs]).
  - reflexivity.
  - constructor; [|constructor]. intros mt H. vm_compute in H. injection H as <-. lia.
Defined.

End policy_watch.

(** ** RBAC: the order of the rules *)

Module rbac_order.

Import http.

(** The RBAC decision depends on the set of rules only. Rules that are
    added never take an access away: what is allowed under a rule list is
    allowed under every list that holds the same rules and more; and two
    lists with the same rules, in whatever order and however often, decide
    every request alike. *)
Theorem rbac_rules_only_add_access (ps qs : list rbac.Policy) (r : Request) :
  (forall p, In p ps -> In p qs) ->
  (rbac.RBACMiddleware {| rbac.Policies := ps |} r = Next r ->
   rbac.RBACMiddleware {| rbac.Policies := qs |} r = Next r) /\
  ((forall p, In p qs -> In p ps) ->
   rbac.RBACMiddleware {| rbac.Policies := ps |} r
   = rbac.RBACMiddleware {| rbac.Policies := qs |} r).
Proof.
  intros Hsub.
  assert (Hmono : forall xs ys identity,
             (forall p, In p xs -> In p ys) ->
             rbac.evaluate xs r identity = true -> rbac.evaluate ys r identity = true).
  { intros xs ys identity Hin H. apply rbac_facts.evaluate_spec in H.
    destruct H as (p & Hp & Ha). apply rbac_facts.evaluate_spec. exists p. auto. }
  unfold rbac.RBACMiddleware. simpl.
  destruct (String.eqb (Path r) "/health"); [auto|].
  destruct (auth.FromContext (Ctx r)) as [identity|]; [|auto].
  split.
  - destruct (rbac.evaluate ps r identity) eqn:E; [|discriminate].
    rewrite (Hmono ps qs identity Hsub E). reflexivity.
  - intros Hsup.
    destruct (rbac.evaluate ps r identity) eqn:E1, (rbac.evaluate qs r identity) eqn:E2;
      try reflexivity.
    + rewrite (Hmono ps qs identity Hsub E1) in E2. discriminate.
    + rewrite (Hmono qs ps identity Hsup E2) in E1. discriminate.
Qed.

(** The rules of the sample set in another order, one of them twice. *)
Lemma rbac_rules_only_add_access_witness :
  let ps := rbac.Policies rbac_facts.sample_policies in
  let r := rbac_facts.rbac_request "GET" "/api/public/items"
             (auth.WithIdentity [] rbac_facts.sample_identity) in
  rbac.RBACMiddleware {| rbac.Policies := rev ps ++ ps |} r = Next r.
Proof.
  intros ps r.
  destruct (rbac_rules_only_add_access ps (rev ps ++ ps) r) as [H _].
  - intros p Hp. apply in_or_app. now right.
  - apply H. reflexivity.
Defined.

End rbac_order.

(** ** Identities in the request context *)

Module auth_context.

Import http auth.

Lemma Value_app_not_bound (extra ctx : Context) (k : CtxKey) :
  Forall (fun kv => fst kv <> k) extra ->
  Value (extra ++ ctx)%list k = Value ctx k.
Proof.
  induction 1 as [|[k' v] extra Hk _ IH]; [reflexivity|].
  simpl in *. destruct (decide (k = k')) as [->|_]; [contradiction | exact IH].
Qed.

(** The identity attached last is the one [FromContext] finds, whatever
    values of other keys are attached after it; attaching an identity
    changes the value of no other key (the limiter's user id among them);
    and a context in which no identity was attached has none. *)
Theorem identity_round_trip (ctx extra : Context) (id : Identity) :
  Forall (fun kv => fst kv <> identityKey) extra ->
  FromContext (extra ++ WithIdentity ctx id)%list = Some id /\
  (forall k, k <> identityKey -> Value (WithIdentity ctx id) k = Value ctx k) /\
  (Forall (fun kv => fst kv <> identityKey) ctx -> FromContext (extra ++ ctx)%list = None).
Proof.
  intros Hextra. split; [|split].
  - unfold FromContext. rewrite (Value_app_not_bound _ _ _ Hextra). simpl.
    destruct (decide (identityKey = identityKey)); [reflexivity | contradiction].
  - intros k Hk. simpl. destruct (decide (k = identityKey)); [contradiction | reflexivity].
  - intros Hctx. unfold FromContext.
    rewrite (Value_app_not_bound _ _ _ Hextra), <- (app_nil_r ctx),
            (Value_app_not_bound _ _ _ Hctx).
    reflexivity.
Qed.

(** An API-key identity, then a bearer-token identity, then a user id. *)
Lemma identity_round_trip_witness :
  let later := {| Type_ := AuthJWT; Subject := "alice"; Roles := ["auditor"];
                  Issuer := "https://issuer.example"; Audience := "gateway" |} in
  FromContext (WithValue (WithIdentity (WithIdentity [] rbac_facts.sample_identity) later)
                         UserIDKey (VString "user-1"))
  = Some later.
Proof.
  intros later.
  apply (identity_round_trip (WithIdentity [] rbac_facts.sample_identity)
                             [(UserIDKey, VString "user-1")] later).
  constructor; [discriminate | constructor].
Defined.

End auth_context.

(** ** The API-key authenticator *)

Module apikey_facts.

Import http auth.

(** The identity built from a key record. *)
Definition identityOf (record : APIKey) : Identity :=
  {| Type_ := AuthAPIKey; Subject := ID record; Roles := KeyRoles record;
     Issuer := ""; Audience := "" |}.



(** A store with one record filed under a key that is not the record's own. *)
Definition sample_store : gmap string APIKey :=
  <["k2" := {| ID := "b"; Key := "other"; KeyRoles := ["user"] |}]>
    (<["k1" := {| ID := "a"; Key := "k1"; KeyRoles := ["admin"] |}]> ∅).



(** *** Generated test keys *)

Definition isHexDigit (c : ascii) : bool :=
  existsb (Ascii.eqb c) (list_ascii_of_string "0123456789abcdef").

Lemma digit_isHexDigit (n : N) : isHexDigit (hex.digit n) = true.
Proof.
  destruct n as [|p]; [reflexivity|].
  do 4 (destruct p as [p|p|]; try reflexivity).
Qed.

Lemma EncodeToString_length (src : string) :
  String.length (hex.EncodeToString src) = (2 * String.length src)%nat.
Proof. induction src as [|c src IH]; simpl; [reflexivity | rewrite IH; lia]. Qed.

Lemma EncodeToString_digits (src : string) :
  forallb isHexDigit (list_ascii_of_string (hex.EncodeToString src)) = true.
Proof.
  induction src as [|c src IH]; [reflexivity|].
  cbn [hex.EncodeToString list_ascii_of_string forallb].
  rewrite !digit_isHexDigit, IH. reflexivity.
Qed.



End apikey_facts.

(** ** Request validation *)

Module validate_facts.

Import http middleware.

Section Validate.

Variable TrimSpace : string -> string.

Local Abbreviation Validate := (ValidateRequestMiddleware TrimSpace).

Lemma isAllowedContentType_spec (ct : string) :
  isAllowedContentType ct = true <->
  exists rest, ct = "application/json" ++ rest \/ ct = "text/plain" ++ rest.
Proof.
  unfold isAllowedContentType, AllowedContentTypes. cbn [existsb].
  rewrite orb_false_r. destruct (String.eqb ct "") eqn:E.
  - apply String.eqb_eq in E. subst ct. split; [discriminate|].
    intros (rest & [H|H]); discriminate H.
  - rewrite orb_true_iff, !rbac_facts.HasPrefix_spec. split.
    + intros [[rest H]|[rest H]]; exists rest; auto.
    + intros (rest & [H|H]); [left | right]; exists rest; exact H.
Qed.

(** The validation middleware hands the request on, unchanged, exactly
    when its User-Agent is not blank, its Content-Type starts with
    "application/json" or "text/plain" unless ContentLength is not
    positive (no body, or a body of unknown length), and its body can be
    read and is at most 1 MiB long. In every other case the answer is 400;
    a blank User-Agent is reported first, on every path, "/health"
    included. *)
Theorem ValidateRequestMiddleware_decision (r : Request) :
  (Validate r = Next r <->
   TrimSpace (HeaderGet r "User-Agent") <> "" /\
   ((ContentLength r <= 0)%Z \/
    exists rest, HeaderGet r "Content-Type" = "application/json" ++ rest \/
                 HeaderGet r "Content-Type" = "text/plain" ++ rest) /\
   BodyErr r = false /\
   (Z.of_nat (String.length (Body r)) <= 1024 * 1024)%Z) /\
  (forall r', Validate r = Next r' -> r' = r) /\
  (forall status msg, Validate r = Reply status msg -> status = 400%Z) /\
  (TrimSpace (HeaderGet r "User-Agent") = "" ->
   Validate r = Reply 400 "missing required header: User-Agent").
Proof.
  unfold ValidateRequestMiddleware, RequiredHeaders. cbn [missingHeader].
  destruct (String.eqb (TrimSpace (HeaderGet r "User-Agent")) "") eqn:Eu.
  { apply String.eqb_eq in Eu. split; [|split; [|split]].
    - split; [discriminate | intros [H _]; contradiction].
    - discriminate.
    - intros status msg H. injection H as <- _. reflexivity.
    - reflexivity. }
  apply String.eqb_neq in Eu.
  assert (Hct : ((0 <? ContentLength r)%Z
                 && negb (isAllowedContentType (HeaderGet r "Content-Type"))) = false <->
                ((ContentLength r <= 0)%Z \/
                 exists rest, HeaderGet r "Content-Type" = "application/json" ++ rest \/
                              HeaderGet r "Content-Type" = "text/plain" ++ rest)).
  { rewrite <- isAllowedContentType_spec.
    destruct (Z.ltb_spec 0 (ContentLength r)); simpl.
    - destruct (isAllowedContentType _); simpl; split; auto; try discriminate.
      intros [Hc|Hc]; [lia | discriminate].
    - split; auto. }
  destruct ((0 <? ContentLength r)%Z
            && negb (isAllowedContentType (HeaderGet r "Content-Type"))) eqn:Ec.
  { split; [|split; [|split]].
    - split; [discriminate|]. intros (_ & H & _). apply Hct in H. discriminate.
    - discriminate.
    - intros status msg H. injection H as <- _. reflexivity.
    - contradiction. }
  assert (Hsz : (MaxRequestBodyBytes <? Z.of_nat (String.length (Body r)))%Z = false <->
                (Z.of_nat (String.length (Body r)) <= 1024 * 1024)%Z).
  { change MaxRequestBodyBytes with 1048576%Z. rewrite Z.ltb_ge. lia. }
  destruct (BodyErr r) eqn:Eb; simpl.
  { split; [|split; [|split]].
    - split; [discriminate|]. intros (_ & _ & H & _). discriminate.
    - discriminate.
    - intros status msg H. injection H as <- _. reflexivity.
    - contradiction. }
  destruct (MaxRequestBodyBytes <? Z.of_nat (String.length (Body r)))%Z eqn:Es.
  { split; [|split; [|split]].
    - split; [discriminate|]. intros (_ & _ & _ & H). apply Hsz in H. discriminate.
    - discriminate.
    - intros status msg H. injection H as <- _. reflexivity.
    - contradiction. }
  split; [|split; [|split]].
  - split; [|reflexivity]. intros _. repeat split; auto.
    + apply Hct. reflexivity.
    + apply Hsz. reflexivity.
  - intros r' H. injection H as <-. reflexivity.
  - discriminate.
  - contradiction.
Qed.

End Validate.

(** A body sent with ContentLength -1 and a Content-Type that is not on
    the list is handed on; the health check without a User-Agent is not. *)
Lemma ValidateRequestMiddleware_decision_witness :
  let chunked :=
    {| Method := "POST"; Path := "/api/admin";
       HeaderGet := fun h => if String.eqb h "User-Agent" then "curl"
                             else if String.eqb h "Content-Type" then "application/xml"
                             else "";
       ContentLength := -1; Body := "<a/>"; BodyErr := false;
       RemoteAddr := "192.0.2.7:51000"; Ctx := [] |} in
  let health :=
    {| Method := "GET"; Path := "/health"; HeaderGet := fun _ => "";
       ContentLength := 0; Body := ""; BodyErr := false;
       RemoteAddr := "192.0.2.7:51000"; Ctx := [] |} in
  ValidateRequestMiddleware policy_facts.asciiTrimSpace chunked = Next chunked /\
  ValidateRequestMiddleware policy_facts.asciiTrimSpace health
  = Reply 400 "missing required header: User-Agent".
Proof.
  intros chunked health.
  destruct (ValidateRequestMiddleware_decision policy_facts.asciiTrimSpace chunked)
    as (Hok & _).
  destruct (ValidateRequestMiddleware_decision policy_facts.asciiTrimSpace health)
    as (_ & _ & _ & Hua).
  split.
  - apply Hok. split; [discriminate|]. split; [left; simpl; lia|].
    split; [reflexivity | simpl; lia].
  - apply Hua. reflexivity.
Defined.

End validate_facts.

(** ** Audit log: truncation, deletion, reading back *)

Module audit_reading.

Import audit audit_facts.

Section Reading.

Variable Format_RFC3339Nano : time.Time -> string.
Variable sha256_Sum : string -> string.
Variable json_Marshal : Entry -> option string.
Variable json_Unmarshal : string -> option Entry.

Local Abbreviation computeHash := (audit.computeHash Format_RFC3339Nano sha256_Sum).
Local Abbreviation verifyLines :=
  (audit.verifyLines Format_RFC3339Nano sha256_Sum json_Unmarshal).
Local Abbreviation VerifyLogIntegrity :=
  (audit.VerifyLogIntegrity Format_RFC3339Nano sha256_Sum json_Unmarshal).
Local Abbreviation verifyFrom :=
  (audit_facts.verifyFrom Format_RFC3339Nano sha256_Sum json_Unmarshal).
Local Abbreviation healthy :=
  (audit_facts.healthy Format_RFC3339Nano sha256_Sum json_Marshal json_Unmarshal).
Local Abbreviation logAll := (audit_facts.logAll Format_RFC3339Nano sha256_Sum json_Marshal).
Local Abbreviation entriesOf :=
  (audit_facts.entriesOf Format_RFC3339Nano sha256_Sum json_Marshal).
Local Abbreviation decodes := (audit_facts.decodes json_Unmarshal).
Local Abbreviation scanned := (audit_facts.scanned json_Unmarshal).
Local Abbreviation chained := (audit_facts.chained Format_RFC3339Nano sha256_Sum).
Local Abbreviation decodeLines := (auditlog.decodeLines json_Unmarshal).
Local Abbreviation ReadLastEntries := (auditlog.ReadLastEntries json_Unmarshal).

(** *** Truncation *)

Lemma verifyLines_prefix (prev : string) (lines rest : list string) :
  verifyLines prev (lines ++ rest)%list = None -> verifyLines prev lines = None.
Proof.
  revert prev. induction lines as [|line lines IH]; intros prev H; [reflexivity|].
  simpl in *. destruct (json_Unmarshal line) as [e|]; [|discriminate].
  destruct (negb (String.eqb (PrevHash e) prev)); [discriminate|].
  destruct (negb (String.eqb (Hash e) (computeHash e))); [discriminate|].
  apply IH, H.
Qed.

Lemma accepted_lines_short (lines : list string) :
  VerifyLogIntegrity (readable lines) = None -> Forall short lines.
Proof.
  intros H. apply Forall_forall. intros line Hin.
  destruct (bufio.tooLong line) eqn:E; [|exact E]. exfalso.
  unfold readable in H. rewrite VerifyLogIntegrity_verifyFrom in H. revert H.
  apply verifyFrom_unscanned. right. apply Exists_exists. exists line. split; assumption.
Qed.

(** A log that verifies still verifies when it is cut off after any of
    its lines, the empty file included: entries removed from the end of
    the log are not missed. *)
Theorem verifier_accepts_every_truncation (lines : list string) (k : nat) :
  VerifyLogIntegrity (readable lines) = None ->
  VerifyLogIntegrity (readable (take k lines)) = None.
Proof.
  intros H. pose proof (accepted_lines_short _ H) as Hs.
  unfold readable in *. rewrite VerifyLogIntegrity_verifyFrom in *.
  cbn [bufio.rawLines bufio.readErr] in *.
  rewrite verifyFrom_short in H by exact Hs.
  rewrite verifyFrom_short by (apply Forall_take, Hs).
  unfold tokens in *. rewrite fmap_take.
  apply (verifyLines_prefix _ _ (drop k (bufio.dropCR <$> lines))).
  rewrite take_drop. exact H.
Qed.

(** *** Deletion *)

(** In the log of a session whose entries have pairwise distinct,
    non-empty hashes, the verifier misses a deleted line exactly when it
    was the last one. *)
Theorem deleted_line_is_missed_only_at_the_end (calls : list Call) (k : nat) :
  healthy (NewLogger []) calls ->
  NoDup ("" :: map Hash (entriesOf (NewLogger []) calls)) ->
  (k < length (file (logAll (NewLogger []) calls)))%nat ->
  (VerifyLogIntegrity (readable (delete k (file (logAll (NewLogger []) calls)))) = None
   <-> S k = length (file (logAll (NewLogger []) calls))).
Proof.
  intros Hh Hnd Hk.
  destruct (healthy_file _ _ _ _ calls (NewLogger []) Hh) as (lines & Hf & HF & Hc).
  simpl in Hf, Hc. rewrite Hf in *. clear Hf.
  set (es := entriesOf (NewLogger []) calls) in *.
  destruct (scanned_tokens _ _ _ HF) as [Hs Hd].
  pose proof (Forall2_length _ _ _ HF) as Hlen.
  assert (Hdel : delete k lines = (take k lines ++ drop (S k) lines)%list)
    by (rewrite delete_take_drop; reflexivity).
  rewrite Hdel. split.
  - intros Hok. destruct (decide (S k = length lines)) as [E|E]; [exact E | exfalso].
    destruct (lookup_lt_is_Some_2 lines (S k)) as [next Hnext]; [lia|].
    rewrite (drop_S _ _ _ Hnext) in Hok. revert Hok.
    apply verify_rejects. unfold tokens. rewrite fmap_app, fmap_take, fmap_cons.
    apply (verify_prefix_then_bad _ _ _ _ es); [exact Hd | exact Hc |].
    intros e He.
    destruct (Forall2_lookup_l _ _ _ _ _ HF Hnext) as (e' & He' & [_ Hde']).
    unfold audit_facts.decodes in *. assert (e = e') by congruence. subst e'.
    destruct (chained_lookup _ _ _ _ _ _ Hc He') as [Hp _]. left. rewrite Hp. intros Heq.
    pose proof (lastOf_lookup "" es (S k) ltac:(lia)) as L1.
    pose proof (lastOf_lookup "" es k ltac:(lia)) as L0.
    rewrite Heq in L1. pose proof (NoDup_lookup _ _ _ _ Hnd L1 L0). lia.
  - intros E. rewrite drop_ge by lia. rewrite app_nil_r.
    apply (verify_healthy _ _ _ _ (take k es)).
    + apply Forall2_take, HF.
    + apply chained_take, Hc.
Qed.

(** *** Reading the log back *)

Lemma scanLines_error (lines : list string) (readErr : bool) :
  readErr = true \/ Exists (fun line => bufio.tooLong line = true) lines ->
  snd (bufio.scanLines lines readErr) <> None.
Proof.
  induction lines as [|line lines IH]; intros H.
  - destruct H as [-> | H]; [discriminate | inversion H].
  - cbn [bufio.scanLines]. destruct (bufio.tooLong line) eqn:El; [discriminate|].
    assert (H' : readErr = true \/ Exists (fun line => bufio.tooLong line = true) lines).
    { destruct H as [H|H]; [now left | right].
      inversion H as [? ? Hl | ? ? Hr]; subst; [congruence | exact Hr]. }
    specialize (IH H'). destruct (bufio.scanLines lines readErr) as [toks err]. exact IH.
Qed.

(** [ReadLastEntries(path, n)], for a file that is scanned to its end and
    [n] not negative, returns the entries of the lines that decode, in the
    order of the file, cut down to the last [n] when there are more; no
    hash is looked at. A file that cannot be opened gives no entries and
    no error. When a line has 64 KiB or more, or reading fails, the result
    is the scanner's error, whatever [n] is; and a negative [n] makes the
    slice expression panic. *)
Theorem ReadLastEntries_returns_the_last_entries (r : bufio.Reader) (n : Z) :
  ReadLastEntries None n = auditlog.Entries [] /\
  (bufio.readErr r = true \/
   Exists (fun line => bufio.tooLong line = true) (bufio.rawLines r) ->
   exists err, ReadLastEntries (Some r) n = auditlog.ScanError err) /\
  (bufio.readErr r = false -> Forall short (bufio.rawLines r) ->
   (n < 0 -> ReadLastEntries (Some r) n = auditlog.SliceBoundsOutOfRange) /\
   (0 <= n ->
    exists older kept,
      decodeLines (tokens (bufio.rawLines r)) = (older ++ kept)%list /\
      ReadLastEntries (Some r) n = auditlog.Entries kept /\
      length kept = Nat.min (Z.to_nat n) (length (decodeLines (tokens (bufio.rawLines r)))))).
Proof.
  split; [reflexivity|]. split.
  - intros H. apply scanLines_error in H. unfold auditlog.ReadLastEntries, bufio.Scan.
    destruct (bufio.scanLines (bufio.rawLines r) (bufio.readErr r)) as [toks [err|]];
      [eauto | contradiction H; reflexivity].
  - intros Hr Hs. unfold auditlog.ReadLastEntries, bufio.Scan.
    rewrite (scanLines_short _ _ Hs), Hr.
    set (decoded := decodeLines (tokens (bufio.rawLines r))). split.
    + intros Hn. destruct (Z.leb_spec (Z.of_nat (length decoded)) n); [lia|].
      destruct (Z.ltb_spec n 0); [reflexivity | lia].
    + intros Hn. destruct (Z.leb_spec (Z.of_nat (length decoded)) n).
      * exists [], decoded. split; [reflexivity|]. split; [reflexivity | lia].
      * destruct (Z.ltb_spec n 0); [lia|].
        exists (take (length decoded - Z.to_nat n) decoded),
               (drop (length decoded - Z.to_nat n) decoded).
        split; [rewrite take_drop; reflexivity|]. split; [reflexivity|].
        rewrite length_drop. lia.
Qed.

Lemma decodeLines_decoded (toks : list string) (es : list Entry) :
  Forall2 decodes toks es -> decodeLines toks = es.
Proof.
  induction 1 as [|tok e toks es Hd _ IH]; [reflexivity|].
  simpl. unfold audit_facts.decodes in Hd. rewrite Hd, IH. reflexivity.
Qed.

(** What one logger has written from an empty file is what
    [ReadLastEntries] returns: the entries that [Log] built, in the order
    of the calls, the last [n] of them when there are more than [n]. *)
Theorem ReadLastEntries_returns_what_Log_wrote (calls : list Call) (n : Z) :
  healthy (NewLogger []) calls ->
  0 <= n ->
  ReadLastEntries (readable (file (logAll (NewLogger []) calls))) n
  = auditlog.Entries (drop (length calls - Z.to_nat n) (entriesOf (NewLogger []) calls)).
Proof.
  intros Hh Hn.
  destruct (healthy_file _ _ _ _ calls (NewLogger []) Hh) as (lines & Hf & HF & Hc).
  simpl in Hf. rewrite Hf. clear Hf.
  destruct (scanned_tokens _ _ _ HF) as [Hs Hd].
  unfold readable, auditlog.ReadLastEntries, bufio.Scan. cbn [bufio.rawLines bufio.readErr].
  rewrite (scanLines_short _ _ Hs), (decodeLines_decoded _ _ Hd).
  assert (Hlen : length (entriesOf (NewLogger []) calls) = length calls).
  { unfold audit_facts.entriesOf. rewrite length_map. clear.
    generalize (NewLogger []). induction calls as [|c calls IH]; intros l; simpl;
      [reflexivity | rewrite IH; reflexivity]. }
  rewrite Hlen.
  destruct (Z.leb_spec (Z.of_nat (length calls)) n).
  - replace (length calls - Z.to_nat n)%nat with 0%nat by lia. reflexivity.
  - destruct (Z.ltb_spec n 0); [lia | reflexivity].
Qed.

End Reading.

(** The sample log cut off after its second line. *)
Lemma verifier_accepts_every_truncation_witness :
  sample_Verify sample_file = None /\ sample_Verify (take 2 sample_file) = None.
Proof.
  assert (H : sample_Verify sample_file = None) by (vm_compute; reflexivity).
  split; [exact H|].
  apply (verifier_accepts_every_truncation sample_Format sample_digest
           (sample_json_Unmarshal sample_known) sample_file 2 H).
Defined.

(** The sample log without its second line, and without its third. *)
Lemma deleted_line_is_missed_only_at_the_end_witness :
  sample_Verify (delete 1%nat sample_file) <> None /\
  sample_Verify (delete 2%nat sample_file) = None.
Proof.
  pose proof (deleted_line_is_missed_only_at_the_end sample_Format sample_digest
                sample_json_Marshal (sample_json_Unmarshal sample_known) sample_calls)
    as H.
  split.
  - intros Hok.
    apply (H 1%nat sample_healthy sample_hashes_distinct) in Hok; [|vm_compute; lia].
    vm_compute in Hok. discriminate Hok.
  - apply (H 2%nat sample_healthy sample_hashes_distinct); [vm_compute; lia|].
    vm_compute. reflexivity.
Defined.

(** The sample log with a line that does not decode in its middle, read
    back with [n = 2]; and the same file when reading it fails. *)
Lemma ReadLastEntries_returns_the_last_entries_witness :
  let lines := (take 1 sample_file ++ "{}" :: drop 1 sample_file)%list in
  auditlog.ReadLastEntries (sample_json_Unmarshal sample_known) (readable lines) 2
  = auditlog.Entries (drop 1 sample_entries) /\
  exists err,
    auditlog.ReadLastEntries (sample_json_Unmarshal sample_known)
      (Some {| bufio.rawLines := lines; bufio.readErr := true |}) 2
    = auditlog.ScanError err.
Proof.
  intros lines.
  destruct (ReadLastEntries_returns_the_last_entries (sample_json_Unmarshal sample_known)
              {| bufio.rawLines := lines; bufio.readErr := true |} 2)
    as (_ & Herr & _).
  split; [vm_compute; reflexivity|].
  apply Herr. left. reflexivity.
Defined.

Lemma ReadLastEntries_returns_what_Log_wrote_witness :
  auditlog.ReadLastEntries (sample_json_Unmarshal sample_known) (readable sample_file) 2
  = auditlog.Entries (drop 1 sample_entries).
Proof.
  apply (ReadLastEntries_returns_what_Log_wrote sample_Format sample_digest
           sample_json_Marshal (sample_json_Unmarshal sample_known) sample_calls 2
           sample_healthy).
  lia.
Defined.

End audit_reading.

(** ** The dashboard's audit view *)

Module dashboard_audit_facts.

Import audit dashboard_audit.

Section View.

Variable Atoi : string -> option Z.
Variable Format_RFC3339 : time.Time -> string.
Variable json_Unmarshal : string -> option Entry.

Local Abbreviation limitOf := (dashboard_audit.limitOf Atoi).
Local Abbreviation serveAudit :=
  (dashboard_audit.serveAudit Atoi Format_RFC3339 json_Unmarshal).

Lemma limitOf_range (s : string) : 1 <= limitOf s <= 200.
Proof.
  unfold dashboard_audit.limitOf. destruct (negb (String.eqb s "")); [|lia].
  destruct (Atoi s) as [n|]; [|lia].
  destruct (Z.ltb_spec 0 n); simpl; [|lia].
  destruct (Z.leb_spec n 200); lia.
Qed.

(** Whatever the [limit] parameter of the request holds, [serveAudit]
    asks for between 1 and 200 entries, 50 unless the parameter is a
    number in that range: the handler never panics, answers 500 exactly
    when the scanner fails on the audit file, and otherwise writes at most
    [limit] entries, none at all when the file cannot be opened. *)
Theorem serveAudit_is_bounded (auditFile : option bufio.Reader) (s : string) :
  1 <= limitOf s <= 200 /\
  (forall n, Atoi s = Some n -> 1 <= n <= 200 -> s <> "" -> limitOf s = n) /\
  ((s = "" \/ Atoi s = None \/ exists n, Atoi s = Some n /\ (n < 1 \/ 200 < n)) ->
   limitOf s = 50) /\
  serveAudit auditFile s <> AuditPanic /\
  (serveAudit auditFile s = AuditReadFailed <->
   exists r, auditFile = Some r /\ snd (bufio.Scan r) <> None) /\
  (forall dtos, serveAudit auditFile s = AuditEntries dtos ->
     Z.of_nat (length dtos) <= limitOf s) /\
  serveAudit None s = AuditEntries [].
Proof.
  pose proof (limitOf_range s) as Hr.
  split; [exact Hr|]. split; [|split].
  - intros n Hn Hrange Hs. unfold dashboard_audit.limitOf.
    apply String.eqb_neq in Hs. rewrite Hs, Hn. cbn [negb].
    destruct (Z.ltb_spec 0 n); [|lia]. destruct (Z.leb_spec n 200); [reflexivity | lia].
  - intros H. unfold dashboard_audit.limitOf.
    destruct (String.eqb s "") eqn:Es; [reflexivity|]. cbn [negb].
    destruct H as [-> | [-> | (n & -> & Hn)]]; [discriminate Es | reflexivity |].
    destruct (Z.ltb_spec 0 n); simpl; [|reflexivity].
    destruct (Z.leb_spec n 200); [lia | reflexivity].
  - unfold dashboard_audit.serveAudit, auditlog.ReadLastEntries.
    destruct auditFile as [r|].
    2: { split; [discriminate|]. split; [|split; [|reflexivity]].
         - split; [discriminate | intros (r & H & _); discriminate].
         - intros dtos H. injection H as <-. simpl. lia. }
    destruct (bufio.Scan r) as [lines [err|]] eqn:Escan; simpl.
    { split; [discriminate|]. split; [|split; [|reflexivity]].
      - split; [|reflexivity]. intros _. exists r. rewrite Escan.
        split; [reflexivity | discriminate].
      - discriminate. }
    set (entries := auditlog.decodeLines json_Unmarshal lines).
    destruct (Z.leb_spec (Z.of_nat (length entries)) (limitOf s)).
    { split; [discriminate|]. split; [|split; [|reflexivity]].
      - split; [discriminate|]. intros (r' & H' & Herr). injection H' as <-.
        rewrite Escan in Herr. contradiction Herr. reflexivity.
      - intros dtos Hd. injection Hd as <-. rewrite length_map. lia. }
    destruct (Z.ltb_spec (limitOf s) 0); [lia|].
    split; [discriminate|]. split; [|split; [|reflexivity]].
    + split; [discriminate|]. intros (r' & H' & Herr). injection H' as <-.
      rewrite Escan in Herr. contradiction Herr. reflexivity.
    + intros dtos Hd. injection Hd as <-. rewrite length_map, length_drop. lia.
Qed.

End View.

End dashboard_audit_facts.

(** ** The limiter over a run of requests *)

Module limiter_facts.

Import http ratelimit.

(** The bucket [b] with its clock reading moved by [d] nanoseconds. *)
Definition shift (d : Z) (b : bucket) : bucket :=
  {| capacity := capacity b; tokens := tokens b; refillPS := refillPS b;
     last := last b + d |}.

(** One call of [safeAllow]: the context and the remote address of the
    request, and what [l.clock.Now()] and [time.Now()] return during it. *)
Record Hit := {
  hitCtx : Context;
  hitAddr : string;
  hitNow : Z;
  hitWall : Z
}.

(** The user id that [safeAllow] finds in the context, empty when there
    is none or the value is not a string. *)
Definition userID (ctx : Context) : string :=
  match Value ctx UserIDKey with
  | Some (VString uid) => uid
  | _ => ""
  end.

Definition ipBucket (l : Limiter) (ip : string) : option bucket :=
  match ipBuckets l with
  | Some m => m !! ip
  | None => None
  end.

Definition userBucket (l : Limiter) (uid : string) : option bucket :=
  match userBuckets l with
  | Some m => m !! uid
  | None => None
  end.

(** The verdicts [oks] of the hits [hs] that come from [ip], and the clock
    readings of those hits. *)
Section Picking.

Variable SplitHostPort : string -> option (string * string).

Fixpoint verdictsOf (ip : string) (hs : list Hit) (oks : list bool) : list bool :=
  match hs, oks with
  | h :: hs', ok :: oks' =>
      if String.eqb (extractIP SplitHostPort (hitAddr h)) ip
      then ok :: verdictsOf ip hs' oks'
      else verdictsOf ip hs' oks'
  | _, _ => []
  end.

Fixpoint instantsOf (ip : string) (hs : list Hit) : list Z :=
  match hs with
  | [] => []
  | h :: hs' =>
      if String.eqb (extractIP SplitHostPort (hitAddr h)) ip
      then hitNow h :: instantsOf ip hs'
      else instantsOf ip hs'
  end.

(** The calls of [safeAllow] for the hits [hs], one after the other. *)
Fixpoint safeAllowAll (l : Limiter) (fb : bucket) (hs : list Hit)
  : Limiter * bucket * list bool :=
  match hs with
  | [] => (l, fb, [])
  | h :: rest =>
      let '(l1, fb1, ok) :=
        safeAllow SplitHostPort l fb (hitCtx h) (hitAddr h) (hitNow h) (hitWall h) in
      let '(l2, fb2, oks) := safeAllowAll l1 fb1 rest in
      (l2, fb2, ok :: oks)
  end.

End Picking.

(** *** Time *)

Lemma Sub_shift (now t d : Z) : time.Sub (now + d) (t + d) = time.Sub now t.
Proof. unfold time.Sub. replace (now + d - (t + d)) with (now - t) by lia. reflexivity. Qed.

Lemma allow_shift (d : Z) (b : bucket) (now : Z) :
  allow (shift d b) (now + d) = (shift d (fst (allow b now)), snd (allow b now)).
Proof.
  unfold allow, shift. cbn [capacity tokens refillPS last]. rewrite Sub_shift.
  destruct (_ <? 1)%float; reflexivity.
Qed.

(** A bucket reads the clock only through the time elapsed since its last
    request: when the bucket's clock reading and all the instants of the
    requests are moved by the same [d], the verdicts are the same, and so
    is the bucket that is left, moved by [d]. A new bucket made at
    [t + d] is the one made at [t], moved by [d]. *)
Theorem bucket_reads_only_elapsed_time (d : Z) (b : bucket) (ts : list Z) :
  serve (shift d b) ((fun t => t + d) <$> ts)
  = (shift d (fst (serve b ts)), snd (serve b ts)) /\
  forall c r t, newBucket c r (t + d) = shift d (newBucket c r t).
Proof.
  split; [|reflexivity].
  revert b. induction ts as [|t ts IH]; intros b; [reflexivity|].
  cbn [serve fmap list_fmap]. rewrite allow_shift.
  destruct (allow b t) as [b1 ok]. cbn [fst snd].
  rewrite IH. destruct (serve b1 ts) as [b2 oks]. reflexivity.
Qed.

(** Requests at the very instant the bucket was last used. *)
Lemma serve_same_instant (c : Z) (tk rf : float) (t : Z) (n : nat) :
  snd (serve {| capacity := c; tokens := tk; refillPS := rf; last := t |} (repeat t n))
  = snd (serve {| capacity := c; tokens := tk; refillPS := rf; last := 0 |} (repeat 0 n)).
Proof.
  revert tk. induction n as [|n IH]; intros tk; [reflexivity|].
  cbn [repeat serve].
  pose proof (allow_shift t {| capacity := c; tokens := tk; refillPS := rf; last := 0 |} 0) as H.
  unfold shift in H. cbn [capacity tokens refillPS last] in H.
  change (0 + t) with t in H. rewrite H. clear H.
  destruct (allow {| capacity := c; tokens := tk; refillPS := rf; last := 0 |} 0)
    as [[c1 tk1 rf1 l1] ok] eqn:E.
  assert (Hc : c1 = c /\ rf1 = rf /\ l1 = 0).
  { unfold allow in E. cbn [capacity tokens refillPS last] in E.
    destruct (_ <? 1)%float in E; injection E as <- _ <- <- _; auto. }
  destruct Hc as (-> & -> & ->). cbn [fst snd shift capacity tokens refillPS last].
  change (0 + t) with t. specialize (IH tk1).
  destruct (serve {| capacity := c; tokens := tk1; refillPS := rf; last := t |} (repeat t n))
    as [b2 oks].
  destruct (serve {| capacity := c; tokens := tk1; refillPS := rf; last := 0 |} (repeat 0 n))
    as [b2' oks'].
  cbn [snd] in *. rewrite IH. reflexivity.
Qed.

Section Runs.

Variable SplitHostPort : string -> option (string * string).

Local Abbreviation extractIP := (ratelimit.extractIP SplitHostPort).
Local Abbreviation safeAllow := (ratelimit.safeAllow SplitHostPort).
Local Abbreviation safeAllowAll := (limiter_facts.safeAllowAll SplitHostPort).
Local Abbreviation verdictsOf := (limiter_facts.verdictsOf SplitHostPort).
Local Abbreviation instantsOf := (limiter_facts.instantsOf SplitHostPort).

(** A hit with an address that parses and without a user id. *)
Definition anonymous (h : Hit) : Prop :=
  extractIP (hitAddr h) <> "" /\ userID (hitCtx h) = "".

(** *** One call *)

Ltac finish :=
  cbn [fst snd ipBuckets userBuckets];
  repeat split; auto; try lia; try (intros [? ?]; discriminate);
  match goal with
  | H : forall A (x : A), is_Some (Some x) |- _ => try apply H
  end.

Lemma safeAllow_anonymous (l : Limiter) (fb : bucket) (h : Hit) (ipm : gmap string bucket) :
  ipBuckets l = Some ipm -> anonymous h ->
  safeAllow l fb (hitCtx h) (hitAddr h) (hitNow h) (hitWall h)
  = (let b := default (newBucket IPBucketCapacity IPRefillPerSecond (hitNow h))
                      (ipm !! extractIP (hitAddr h)) in
     ({| ipBuckets := Some (<[extractIP (hitAddr h) := fst (allow b (hitNow h))]> ipm);
         userBuckets := userBuckets l |}, fb, snd (allow b (hitNow h)))).
Proof.
  intros Hm [Hip Hu]. unfold ratelimit.safeAllow. cbv zeta. rewrite Hm.
  apply String.eqb_neq in Hip. rewrite Hip.
  replace (match ipm !! extractIP (hitAddr h) with
           | Some b => b
           | None => newBucket IPBucketCapacity IPRefillPerSecond (hitNow h)
           end)
    with (default (newBucket IPBucketCapacity IPRefillPerSecond (hitNow h))
                  (ipm !! extractIP (hitAddr h)))
    by (destruct (ipm !! extractIP (hitAddr h)); reflexivity).
  destruct (allow _ (hitNow h)) as [b1 ok]. cbn [fst snd].
  destruct ok; cbn [negb]; [|reflexivity].
  unfold userID in Hu.
  destruct (Value (hitCtx h) UserIDKey) as [[id|uid|n]|]; try reflexivity.
  subst uid. reflexivity.
Qed.

Lemma safeAllow_fallback (l : Limiter) (fb : bucket) (ctx : Context) (addr : string)
      (now wall : Z) :
  ipBuckets l = None \/ extractIP addr = "" ->
  safeAllow l fb ctx addr now wall = (l, fst (allow fb wall), snd (allow fb wall)).
Proof.
  intros H. unfold ratelimit.safeAllow, fallbackAllow. cbv zeta.
  destruct (allow fb wall) as [fb' ok]. cbn [fst snd].
  destruct (String.eqb (extractIP addr) "") eqn:E; [reflexivity|].
  destruct H as [-> | H]; [reflexivity|].
  apply String.eqb_neq in E. contradiction.
Qed.

(** What one call never does: it removes no bucket, it adds at most the
    caller's two, and it leaves the buckets of every other address and of
    every other user as they are. *)
Lemma safeAllow_step (l : Limiter) (fb : bucket) (ctx : Context) (addr : string)
      (now wall : Z) :
  let l' := fst (fst (safeAllow l fb ctx addr now wall)) in
  (forall ip, ip <> extractIP addr -> ipBucket l' ip = ipBucket l ip) /\
  (forall uid, uid <> userID ctx -> userBucket l' uid = userBucket l uid) /\
  (forall ip, is_Some (ipBucket l ip) -> is_Some (ipBucket l' ip)) /\
  (forall uid, is_Some (userBucket l uid) -> is_Some (userBucket l' uid)) /\
  (fst (Stats l) <= fst (Stats l') <= S (fst (Stats l)))%nat /\
  (snd (Stats l) <= snd (Stats l') <= S (snd (Stats l)))%nat /\
  (ipBuckets l <> None -> extractIP addr <> "" -> is_Some (ipBucket l' (extractIP addr))) /\
  (is_Some (ipBuckets l) <-> is_Some (ipBuckets l')) /\
  (is_Some (userBuckets l) <-> is_Some (userBuckets l')).
Proof.
  assert (Hins : forall (m : gmap string bucket) k b,
             (forall k', k' <> k -> <[k := b]> m !! k' = m !! k') /\
             (forall k', is_Some (m !! k') -> is_Some (<[k := b]> m !! k')) /\
             (size m <= size (<[k := b]> m) <= S (size m))%nat /\
             is_Some (<[k := b]> m !! k)).
  { intros m k b. repeat split.
    - intros k' Hk. apply lookup_insert_ne. congruence.
    - intros k' Hk. destruct (decide (k = k')) as [->|Hne].
      + rewrite lookup_insert_eq. eauto.
      + rewrite lookup_insert_ne by exact Hne. exact Hk.
    - rewrite map_size_insert. destruct (m !! k); simpl; lia.
    - rewrite map_size_insert. destruct (m !! k); simpl; lia.
    - rewrite lookup_insert_eq. eauto. }
  assert (Hsome : forall A (x : A), is_Some (Some x)) by eauto.
  unfold ratelimit.safeAllow, fallbackAllow, userID, ipBucket, userBucket, Stats, len.
  cbv zeta. destruct (allow fb wall) as [fb' fok].
  destruct (String.eqb (extractIP addr) "") eqn:Eip.
  { cbn [fst snd]. apply String.eqb_eq in Eip.
    repeat split; auto; try lia; try contradiction. }
  destruct (ipBuckets l) as [ipm|] eqn:Em.
  2: { cbn [fst snd]. rewrite Em.
       repeat split; auto; try lia; try contradiction. }
  destruct (allow (match ipm !! extractIP addr with Some b => b | None => _ end) now)
    as [ib iok].
  destruct (Hins ipm (extractIP addr) ib) as (I1 & I2 & I3 & I4).
  destruct iok; cbn [negb]; [|finish].
  destruct (Value ctx UserIDKey) as [[id|uid|n]|]; [finish | | finish | finish].
  destruct (String.eqb uid "") eqn:Eu; [finish|].
  destruct (userBuckets l) as [um|] eqn:Eum; [|finish].
  destruct (allow (match um !! uid with Some b => b | None => _ end) now) as [ub uok].
  destruct (Hins um uid ub) as (U1 & U2 & U3 & U4).
  finish.
Qed.

(** *** Runs *)

Lemma safeAllowAll_anonymous (ip : string) (hs : list Hit) :
  forall (l : Limiter) (fb : bucket) (ipm : gmap string bucket),
    ipBuckets l = Some ipm -> Forall anonymous hs ->
    exists ipm',
      safeAllowAll l fb hs
      = ({| ipBuckets := Some ipm'; userBuckets := userBuckets l |}, fb,
         snd (safeAllowAll l fb hs)) /\
      let b := default (newBucket IPBucketCapacity IPRefillPerSecond
                                  (hd 0 (instantsOf ip hs))) (ipm !! ip) in
      verdictsOf ip hs (snd (safeAllowAll l fb hs)) = snd (serve b (instantsOf ip hs)) /\
      ipm' !! ip = match instantsOf ip hs with
                   | [] => ipm !! ip
                   | _ :: _ => Some (fst (serve b (instantsOf ip hs)))
                   end.
Proof.
  induction hs as [|h hs IH]; intros l fb ipm Hm Hall.
  { exists ipm. cbn. rewrite <- Hm. destruct l; auto. }
  inversion Hall as [|? ? Hh Hrest]; subst.
  cbn [limiter_facts.safeAllowAll]. rewrite (safeAllow_anonymous l fb h ipm Hm Hh). cbv zeta.
  set (bh := default (newBucket IPBucketCapacity IPRefillPerSecond (hitNow h))
                     (ipm !! extractIP (hitAddr h))).
  set (l1 := {| ipBuckets := Some (<[extractIP (hitAddr h) := fst (allow bh (hitNow h))]> ipm);
                userBuckets := userBuckets l |}).
  destruct (IH l1 fb _ eq_refl Hrest) as (ipm' & Hrun & Hv & Hb).
  rewrite Hrun. cbn [snd fst userBuckets l1]. exists ipm'. split; [reflexivity|].
  cbn [limiter_facts.verdictsOf limiter_facts.instantsOf].
  cbv zeta in Hv, Hb.
  destruct (String.eqb (extractIP (hitAddr h)) ip) eqn:E.
  - apply String.eqb_eq in E. subst bh. rewrite E in *. clear E.
    rewrite lookup_insert_eq in Hv, Hb. cbn [default] in Hv, Hb.
    cbn [hd serve].
    destruct (allow (default (newBucket IPBucketCapacity IPRefillPerSecond (hitNow h))
                             (ipm !! ip)) (hitNow h)) as [b1 ok].
    cbn [fst snd] in *. change (id b1) with b1 in *. rewrite Hv.
    destruct (serve b1 (instantsOf ip hs)) as [b2 oks] eqn:Es. cbn [fst snd] in *.
    split; [reflexivity|].
    rewrite Hb. destruct (instantsOf ip hs); [|reflexivity].
    cbn in Es. injection Es as <- _. reflexivity.
  - apply String.eqb_neq in E.
    rewrite lookup_insert_ne in Hv, Hb by exact E. split; [exact Hv | exact Hb].
Qed.

(** Requests that carry no user id and whose addresses parse, from any
    mix of clients, on a limiter made by [NewLimiter] or used since: the
    verdicts that one address gets are those of a single token bucket
    serving the instants of its own requests, whatever the other
    addresses send in between. That bucket is the one stored for the
    address, or a full one made at its first request, and it is what the
    limiter stores for the address afterwards. The fallback bucket and the
    user buckets are not touched. *)
Theorem each_address_has_its_own_bucket (ip : string) (l : Limiter) (fb : bucket)
        (hs : list Hit) :
  is_Some (ipBuckets l) -> Forall anonymous hs ->
  let '(l', fb', oks) := safeAllowAll l fb hs in
  let b := default (newBucket IPBucketCapacity IPRefillPerSecond (hd 0 (instantsOf ip hs)))
                   (ipBucket l ip) in
  verdictsOf ip hs oks = snd (serve b (instantsOf ip hs)) /\
  (instantsOf ip hs <> [] -> ipBucket l' ip = Some (fst (serve b (instantsOf ip hs)))) /\
  (instantsOf ip hs = [] -> ipBucket l' ip = ipBucket l ip) /\
  fb' = fb /\ userBuckets l' = userBuckets l.
Proof.
  intros [ipm Hm] Hall.
  destruct (safeAllowAll_anonymous ip hs l fb ipm Hm Hall) as (ipm' & Hrun & Hv & Hb).
  rewrite Hrun. cbv zeta in *. unfold ipBucket. rewrite Hm. cbn [ipBuckets userBuckets].
  split; [exact Hv|]. rewrite Hb.
  destruct (instantsOf ip hs); repeat split; auto; try congruence.
Qed.

Lemma instantsOf_repeat (h : Hit) (n : nat) :
  instantsOf (extractIP (hitAddr h)) (repeat h n) = repeat (hitNow h) n.
Proof.
  induction n as [|n IH]; [reflexivity|].
  cbn [repeat limiter_facts.instantsOf]. rewrite String.eqb_refl, IH. reflexivity.
Qed.

Lemma verdictsOf_repeat (h : Hit) (n : nat) (oks : list bool) :
  length oks = n -> verdictsOf (extractIP (hitAddr h)) (repeat h n) oks = oks.
Proof.
  revert oks. induction n as [|n IH]; intros [|ok oks] H; try discriminate; [reflexivity|].
  cbn [repeat limiter_facts.verdictsOf]. rewrite String.eqb_refl, IH; [reflexivity|].
  simpl in H. lia.
Qed.

Lemma safeAllowAll_length (l : Limiter) (fb : bucket) (hs : list Hit) :
  length (snd (safeAllowAll l fb hs)) = length hs.
Proof.
  revert l fb. induction hs as [|h hs IH]; intros l fb; [reflexivity|].
  cbn [limiter_facts.safeAllowAll].
  destruct (safeAllow l fb _ _ _ _) as [[l1 fb1] ok].
  specialize (IH l1 fb1). destruct (safeAllowAll l1 fb1 hs) as [[l2 fb2] oks].
  simpl in *. rewrite IH. reflexivity.
Qed.

(** A client that the limiter has not seen before, sending requests
    without a user id at one instant, whenever that is: its first 20
    requests pass and the 21st is refused. *)
Theorem new_address_gets_twenty_at_once (l : Limiter) (fb : bucket) (h : Hit) :
  is_Some (ipBuckets l) -> anonymous h -> ipBucket l (extractIP (hitAddr h)) = None ->
  snd (safeAllowAll l fb (repeat h 21)) = (repeat true 20 ++ [false])%list.
Proof.
  intros [ipm Hm] Hh Hnew.
  assert (Hall : Forall anonymous (repeat h 21)).
  { generalize 21%nat. intros n. induction n as [|n IHn]; constructor; assumption. }
  destruct (safeAllowAll_anonymous (extractIP (hitAddr h)) (repeat h 21) l fb ipm Hm Hall)
    as (ipm' & _ & Hv & _).
  cbv zeta in Hv.
  rewrite verdictsOf_repeat in Hv by (rewrite safeAllowAll_length; apply repeat_length).
  rewrite Hv, instantsOf_repeat.
  unfold ipBucket in Hnew. rewrite Hm in Hnew. rewrite Hnew. cbn [default hd repeat].
  unfold newBucket. rewrite (serve_same_instant _ _ _ (hitNow h) 21).
  vm_compute. reflexivity.
Qed.

(** Every request whose address does not parse, and every request to a
    limiter whose IP map is nil, is decided by the package's one fallback
    bucket at the wall-clock instant of the request: the limiter is left
    as it was, and all such requests, whoever sends them, share the
    fallback's two tokens and its one token per second. *)
Theorem unparsed_addresses_share_the_fallback (l : Limiter) (fb : bucket) (hs : list Hit) :
  ipBuckets l = None \/ Forall (fun h => extractIP (hitAddr h) = "") hs ->
  safeAllowAll l fb hs
  = (l, fst (serve fb (hitWall <$> hs)), snd (serve fb (hitWall <$> hs))).
Proof.
  revert fb. induction hs as [|h hs IH]; intros fb H; [reflexivity|].
  cbn [limiter_facts.safeAllowAll fmap list_fmap serve].
  rewrite safeAllow_fallback.
  2: { destruct H as [H|H]; [now left | right]. inversion H; assumption. }
  destruct (allow fb (hitWall h)) as [fb1 ok]. cbn [fst snd].
  rewrite IH.
  2: { destruct H as [H|H]; [now left | right]. inversion H; assumption. }
  destruct (serve fb1 (hitWall <$> hs)) as [fb2 oks]. reflexivity.
Qed.

(** The limiter never drops a bucket: over any run of requests, every
    address and every user that has a bucket keeps one, each request adds
    at most one bucket to each map, and every request whose address parses
    leaves a bucket for that address behind, when the IP map is not nil.
    [Stats] never goes down. *)
Theorem limiter_never_drops_a_bucket (l : Limiter) (fb : bucket) (hs : list Hit) :
  let l' := fst (fst (safeAllowAll l fb hs)) in
  (forall ip, is_Some (ipBucket l ip) -> is_Some (ipBucket l' ip)) /\
  (forall uid, is_Some (userBucket l uid) -> is_Some (userBucket l' uid)) /\
  (fst (Stats l) <= fst (Stats l') <= fst (Stats l) + length hs)%nat /\
  (snd (Stats l) <= snd (Stats l') <= snd (Stats l) + length hs)%nat /\
  (ipBuckets l <> None ->
   forall h, In h hs -> extractIP (hitAddr h) <> "" ->
             is_Some (ipBucket l' (extractIP (hitAddr h)))).
Proof.
  revert l fb. induction hs as [|h hs IH]; intros l fb.
  { cbn. repeat split; auto; lia. }
  cbn [limiter_facts.safeAllowAll].
  pose proof (safeAllow_step l fb (hitCtx h) (hitAddr h) (hitNow h) (hitWall h)) as Hs.
  destruct (safeAllow l fb _ _ _ _) as [[l1 fb1] ok]. cbn [fst snd] in Hs.
  destruct Hs as (_ & _ & S1 & S2 & S3 & S4 & S5 & S6 & _).
  specialize (IH l1 fb1).
  destruct (safeAllowAll l1 fb1 hs) as [[l2 fb2] oks]. cbn [fst snd] in *.
  destruct IH as (I1 & I2 & I3 & I4 & I5).
  cbn [length]. split; [auto|]. split; [auto|]. split; [lia|]. split; [lia|].
  intros Hne h' [<- | Hin] Hip.
  - apply I1, S5; assumption.
  - apply I5; [|assumption..].
    intros Hnone. destruct S6 as [S6 _].
    destruct (ipBuckets l) as [m|] eqn:E; [|contradiction].
    destruct (S6 (ex_intro _ m eq_refl)) as [m1 Hm1]. congruence.
Qed.

(** One request leaves the buckets of every other address and of every
    other user exactly as they were. *)
Theorem safeAllow_touches_only_the_callers_buckets (l : Limiter) (fb : bucket)
        (ctx : Context) (addr : string) (now wall : Z) (ip uid : string) :
  ip <> extractIP addr -> uid <> userID ctx ->
  ipBucket (fst (fst (safeAllow l fb ctx addr now wall))) ip = ipBucket l ip /\
  userBucket (fst (fst (safeAllow l fb ctx addr now wall))) uid = userBucket l uid.
Proof.
  intros Hip Hu.
  destruct (safeAllow_step l fb ctx addr now wall) as (H1 & H2 & _).
  split; [apply H1, Hip | apply H2, Hu].
Qed.

End Runs.

(** *** Samples *)

Definition sample_hit (addr : string) (uid : string) (now : Z) : Hit :=
  {| hitCtx := if String.eqb uid "" then [] else [(UserIDKey, VString uid)];
     hitAddr := addr; hitNow := now; hitWall := now |}.

(** Two clients taking turns on a new limiter, seen from the first. *)
Lemma each_address_has_its_own_bucket_witness :
  let hs := [sample_hit "10.0.0.1:4711" "" 0; sample_hit "10.0.0.2:4712" "" 5;
             sample_hit "10.0.0.1:4711" "" 7] in
  let '(l', fb', oks) :=
    safeAllowAll gateway_facts.sample_SplitHostPort NewLimiter (newFallbackBucket 0) hs in
  let b := default (newBucket IPBucketCapacity IPRefillPerSecond
                      (hd 0 (instantsOf gateway_facts.sample_SplitHostPort "10.0.0.1" hs)))
                   (ipBucket NewLimiter "10.0.0.1") in
  verdictsOf gateway_facts.sample_SplitHostPort "10.0.0.1" hs oks
  = snd (serve b (instantsOf gateway_facts.sample_SplitHostPort "10.0.0.1" hs)) /\
  (instantsOf gateway_facts.sample_SplitHostPort "10.0.0.1" hs <> [] ->
   ipBucket l' "10.0.0.1"
   = Some (fst (serve b (instantsOf gateway_facts.sample_SplitHostPort "10.0.0.1" hs)))) /\
  (instantsOf gateway_facts.sample_SplitHostPort "10.0.0.1" hs = [] ->
   ipBucket l' "10.0.0.1" = ipBucket NewLimiter "10.0.0.1") /\
  fb' = newFallbackBucket 0 /\ userBuckets l' = userBuckets NewLimiter.
Proof.
  intros hs.
  apply (each_address_has_its_own_bucket gateway_facts.sample_SplitHostPort "10.0.0.1"
           NewLimiter (newFallbackBucket 0) hs).
  - eexists. reflexivity.
  - repeat constructor; intros H; vm_compute in H; discriminate H.
Defined.

Lemma new_address_gets_twenty_at_once_witness :
  snd (safeAllowAll gateway_facts.sample_SplitHostPort NewLimiter (newFallbackBucket 0)
         (repeat (sample_hit "10.0.0.1:4711" "" 1700000000000000000) 21))
  = (repeat true 20 ++ [false])%list.
Proof.
  apply (new_address_gets_twenty_at_once gateway_facts.sample_SplitHostPort NewLimiter
           (newFallbackBucket 0) (sample_hit "10.0.0.1:4711" "" 1700000000000000000)).
  - eexists. reflexivity.
  - split; [intros H; vm_compute in H; discriminate H | reflexivity].
  - vm_compute. reflexivity.
Defined.

(** Three requests at one instant from an address that does not parse,
    with the fallback bucket as the package makes it. *)
Lemma unparsed_addresses_share_the_fallback_witness :
  let hs := repeat (sample_hit "nowhere" "" 9) 3 in
  safeAllowAll gateway_facts.sample_SplitHostPort NewLimiter (newFallbackBucket 9) hs
  = (NewLimiter, fst (serve (newFallbackBucket 9) (hitWall <$> hs)),
     snd (serve (newFallbackBucket 9) (hitWall <$> hs))) /\
  snd (serve (newFallbackBucket 9) (hitWall <$> hs)) = [true; true; false].
Proof.
  intros hs. split; [|vm_compute; reflexivity].
  apply (unparsed_addresses_share_the_fallback gateway_facts.sample_SplitHostPort
           NewLimiter (newFallbackBucket 9) hs).
  right. repeat constructor.
Defined.

(** A limiter that holds buckets for 10.0.0.2 and for the user bob, and
    a request of the user alice from 10.0.0.1. *)
Lemma safeAllow_touches_only_the_callers_buckets_witness :
  let l := fst (fst (safeAllow gateway_facts.sample_SplitHostPort NewLimiter
                       (newFallbackBucket 0) [(UserIDKey, VString "bob")]
                       "10.0.0.2:4712" 0 0)) in
  let l' := fst (fst (safeAllow gateway_facts.sample_SplitHostPort l (newFallbackBucket 0)
                        [(UserIDKey, VString "alice")] "10.0.0.1:4711" 3 3)) in
  is_Some (ipBucket l "10.0.0.2") /\ is_Some (userBucket l "bob") /\
  ipBucket l' "10.0.0.2" = ipBucket l "10.0.0.2" /\
  userBucket l' "bob" = userBucket l "bob".
Proof.
  intros l l'.
  split; [vm_compute; eauto|]. split; [vm_compute; eauto|].
  apply (safeAllow_touches_only_the_callers_buckets gateway_facts.sample_SplitHostPort l
           (newFallbackBucket 0) [(UserIDKey, VString "alice")] "10.0.0.1:4711" 3 3
           "10.0.0.2" "bob").
  - intros H. vm_compute in H. discriminate H.
  - intros H. vm_compute in H. discriminate H.
Defined.

End limiter_facts.
